(** * Twitter-like data generator: storage model, generator and scheduler

    A shallow embedding of [business_system/database_manager.py],
    [business_system/data_generator.py] and the job configuration of
    [business_system/app.py].

    - The relational store is a record of three tables and their [SERIAL]
      sequences; the constraints are the ones [init_database] declares.
      An [INSERT] that a constraint rejects stores no row but has taken
      its key from the sequence, which is not given back.
    - Python code runs in a state-and-exception monad over a [world] that
      holds the store, the [user_ids] cache of the generator, and the
      sources of nondeterminism as tapes: the [random] module, [Faker],
      storage failures and the store's own [RANDOM()].
    - [try ... except Exception] is [try_except]; a state change made
      before the exception was raised stays (every statement is
      auto-committed, [connection.autocommit = True]). *)

From Stdlib Require Import ZArith NArith List String Bool Lia Arith.
From Stdlib Require Import DecimalString.
Import ListNotations.
Open Scope Z_scope.

(** ** Rows and tables *)

Record user_row := mkUser {
  user_id : Z;
  username : string;
  email : string;
  full_name : string;
  bio : string;
  followers_count : Z;
  following_count : Z
}.

Record tweet_row := mkTweet {
  tweet_id : Z;
  tweet_user_id : Z;
  content : string;
  hashtags : list string;
  mentions : list string;
  likes_count : Z;
  retweets_count : Z;
  reply_to_tweet_id : option Z
}.

Record follow_row := mkFollow {
  follow_id : Z;
  follower_id : Z;
  following_id : Z
}.

(** The store after [init_database]: three tables, each with the next
    value of its [SERIAL] key. *)
Record database := mkDb {
  users : list user_row;
  tweets : list tweet_row;
  follows : list follow_row;
  next_user_id : Z;
  next_tweet_id : Z;
  next_follow_id : Z
}.

Definition empty_db : database := mkDb [] [] [] 1 1 1.

(** ** Statements and their results *)

(** The eight statements the generator sends through [execute_query]. *)
Inductive stmt :=
| SelectUserIds (limit : Z)
| InsertUser (un em fn b : string) (fc fgc : Z)
| InsertTweet (uid : Z) (c : string) (hs ms : list string)
              (likes retweets : Z) (reply : option Z)
| SelectRandomTweet
| SelectFollow (follower following : Z)
| InsertFollow (follower following : Z)
| IncFollowing (uid : Z)
| IncFollowers (uid : Z).

(** What [execute_query] hands back: [None] (no result set), the single
    row of a [RETURNING] clause, or the row set of a [fetch=True] query. *)
Inductive qres :=
| NoResult
| OneRow (v : Z)
| RowSet (vs : list Z).

Inductive exn :=
| StorageError      (* connection-level failure of a statement *)
| IntegrityError    (* UNIQUE, FOREIGN KEY or CHECK violation *)
| DataError         (* value out of range for its column *)
| IndexError        (* random.choice on an empty list *)
| ValueError.       (* random.sample larger than the population *)

Inductive result (A : Type) :=
| Ok (a : A)
| Raise (e : exn).
Arguments Ok {A} a.
Arguments Raise {A} e.

(** ** DatabaseManager: the store's semantics *)

Module DatabaseManager.

(** PostgreSQL [INTEGER] and [SERIAL] are 32-bit signed. *)
Definition INT_MAX : Z := 2147483647.

Definition has_user (d : database) (u : Z) : bool :=
  existsb (fun r => user_id r =? u) (users d).

Definition has_tweet (d : database) (t : Z) : bool :=
  existsb (fun r => tweet_id r =? t) (tweets d).

Definition is_pair (f g : Z) (r : follow_row) : bool :=
  (follower_id r =? f) && (following_id r =? g).

Definition bump_following (u : Z) (r : user_row) : user_row :=
  if user_id r =? u
  then mkUser (user_id r) (username r) (email r) (full_name r) (bio r)
              (followers_count r) (following_count r + 1)
  else r.

Definition bump_followers (u : Z) (r : user_row) : user_row :=
  if user_id r =? u
  then mkUser (user_id r) (username r) (email r) (full_name r) (bio r)
              (followers_count r + 1) (following_count r)
  else r.

Definition with_users (d : database) (us : list user_row) : database :=
  mkDb us (tweets d) (follows d)
       (next_user_id d) (next_tweet_id d) (next_follow_id d).

(** [nextval] is not rolled back: an [INSERT] rejected by a UNIQUE,
    FOREIGN KEY or CHECK constraint leaves a gap in the sequence of its
    table. *)
Definition skip_user_id (d : database) : database :=
  mkDb (users d) (tweets d) (follows d)
       (next_user_id d + 1) (next_tweet_id d) (next_follow_id d).

Definition skip_tweet_id (d : database) : database :=
  mkDb (users d) (tweets d) (follows d)
       (next_user_id d) (next_tweet_id d + 1) (next_follow_id d).

Definition skip_follow_id (d : database) : database :=
  mkDb (users d) (tweets d) (follows d)
       (next_user_id d) (next_tweet_id d) (next_follow_id d + 1).

(** One statement against the store. [rnd] is the store's own random
    choice, used by [ORDER BY RANDOM()] only. A statement that raises
    stores and changes no row; a value that does not fit its column and
    an exhausted sequence are refused before a key is taken, a
    constraint violation after. Two simplifications: the id query
    answers in insertion order, where the storage promises no order
    without ORDER BY, and a value longer than its VARCHAR is refused
    whatever its excess is made of. *)
Definition run_stmt (q : stmt) (d : database) (rnd : nat)
  : result qres * database :=
  match q with
  | SelectUserIds limit =>
      (Ok (RowSet (firstn (Z.to_nat limit) (map user_id (users d)))), d)
  | InsertUser un em fn b fc fgc =>
      if INT_MAX <? next_user_id d then (Raise DataError, d)
      else if (50 <? String.length un)%nat || (100 <? String.length em)%nat
              || (100 <? String.length fn)%nat
      then (Raise DataError, d)
      else if existsb (fun r => String.eqb (username r) un
                                || String.eqb (email r) em) (users d)
      then (Raise IntegrityError, skip_user_id d)
      else (Ok (OneRow (next_user_id d)),
            mkDb (users d ++ [mkUser (next_user_id d) un em fn b fc fgc])
                 (tweets d) (follows d)
                 (next_user_id d + 1) (next_tweet_id d) (next_follow_id d))
  | InsertTweet uid c hs ms likes retweets reply =>
      if INT_MAX <? next_tweet_id d then (Raise DataError, d)
      else if negb (has_user d uid)
      then (Raise IntegrityError, skip_tweet_id d)
      else if match reply with
              | Some t => negb (has_tweet d t)
              | None => false
              end
      then (Raise IntegrityError, skip_tweet_id d)
      else (Ok (OneRow (next_tweet_id d)),
            mkDb (users d)
                 (tweets d ++ [mkTweet (next_tweet_id d) uid c hs ms
                                       likes retweets reply])
                 (follows d)
                 (next_user_id d) (next_tweet_id d + 1) (next_follow_id d))
  | SelectRandomTweet =>
      match tweets d with
      | [] => (Ok (RowSet []), d)
      | t :: ts =>
          (Ok (RowSet [tweet_id (nth (rnd mod List.length (t :: ts))
                                     (t :: ts) t)]), d)
      end
  | SelectFollow f g =>
      (Ok (RowSet (map (fun _ => 1) (filter (is_pair f g) (follows d)))), d)
  | InsertFollow f g =>
      if INT_MAX <? next_follow_id d then (Raise DataError, d)
      else if negb (has_user d f) || negb (has_user d g)
      then (Raise IntegrityError, skip_follow_id d)
      else if existsb (is_pair f g) (follows d)
      then (Raise IntegrityError, skip_follow_id d)
      else if f =? g then (Raise IntegrityError, skip_follow_id d)
      else (Ok (OneRow (next_follow_id d)),
            mkDb (users d) (tweets d)
                 (follows d ++ [mkFollow (next_follow_id d) f g])
                 (next_user_id d) (next_tweet_id d) (next_follow_id d + 1))
  | IncFollowing u =>
      if existsb (fun r => (user_id r =? u)
                           && (INT_MAX <? following_count r + 1)) (users d)
      then (Raise DataError, d)
      else (Ok NoResult, with_users d (map (bump_following u) (users d)))
  | IncFollowers u =>
      if existsb (fun r => (user_id r =? u)
                           && (INT_MAX <? followers_count r + 1)) (users d)
      then (Raise DataError, d)
      else (Ok NoResult, with_users d (map (bump_followers u) (users d)))
  end.

End DatabaseManager.
Import DatabaseManager.

(** ** The world the Python code runs in *)

Inductive event_kind := TweetEvent | FollowEvent.

Record world := mkWorld {
  db : database;
  user_ids : list Z;             (* DataGenerator.user_ids *)
  rng : list N;                  (* draws of the [random] module *)
  fake : list string;            (* values produced by [Faker] *)
  faults : list bool;            (* per statement: does the storage fail *)
  db_random : list nat;          (* the store's RANDOM() *)
  trace : list (stmt * bool);    (* ghost: statements sent, newest first,
                                    with whether they succeeded *)
  history : list event_kind      (* ghost: insert_tweet / insert_follow
                                    calls, newest first *)
}.

Definition M (A : Type) : Type := world -> result A * world.

Definition ret {A} (a : A) : M A := fun w => (Ok a, w).

Definition raise {A} (e : exn) : M A := fun w => (Raise e, w).

Definition bind {A B} (m : M A) (f : A -> M B) : M B :=
  fun w =>
    match m w with
    | (Ok a, w') => f a w'
    | (Raise e, w') => (Raise e, w')
    end.

(** [try: m except Exception as e: h e] *)
Definition try_except {A} (m : M A) (h : exn -> M A) : M A :=
  fun w =>
    match m w with
    | (Ok a, w') => (Ok a, w')
    | (Raise e, w') => h e w'
    end.

Declare Scope py_scope.
Delimit Scope py_scope with py.
Notation "x <- m ;; k" := (bind m (fun x => k))
  (at level 61, m at next level, right associativity) : py_scope.
Notation "m ;; k" := (bind m (fun _ => k))
  (at level 61, right associativity) : py_scope.
Open Scope py_scope.

(** [for _ in range(n): body] *)
Fixpoint for_range (n : nat) (body : M unit) : M unit :=
  match n with
  | O => ret tt
  | S k => body ;; for_range k body
  end.

(** [[m for _ in range(n)]] *)
Fixpoint list_of_range {A} (n : nat) (m : M A) : M (list A) :=
  match n with
  | O => ret []
  | S k => x <- m ;; xs <- list_of_range k m ;; ret (x :: xs)
  end.

(** *** State accessors *)

Definition get_user_ids_cache : M (list Z) := fun w => (Ok (user_ids w), w).

Definition set_user_ids (l : list Z) : M unit := fun w =>
  (Ok tt, mkWorld (db w) l (rng w) (fake w) (faults w) (db_random w)
                  (trace w) (history w)).

(** [self.user_ids.append(u)] *)
Definition append_user_id (u : Z) : M unit := fun w =>
  (Ok tt, mkWorld (db w) (user_ids w ++ [u]) (rng w) (fake w) (faults w)
                  (db_random w) (trace w) (history w)).

Definition enter (k : event_kind) : M unit := fun w =>
  (Ok tt, mkWorld (db w) (user_ids w) (rng w) (fake w) (faults w)
                  (db_random w) (trace w) (k :: history w)).

(** *** The [random] module *)

Definition draw : M N := fun w =>
  (Ok (hd 0%N (rng w)),
   mkWorld (db w) (user_ids w) (tl (rng w)) (fake w) (faults w)
           (db_random w) (trace w) (history w)).

(** [random.random() < p], with [p] in thousandths. *)
Definition random_below (permille : N) : M bool :=
  x <- draw ;; ret (N.ltb (x mod 1000) permille).

(** [random.randint(a, b)] *)
Definition randint (a b : Z) : M Z :=
  x <- draw ;; ret (a + Z.of_N x mod (b - a + 1)).

(** [random.choice(l)] *)
Definition choice (l : list Z) : M Z :=
  match l with
  | [] => raise IndexError
  | _ => x <- draw ;; ret (nth (N.to_nat x mod List.length l) l 0)
  end.

Fixpoint remove_nth {A} (i : nat) (l : list A) : list A :=
  match l, i with
  | [], _ => []
  | _ :: r, O => r
  | x :: r, S j => x :: remove_nth j r
  end.

Fixpoint sample_from (k : nat) (l : list Z) : M (list Z) :=
  match k with
  | O => ret []
  | S k' =>
      x <- draw ;;
      let i := (N.to_nat x mod List.length l)%nat in
      rest <- sample_from k' (remove_nth i l) ;;
      ret (nth i l 0 :: rest)
  end.

(** [random.sample(l, k)]: [k] positions of [l], without replacement.
    One draw per position; which position a draw selects, and how many
    draws the library takes, is simplified. *)
Definition sample (l : list Z) (k : nat) : M (list Z) :=
  if (List.length l <? k)%nat then raise ValueError else sample_from k l.

(** *** Faker *)

Definition fake_next : M string := fun w =>
  (Ok (hd EmptyString (fake w)),
   mkWorld (db w) (user_ids w) (rng w) (tl (fake w)) (faults w)
           (db_random w) (trace w) (history w)).

Definition fake_user_name : M string := fake_next.
Definition fake_email : M string := fake_next.
Definition fake_name : M string := fake_next.
Definition fake_word : M string := fake_next.

(** [fake.text(max_nb_chars=n)] *)
Definition fake_text (n : nat) : M string :=
  s <- fake_next ;; ret (substring 0 n s).

(** *** DatabaseManager.execute_query *)

Definition uses_random (q : stmt) : bool :=
  match q with SelectRandomTweet => true | _ => false end.

Definition succeeded {A} (r : result A) : bool :=
  match r with Ok _ => true | Raise _ => false end.

(** The statement is sent; the storage either fails (the next entry of
    [faults]) or runs it. The exception is logged and raised again. *)
Definition execute_query (q : stmt) : M qres := fun w =>
  if hd false (faults w)
  then (Raise StorageError,
        mkWorld (db w) (user_ids w) (rng w) (fake w) (tl (faults w))
                (db_random w) ((q, false) :: trace w) (history w))
  else
    let rd := run_stmt q (db w) (hd O (db_random w)) in
    (fst rd,
     mkWorld (snd rd) (user_ids w) (rng w) (fake w) (tl (faults w))
             (if uses_random q then tl (db_random w) else db_random w)
             ((q, succeeded (fst rd)) :: trace w) (history w)).

(** [DatabaseManager.get_user_ids(limit=100)] *)
Definition get_user_ids : M (list Z) :=
  try_except
    (r <- execute_query (SelectUserIds 100) ;;
     ret (match r with RowSet l => l | _ => [] end))
    (fun _ => ret []).

(** [DatabaseManager.get_random_tweet_id()] *)
Definition get_random_tweet_id : M (option Z) :=
  try_except
    (r <- execute_query SelectRandomTweet ;;
     ret (match r with RowSet (t :: _) => Some t | _ => None end))
    (fun _ => ret None).

(** [DatabaseManager.check_follow_exists(follower_id, following_id)] *)
Definition check_follow_exists (f g : Z) : M bool :=
  try_except
    (r <- execute_query (SelectFollow f g) ;;
     ret (match r with
          | RowSet l => (0 <? List.length l)%nat
          | _ => false
          end))
    (fun _ => ret true).

(** ** DataGenerator *)

Module DataGenerator.

Record tweet_data := mkTweetData {
  td_user_id : Z;
  td_content : string;
  td_hashtags : list string;
  td_mentions : list string;
  td_likes_count : Z;
  td_retweets_count : Z;
  td_reply_to_tweet_id : option Z
}.

Record follow_data := mkFollowData {
  fd_follower_id : Z;
  fd_following_id : Z
}.

(** [result[0] if result else None] *)
Definition first_column (r : qres) : option Z :=
  match r with
  | OneRow v => Some v
  | _ => None
  end.

(** Truth value of [user_id] in [if user_id:]. *)
Definition truthy (o : option Z) : bool :=
  match o with
  | Some v => negb (v =? 0)
  | None => false
  end.

Definition create_user : M (option Z) :=
  try_except
    (un <- fake_user_name ;;
     em <- fake_email ;;
     fn <- fake_name ;;
     b <- fake_text 160 ;;
     fc <- randint 0 1000 ;;
     fgc <- randint 0 500 ;;
     r <- execute_query (InsertUser un em fn b fc fgc) ;;
     ret (first_column r))
    (fun _ => ret None).

(** [new = self.create_user(); if new: self.user_ids.append(new)] *)
Definition create_and_append : M unit :=
  new_user_id <- create_user ;;
  match new_user_id with
  | Some u => if truthy new_user_id then append_user_id u else ret tt
  | None => ret tt
  end.

Definition load_or_create_users : M unit :=
  try_except
    (ids <- get_user_ids ;;
     set_user_ids ids ;;
     match ids with
     | _ :: _ => ret tt
     | [] => for_range 20 create_and_append
     end)
    (fun _ => ret tt).

Definition decimal (z : Z) : string := NilEmpty.string_of_int (Z.to_int z).

Definition generate_tweet_data : M tweet_data :=
  ids0 <- get_user_ids_cache ;;
  (match ids0 with [] => load_or_create_users | _ => ret tt end) ;;
  new_user <- random_below 100 ;;
  (if new_user then create_and_append else ret tt) ;;
  ids <- get_user_ids_cache ;;
  uid <- choice ids ;;
  c <- fake_text 280 ;;
  with_tags <- random_below 300 ;;
  hs <- (if with_tags
         then n <- randint 1 3 ;;
              list_of_range (Z.to_nat n)
                            (wd <- fake_word ;; ret (append "#" wd))
         else ret []) ;;
  with_mentions <- random_below 200 ;;
  ms <- (if with_mentions
         then mention_users <- sample ids (Nat.min 2 (List.length ids)) ;;
              ret (map (fun u => append "@user_" (decimal u))
                       (filter (fun u => negb (u =? uid)) mention_users))
         else ret []) ;;
  likes <- randint 0 1000 ;;
  retweets <- randint 0 100 ;;
  is_reply <- random_below 200 ;;
  reply <- (if is_reply then get_random_tweet_id else ret None) ;;
  ret (mkTweetData uid c hs ms likes retweets reply).

Definition generate_follow_data : M follow_data :=
  ids0 <- get_user_ids_cache ;;
  (if (List.length ids0 <? 2)%nat then load_or_create_users else ret tt) ;;
  new_user <- random_below 50 ;;
  (if new_user then create_and_append else ret tt) ;;
  ids <- get_user_ids_cache ;;
  picked <- sample ids 2 ;;
  match picked with
  | [f; g] => ret (mkFollowData f g)
  | _ => raise ValueError
  end.

Definition insert_tweet : M unit :=
  enter TweetEvent ;;
  try_except
    (td <- generate_tweet_data ;;
     _ <- execute_query
            (InsertTweet (td_user_id td) (td_content td) (td_hashtags td)
                         (td_mentions td) (td_likes_count td)
                         (td_retweets_count td) (td_reply_to_tweet_id td)) ;;
     ret tt)
    (fun _ => ret tt).

(** The part of [insert_follow]'s [try] block that follows
    [generate_follow_data]: the existence check, the insert and the two
    counter updates. *)
Definition insert_follow_with (fd : follow_data) : M unit :=
  present <- check_follow_exists (fd_follower_id fd) (fd_following_id fd) ;;
  if present then ret tt
  else
    r <- execute_query
           (InsertFollow (fd_follower_id fd) (fd_following_id fd)) ;;
    if truthy (first_column r)
    then execute_query (IncFollowing (fd_follower_id fd)) ;;
         execute_query (IncFollowers (fd_following_id fd)) ;;
         ret tt
    else ret tt.

Definition insert_follow : M unit :=
  enter FollowEvent ;;
  try_except
    (fd <- generate_follow_data ;; insert_follow_with fd)
    (fun _ => ret tt).

Definition insert_random_data : M unit :=
  try_except
    (tweet <- random_below 700 ;;
     if tweet then insert_tweet else insert_follow)
    (fun _ => ret tt).

(** [n] consecutive cycles, as the scheduler runs them. *)
Fixpoint run_cycles (n : nat) (w : world) : world :=
  match n with
  | O => w
  | S k => run_cycles k (snd (insert_random_data w))
  end.

End DataGenerator.
Import DataGenerator.

(** ** Observations on the store and the trace *)

(** The row of user [U], if any ([user_id] is the primary key). *)
Definition lookup_user (U : Z) (d : database) : option user_row :=
  find (fun r => user_id r =? U) (users d).

(** The stored [followers_count] of [U]. *)
Definition followers_of (U : Z) (d : database) : option Z :=
  option_map followers_count (lookup_user U d).

(** Number of Follow rows with [U] as [following_id]. *)
Definition rows_to (U : Z) (d : database) : nat :=
  List.length (filter (fun r => following_id r =? U) (follows d)).

(** Number of Follow rows for the ordered pair [(f, g)]. *)
Definition count_pair (f g : Z) (d : database) : nat :=
  List.length (filter (is_pair f g) (follows d)).

(** Follow rows inserted with [U] as target, in a piece of trace. *)
Definition is_insert_to (U : Z) (e : stmt * bool) : bool :=
  match e with
  | (InsertFollow _ g, true) => g =? U
  | _ => false
  end.

(** Completed [followers_count] updates of [U], in a piece of trace. *)
Definition is_inc_of (U : Z) (e : stmt * bool) : bool :=
  match e with
  | (IncFollowers u, true) => u =? U
  | _ => false
  end.

Definition count_ins (U : Z) (tr : list (stmt * bool)) : nat :=
  List.length (filter (is_insert_to U) tr).

Definition count_inc (U : Z) (tr : list (stmt * bool)) : nat :=
  List.length (filter (is_inc_of U) tr).

(** The statements that create one of the three entities. *)
Definition is_user_insert (e : stmt * bool) : bool :=
  match fst e with InsertUser _ _ _ _ _ _ => true | _ => false end.

Definition is_tweet_insert (e : stmt * bool) : bool :=
  match fst e with InsertTweet _ _ _ _ _ _ _ => true | _ => false end.

Definition is_follow_insert (e : stmt * bool) : bool :=
  match fst e with InsertFollow _ _ => true | _ => false end.

(** What generation may send: the user-id query, user inserts and the
    reply-target query. *)
Definition is_generation_stmt (e : stmt * bool) : bool :=
  match fst e with
  | SelectUserIds _ | InsertUser _ _ _ _ _ _ | SelectRandomTweet => true
  | _ => false
  end.

(** ** Invariants *)

(** Keys of the users table are below the sequence and pairwise distinct:
    the storage hands out a fresh id at every insert. *)
Definition keys_fresh (d : database) : Prop :=
  Forall (fun r => user_id r < next_user_id d) (users d)
  /\ NoDup (map user_id (users d)).

(** The cache of the generator: no duplicate, and only ids the storage
    has handed out. *)
Definition cache_ok (w : world) : Prop :=
  NoDup (user_ids w)
  /\ Forall (fun u => u < next_user_id (db w)) (user_ids w)
  /\ keys_fresh (db w).

(** Foreign keys of the follows table point at ids handed out. *)
Definition follows_refer (d : database) : Prop :=
  Forall (fun r => following_id r < next_user_id d) (follows d).

(** UNIQUE(username), UNIQUE(email). *)
Definition names_unique (d : database) : Prop :=
  NoDup (map username (users d)) /\ NoDup (map email (users d)).

(** UNIQUE(follower_id, following_id). *)
Definition pairs_unique (d : database) : Prop :=
  forall f g, (count_pair f g d <= 1)%nat.

(** ** Relations between the world before and after a piece of code *)

Definition respects (R : world -> world -> Prop) {A} (m : M A) : Prop :=
  forall w, R w (snd (m w)).

(** A relation that composes along a run and that drawing from the
    [random] module or from [Faker] keeps. *)
Class Frame (R : world -> world -> Prop) : Prop := {
  frame_refl : forall w, R w w;
  frame_trans : forall a b c, R a b -> R b c -> R a c;
  frame_draw : respects R draw;
  frame_fake : respects R fake_next
}.

(** Accounting for user [U]: over a piece of run, the stored
    [followers_count] grows by the completed counter updates of [U] and
    the Follow rows targeting [U] by the completed inserts. *)
Definition acct (U : Z) (w w' : world) : Prop :=
  has_user (db w) U = true ->
  has_user (db w') U = true
  /\ exists new,
      trace w' = new ++ trace w
      /\ followers_of U (db w')
         = option_map (fun c => c + Z.of_nat (count_inc U new))
                      (followers_of U (db w))
      /\ rows_to U (db w') = (rows_to U (db w) + count_ins U new)%nat.

(** Generation only: the trace grows by generation statements, the
    tweets and follows tables stay as they are, and no call of
    [insert_tweet] or [insert_follow] is entered. *)
Definition generates (w w' : world) : Prop :=
  history w' = history w
  /\ tweets (db w') = tweets (db w)
  /\ follows (db w') = follows (db w)
  /\ exists new,
      trace w' = new ++ trace w
      /\ forallb is_generation_stmt new = true.

(** A property of the store that every statement keeps. *)
Definition db_invariant (I : database -> Prop) : Prop :=
  forall q d rnd, I d -> I (snd (run_stmt q d rnd)).

Definition keeps_db (I : database -> Prop) (w w' : world) : Prop :=
  I (db w) -> I (db w').

(** The invariant of the cache is kept. *)
Definition keeps_cache (w w' : world) : Prop :=
  cache_ok w -> cache_ok w'.

(** What a run reads: the store, the cache, the streams of the [random]
    module and of [Faker], the failure schedule and the store's own
    random choices. The two ghost records are not among them. *)
Definition same_inputs (w1 w2 : world) : Prop :=
  db w1 = db w2 /\ user_ids w1 = user_ids w2 /\ rng w1 = rng w2
  /\ fake w1 = fake w2 /\ faults w1 = faults w2
  /\ db_random w1 = db_random w2.

(** Two runs of [m] on the same inputs stay in step: they end alike,
    leave the same inputs behind, and record the same statements and
    the same event kinds. *)
Definition in_step {A} (m : M A) : Prop :=
  forall w1 w2, same_inputs w1 w2 ->
    fst (m w1) = fst (m w2)
    /\ same_inputs (snd (m w1)) (snd (m w2))
    /\ exists sent kinds,
        trace (snd (m w1)) = sent ++ trace w1
        /\ trace (snd (m w2)) = sent ++ trace w2
        /\ history (snd (m w1)) = kinds ++ history w1
        /\ history (snd (m w2)) = kinds ++ history w2.

(** ** The scheduler's overlap guard *)

Module Scheduler.

(** The job [setup_scheduler] registers with [add_job]. *)
Record job := mkJob {
  job_id : string;
  seconds : Z;
  max_instances : nat
}.

(** [TwitterApp.setup_scheduler]: one interval job,
    [max_instances=1  # Prevent job overlap]. *)
Definition setup_scheduler (insert_interval : Z) : job :=
  mkJob "twitter_data_insert" insert_interval 1.

Inductive slot := Idle | Running.

Inductive event :=
| Tick        (* the interval fires *)
| Complete.   (* the running cycle returns *)

Record state := mkState {
  in_flight : nat;   (* cycles executing now *)
  started : nat;     (* cycles started so far *)
  dropped : nat      (* ticks dropped so far *)
}.

Definition initial : state := mkState 0 0 0.

Definition slot_of (s : state) : slot :=
  match in_flight s with
  | O => Idle
  | S _ => Running
  end.

(** Modelled from the spec: the guard itself is the scheduler library's,
    not code under [src/]; the repository only configures it with
    [max_instances]. On a tick, an Idle slot turns Running and a cycle
    starts; a tick that finds the allowed number of instances running is
    dropped (no queue, no catch-up). Completion of the cycle frees the
    slot. *)
Definition step (j : job) (s : state) (e : event) : state :=
  match e with
  | Tick =>
      if (in_flight s <? max_instances j)%nat
      then mkState (S (in_flight s)) (S (started s)) (dropped s)
      else mkState (in_flight s) (started s) (S (dropped s))
  | Complete =>
      mkState (Nat.pred (in_flight s)) (started s) (dropped s)
  end.

Definition run (j : job) (es : list event) (s : state) : state :=
  fold_left (step j) es s.

End Scheduler.

(** ** Outcomes of single calls *)

(** The store after a successful user insert of row [r]. *)
Definition add_user (r : user_row) (d : database) : database :=
  mkDb (users d ++ [r]) (tweets d) (follows d)
       (next_user_id d + 1) (next_tweet_id d) (next_follow_id d).

(** UNIQUE(username) or UNIQUE(email) rejects row [r]. *)
Definition name_taken (r : user_row) (d : database) : bool :=
  existsb (fun r' => String.eqb (username r') (username r)
                     || String.eqb (email r') (email r)) (users d).

(** The two ways [create_user] ends: the row is stored under the next
    key, or the insert fails and no row is stored (a rejected insert has
    still taken its key). It never raises. *)
Inductive create_outcome (w : world) : result (option Z) -> world -> Prop :=
| created r w' e :
    user_id r = next_user_id (db w) ->
    0 <= followers_count r <= 1000 ->
    0 <= following_count r <= 500 ->
    name_taken r (db w) = false ->
    db w' = add_user r (db w) ->
    user_ids w' = user_ids w ->
    history w' = history w ->
    is_user_insert e = true -> snd e = true ->
    trace w' = e :: trace w ->
    create_outcome w (Ok (Some (user_id r))) w'
| not_created w' e :
    db w' = db w \/ db w' = skip_user_id (db w) ->
    user_ids w' = user_ids w ->
    history w' = history w ->
    is_user_insert e = true -> snd e = false ->
    trace w' = e :: trace w ->
    create_outcome w (Ok None) w'.

(** The world once [create_user] has drawn the profile: four Faker
    values and two [randint] draws are consumed. *)
Definition after_profile (w : world) : world :=
  mkWorld (db w) (user_ids w) (tl (tl (rng w))) (tl (tl (tl (tl (fake w)))))
          (faults w) (db_random w) (trace w) (history w).

(** The insert [create_user] sends from world [w]. *)
Definition profile_insert (w : world) : stmt :=
  InsertUser (hd EmptyString (fake w)) (hd EmptyString (tl (fake w)))
             (hd EmptyString (tl (tl (fake w))))
             (substring 0 160 (hd EmptyString (tl (tl (tl (fake w))))))
             (0 + Z.of_N (hd 0%N (rng w)) mod (1000 - 0 + 1))
             (0 + Z.of_N (hd 0%N (tl (rng w))) mod (500 - 0 + 1)).

(** What [get_user_ids] returns: the first hundred keys, or the empty
    list when the query fails. *)
Definition loaded_ids (w : world) : list Z :=
  if hd false (faults w) then []
  else firstn (Z.to_nat 100) (map user_id (users (db w))).

(** The world after [self.user_ids = self.db_manager.get_user_ids()]. *)
Definition after_load (w : world) : world :=
  mkWorld (db w) (loaded_ids w) (rng w) (fake w) (tl (faults w))
          (db_random w)
          ((SelectUserIds 100, negb (hd false (faults w))) :: trace w)
          (history w).

(** The world after the existence query: only the failure schedule and
    the trace moved. *)
Definition after_check (f g : Z) (w : world) : world :=
  mkWorld (db w) (user_ids w) (rng w) (fake w) (tl (faults w))
          (db_random w)
          ((SelectFollow f g, negb (hd false (faults w))) :: trace w)
          (history w).

(** Statements of a piece of trace that succeeded. *)
Definition successes (tr : list (stmt * bool)) : nat :=
  List.length (filter snd tr).

(** The trace grows by statements that satisfy [P]; no call of
    [insert_tweet] or [insert_follow] is entered. *)
Definition extends (P : stmt * bool -> bool) (w w' : world) : Prop :=
  history w' = history w
  /\ exists new, trace w' = new ++ trace w /\ forallb P new = true.

(** Counter updates of the follow path. *)
Definition is_counter_update (e : stmt * bool) : bool :=
  match fst e with
  | IncFollowing _ | IncFollowers _ => true
  | _ => false
  end.

(** The kind of cycle a draw of [random.random()] selects. *)
Definition kind_of_draw (x : N) : event_kind :=
  if N.ltb (x mod 1000) 700 then TweetEvent else FollowEvent.

(** The draws at the start of the first [n] cycles of a run, newest
    first. *)
Fixpoint start_draws (n : nat) (w : world) : list N :=
  match n with
  | O => []
  | S k => hd 0%N (rng (run_cycles k w)) :: start_draws k w
  end.

(** ** Concrete worlds *)

Module Worlds.
#[local] Open Scope string_scope.

Definition alice : user_row :=
  mkUser 1 "alice" "alice@example.org" "Alice" "" 0 0.

Definition bob : user_row :=
  mkUser 2 "bob" "bob@example.org" "Bob" "" 0 0.

(** A store with one user, and one with two. *)
Definition alice_db : database := mkDb [alice] [] [] 2 1 1.
Definition two_user_db : database := mkDb [alice; bob] [] [] 3 1 1.

Definition bob_profile : list string :=
  ["bob"; "bob@example.org"; "Bob"; "bio"].

Definition carol_profile : list string :=
  ["carol"; "carol@example.org"; "Carol"; "bio"].

(** Faker hands out a username that is taken. *)
Definition alice_again : list string :=
  ["alice"; "al@example.org"; "Al"; "bio"].

(** Create a user (seeds 7 and 3), then one follow cycle that picks the
    pair (1, 2). *)
Definition seeded : world :=
  mkWorld alice_db [1] [7; 3; 900; 900; 0; 0]%N bob_profile [] [] [] [].

(** One tweet cycle that first creates a user. *)
Definition tweet_with_new_user : world :=
  mkWorld alice_db [1] [0; 0; 7; 3; 1; 900; 900; 5; 5; 900]%N
          (bob_profile ++ ["hello"]) [] [] [] [].

Definition faker_of (ns : list nat) : list string :=
  map (fun n => append "u" (decimal (Z.of_nat n))) ns.

(** An empty store; Faker repeats its first username for the second
    user of the bootstrap batch. *)
Definition bootstrap_collision : world :=
  mkWorld empty_db [] [] (faker_of (seq 0 4 ++ [O] ++ seq 5 75))
          [] [] [] [].

(** A store with one user; the id query fails, every later statement
    is answered. *)
Definition reload_fails : world :=
  mkWorld alice_db [] [] (faker_of (seq 0 80)) [true] [] [] [].

(** An empty store; eighty distinct Faker values. *)
Definition bootstrap_clean : world :=
  mkWorld empty_db [] [] (faker_of (seq 0 80)) [] [] [] [].

(** Two runs on the same stream of the [random] module, the same store
    and the same (empty) failure schedule; Faker alone differs. *)
Definition stream : list N := [900; 0; 5; 5; 0; 900; 900; 900; 900; 900]%N.

Definition run_a : world :=
  mkWorld alice_db [] stream alice_again [] [] [] [].

Definition run_b : world :=
  mkWorld alice_db [] stream bob_profile [] [] [] [].

Definition run_c : world :=
  mkWorld alice_db [] stream carol_profile [] [] [] [].

(** Two known users; the follow cycle picks the pair (1, 2), twice. *)
Definition follow_twice : world :=
  mkWorld two_user_db [1; 2] [900; 0; 0; 900; 0; 0]%N [] [] [] [] [].

(** Two known users; the storage fails at the first statement. *)
Definition check_fails : world :=
  mkWorld two_user_db [1; 2] [900; 0; 0]%N [] [true] [] [] [].

(** As [seeded], but the storage fails at the sixth statement: the
    update of [followers_count] that follows the stored Follow row. *)
Definition seeded_update_fails : world :=
  mkWorld alice_db [1] [7; 3; 900; 900; 0; 0]%N bob_profile
          [false; false; false; false; false; true] [] [] [].

(** The inputs of [run_b], entered with the records of earlier work. *)
Definition run_b_later : world :=
  mkWorld alice_db [] stream bob_profile [] []
          [(SelectUserIds 100, true)] [TweetEvent].

End Worlds.


(** ** Further observations *)

(** The row [create_user] asks the store to insert from world [w]. *)
Definition profile_row (w : world) : user_row :=
  mkUser (next_user_id (db w))
         (hd EmptyString (fake w)) (hd EmptyString (tl (fake w)))
         (hd EmptyString (tl (tl (fake w))))
         (substring 0 160 (hd EmptyString (tl (tl (tl (fake w))))))
         (0 + Z.of_N (hd 0%N (rng w)) mod (1000 - 0 + 1))
         (0 + Z.of_N (hd 0%N (tl (rng w))) mod (500 - 0 + 1)).

(** The stored [following_count] of [U]. *)
Definition following_of (U : Z) (d : database) : option Z :=
  option_map following_count (lookup_user U d).

(** What a user row is, apart from its two counters. *)
Definition identity (r : user_row) : Z * string * string * string * string :=
  (user_id r, username r, email r, full_name r, bio r).

(** Every cached id is the key of a stored user. *)
Definition cache_known (w : world) : Prop :=
  Forall (fun u => has_user (db w) u = true) (user_ids w).

(** Append-only: the tweets and follows tables grow at their end, user
    rows keep their place and identity, and no sequence goes back. *)
Definition grows (w w' : world) : Prop :=
  (exists t, tweets (db w') = tweets (db w) ++ t)
  /\ (exists f, follows (db w') = follows (db w) ++ f)
  /\ (exists u, map identity (users (db w'))
                = map identity (users (db w)) ++ u)
  /\ next_user_id (db w) <= next_user_id (db w')
  /\ next_tweet_id (db w) <= next_tweet_id (db w')
  /\ next_follow_id (db w) <= next_follow_id (db w').

(** The cache keeps pointing at stored users. *)
Definition keeps_known (w w' : world) : Prop :=
  cache_known w -> cache_known w'.

(** Store and cache are left as they are. *)
Definition same_store (w w' : world) : Prop :=
  db w' = db w /\ user_ids w' = user_ids w.

(** The part of [generate_tweet_data] that follows the reload and the
    opportunistic user creation: the payload drawn for the ids [ids]. *)
Definition tweet_payload (ids : list Z) : M tweet_data :=
  uid <- choice ids ;;
  c <- fake_text 280 ;;
  with_tags <- random_below 300 ;;
  hs <- (if with_tags
         then n <- randint 1 3 ;;
              list_of_range (Z.to_nat n)
                            (wd <- fake_word ;; ret (append "#" wd))
         else ret []) ;;
  with_mentions <- random_below 200 ;;
  ms <- (if with_mentions
         then mention_users <- sample ids (Nat.min 2 (List.length ids)) ;;
              ret (map (fun u => append "@user_" (decimal u))
                       (filter (fun u => negb (u =? uid)) mention_users))
         else ret []) ;;
  likes <- randint 0 1000 ;;
  retweets <- randint 0 100 ;;
  is_reply <- random_below 200 ;;
  reply <- (if is_reply then get_random_tweet_id else ret None) ;;
  ret (mkTweetData uid c hs ms likes retweets reply).

(** The world in which [generate_tweet_data] draws its payload. *)
Definition before_payload (w : world) : world :=
  let w1 := match user_ids w with
            | [] => snd (load_or_create_users w)
            | _ :: _ => w
            end in
  if N.ltb (hd 0%N (rng w1) mod 1000) 100
  then snd (create_and_append (snd (draw w1)))
  else snd (draw w1).

(** Generation leaves an empty failure schedule empty and does not take
    from the tweet and follow sequences. *)
Definition quiet (w w' : world) : Prop :=
  (faults w = [] -> faults w' = [])
  /\ next_tweet_id (db w') = next_tweet_id (db w)
  /\ next_follow_id (db w') = next_follow_id (db w).

(** The world in which [generate_follow_data] samples its pair. *)
Definition before_sample (w : world) : world :=
  let w0 := if (List.length (user_ids w) <? 2)%nat
            then snd (load_or_create_users w) else w in
  if N.ltb (hd 0%N (rng w0) mod 1000) 50
  then snd (create_and_append (snd (draw w0)))
  else snd (draw w0).

(** The row [insert_tweet] asks the store to insert for payload [td]. *)
Definition tweet_row_of (d : database) (td : tweet_data) : tweet_row :=
  mkTweet (next_tweet_id d) (td_user_id td) (td_content td)
          (td_hashtags td) (td_mentions td) (td_likes_count td)
          (td_retweets_count td) (td_reply_to_tweet_id td).

(** The follows table is left as it is. *)
Definition keeps_follows (w w' : world) : Prop :=
  follows (db w') = follows (db w).

(** Counter updates of [U] never outnumber inserts targeting [U]. *)
Definition lags (U : Z) (w w' : world) : Prop :=
  exists new,
    trace w' = new ++ trace w
    /\ (count_inc U new <= count_ins U new)%nat.

(** The counter updates that follow a stored Follow row. *)
Definition counter_updates (f g : Z) : M unit :=
  execute_query (IncFollowing f) ;;
  execute_query (IncFollowers g) ;;
  ret tt.

(** Every stored counter is at most [b]. *)
Definition counters_below (b : Z) (d : database) : Prop :=
  Forall (fun r => followers_count r <= b /\ following_count r <= b)
         (users d).

(** The conditions under which the follow path completes its writes: no
    storage failure is scheduled, the follows sequence hands out
    positive keys (a [SERIAL] starts at 1), and no counter is above
    [b]. *)
Definition steady (b : Z) (w : world) : Prop :=
  faults w = [] /\ 1 <= next_follow_id (db w)
  /\ counters_below b (db w).

(** Counters that are at most [b], from the seeds of [create_user]
    upwards, stay so. *)
Definition keeps_bound (w w' : world) : Prop :=
  forall b, 1000 <= b ->
    counters_below b (db w) -> counters_below b (db w').

(** ** The configuration of DatabaseManager *)

Module Config.
#[local] Open Scope string_scope.

(** The process environment once [load_dotenv] has run. *)
Definition environ := string -> option string.

Definition getenv (e : environ) (var : string) : option string := e var.

(** Truth of [os.getenv(var)]: [None] and the empty string are falsy. *)
Definition is_set (o : option string) : bool :=
  match o with
  | Some (String _ _) => true
  | _ => false
  end.

Definition required_vars : list string :=
  ["DB_HOST"; "DB_PORT"; "DB_NAME"; "DB_USER"; "DB_PASSWORD"].

(** The dict [self.config]; every value is what [os.getenv] returned. *)
Record config := mkConfig {
  cfg_host : option string;
  cfg_port : option string;
  cfg_database : option string;
  cfg_user : option string;
  cfg_password : option string
}.

(** The loop over [required_vars]: the message of the [ValueError] it
    raises, if it raises. *)
Fixpoint check_required (e : environ) (vars : list string) : option string :=
  match vars with
  | [] => None
  | var :: rest =>
      if is_set (getenv e var) then check_required e rest
      else Some (append "Missing required environment variable: " var)
  end.

(** [_load_config]: [inl message] stands for [ValueError(message)]. *)
Definition load_config (e : environ) : string + config :=
  match check_required e required_vars with
  | Some message => inl message
  | None =>
      inr (mkConfig (getenv e "DB_HOST") (getenv e "DB_PORT")
                    (getenv e "DB_NAME") (getenv e "DB_USER")
                    (getenv e "DB_PASSWORD"))
  end.

End Config.
(** * Proofs *)

(** ** Composition of frame relations *)

Section Respects.
Context {R : world -> world -> Prop} {HR : Frame R}.

Lemma respects_ret {A} (a : A) : respects R (ret a).
Proof. intro w. apply frame_refl. Qed.

Lemma respects_raise {A} (e : exn) : respects R (@raise A e).
Proof. intro w. apply frame_refl. Qed.

Lemma respects_bind {A B} (m : M A) (k : A -> M B) :
  respects R m -> (forall a, respects R (k a)) -> respects R (bind m k).
Proof.
  intros Hm Hk w. unfold bind.
  specialize (Hm w). destruct (m w) as [[a | e] w1]; simpl in *.
  - eapply frame_trans; [exact Hm | apply Hk].
  - exact Hm.
Qed.

Lemma respects_try {A} (m : M A) (h : exn -> M A) :
  respects R m -> (forall e, respects R (h e)) ->
  respects R (try_except m h).
Proof.
  intros Hm Hh w. unfold try_except.
  specialize (Hm w). destruct (m w) as [[a | e] w1]; simpl in *.
  - exact Hm.
  - eapply frame_trans; [exact Hm | apply Hh].
Qed.

Lemma respects_for_range (n : nat) (body : M unit) :
  respects R body -> respects R (for_range n body).
Proof.
  intro Hb. induction n as [| n IH]; simpl.
  - apply respects_ret.
  - apply respects_bind; auto.
Qed.

Lemma respects_list_of_range {A} (n : nat) (m : M A) :
  respects R m -> respects R (list_of_range n m).
Proof.
  intro Hm. induction n as [| n IH]; simpl.
  - apply respects_ret.
  - apply respects_bind; [exact Hm | intro x].
    apply respects_bind; [exact IH | intro xs]. apply respects_ret.
Qed.

Lemma respects_cache : respects R get_user_ids_cache.
Proof. intro w. apply frame_refl. Qed.

Lemma respects_random_below p : respects R (random_below p).
Proof.
  apply respects_bind; [apply frame_draw | intro; apply respects_ret].
Qed.

Lemma respects_randint a b : respects R (randint a b).
Proof.
  apply respects_bind; [apply frame_draw | intro; apply respects_ret].
Qed.

Lemma respects_choice l : respects R (choice l).
Proof.
  destruct l; simpl.
  - apply respects_raise.
  - apply respects_bind; [apply frame_draw | intro; apply respects_ret].
Qed.

Lemma respects_sample_from k : forall l, respects R (sample_from k l).
Proof.
  induction k as [| k IH]; intro l; simpl.
  - apply respects_ret.
  - apply respects_bind; [apply frame_draw | intro x].
    apply respects_bind; [apply IH | intro; apply respects_ret].
Qed.

Lemma respects_sample l k : respects R (sample l k).
Proof.
  unfold sample. destruct (_ <? _)%nat.
  - apply respects_raise.
  - apply respects_sample_from.
Qed.

Lemma respects_fake_text n : respects R (fake_text n).
Proof.
  apply respects_bind; [apply frame_fake | intro; apply respects_ret].
Qed.

Lemma respects_run_cycles (n : nat) :
  respects R insert_random_data ->
  forall w, R w (run_cycles n w).
Proof.
  intro Hc. induction n as [| n IH]; intro w; simpl.
  - apply frame_refl.
  - eapply frame_trans; [apply Hc | apply IH].
Qed.
End Respects.

(** One step of a proof that a function of the generator respects a
    relation: split the code along its binds, handlers, loops and
    branches, down to the primitives. *)
Ltac respects_step :=
  match goal with
  | |- respects _ (bind _ _) => apply respects_bind; [| intro]
  | |- respects _ (try_except _ _) => apply respects_try; [| intro]
  | |- respects _ (ret _) => apply respects_ret
  | |- respects _ (raise _) => apply respects_raise
  | |- respects _ (for_range _ _) => apply respects_for_range
  | |- respects _ (list_of_range _ _) => apply respects_list_of_range
  | |- respects _ get_user_ids_cache => apply respects_cache
  | |- respects _ draw => apply frame_draw
  | |- respects _ fake_next => apply frame_fake
  | |- respects _ fake_user_name => apply frame_fake
  | |- respects _ fake_email => apply frame_fake
  | |- respects _ fake_name => apply frame_fake
  | |- respects _ fake_word => apply frame_fake
  | |- respects _ (fake_text _) => apply respects_fake_text
  | |- respects _ (random_below _) => apply respects_random_below
  | |- respects _ (randint _ _) => apply respects_randint
  | |- respects _ (choice _) => apply respects_choice
  | |- respects _ (sample _ _) => apply respects_sample
  | |- respects _ (match ?x with _ => _ end) => destruct x
  end.

(** ** Accounting of followers *)

Lemma lookup_app U (l l' : list user_row) :
  existsb (fun r => user_id r =? U) l = true ->
  find (fun r => user_id r =? U) (l ++ l') = find (fun r => user_id r =? U) l.
Proof.
  induction l as [| r l IH]; simpl; [discriminate |].
  destruct (user_id r =? U); simpl; auto.
Qed.

Lemma lookup_bump_followers U u (l : list user_row) :
  find (fun r => user_id r =? U) (map (bump_followers u) l)
  = option_map (bump_followers u) (find (fun r => user_id r =? U) l).
Proof.
  induction l as [| r l IH]; simpl; [reflexivity |].
  unfold bump_followers at 1.
  destruct (user_id r =? u) eqn:E; simpl; destruct (user_id r =? U); auto.
Qed.

Lemma lookup_bump_following U u (l : list user_row) :
  find (fun r => user_id r =? U) (map (bump_following u) l)
  = option_map (bump_following u) (find (fun r => user_id r =? U) l).
Proof.
  induction l as [| r l IH]; simpl; [reflexivity |].
  unfold bump_following at 1.
  destruct (user_id r =? u) eqn:E; simpl; destruct (user_id r =? U); auto.
Qed.

Lemma has_user_bump (f : user_row -> user_row) U (l : list user_row) :
  (forall r, user_id (f r) = user_id r) ->
  existsb (fun r => user_id r =? U) (map f l)
  = existsb (fun r => user_id r =? U) l.
Proof.
  intro Hf. induction l as [| r l IH]; simpl; [reflexivity |].
  now rewrite Hf, IH.
Qed.

Lemma bump_followers_id u r : user_id (bump_followers u r) = user_id r.
Proof. unfold bump_followers. now destruct (_ =? _). Qed.

Lemma bump_following_id u r : user_id (bump_following u r) = user_id r.
Proof. unfold bump_following. now destruct (_ =? _). Qed.

Lemma find_user_id U (l : list user_row) r :
  find (fun r => user_id r =? U) l = Some r -> user_id r = U.
Proof.
  intro H. apply find_some in H. destruct H as [_ H]. now apply Z.eqb_eq.
Qed.

Lemma acct_same U w w' :
  db w' = db w -> trace w' = trace w -> acct U w w'.
Proof.
  intros Hd Ht Hu. rewrite Hd. split; [exact Hu |].
  exists []. simpl. split; [exact Ht |]. split.
  - unfold count_inc. simpl. destruct (followers_of U (db w)); simpl; f_equal; lia.
  - unfold count_ins. simpl. lia.
Qed.

Lemma acct_trans U a b c : acct U a b -> acct U b c -> acct U a c.
Proof.
  intros Hab Hbc Hu.
  destruct (Hab Hu) as (Hub & n1 & T1 & F1 & C1).
  destruct (Hbc Hub) as (Huc & n2 & T2 & F2 & C2).
  split; [exact Huc |]. exists (n2 ++ n1). repeat split.
  - rewrite T2, T1. now rewrite app_assoc.
  - rewrite F2, F1. unfold count_inc. rewrite filter_app, length_app.
    destruct (followers_of U (db a)); simpl; f_equal; lia.
  - rewrite C2, C1. unfold count_ins. rewrite filter_app, length_app. lia.
Qed.

#[export] Instance acct_frame U : Frame (acct U).
Proof.
  split.
  - intro w. now apply acct_same.
  - apply acct_trans.
  - intro w. now apply acct_same.
  - intro w. now apply acct_same.
Qed.

Lemma acct_one U w w' e :
  (has_user (db w) U = true ->
   has_user (db w') U = true
   /\ trace w' = e :: trace w
   /\ followers_of U (db w')
      = option_map (fun c => c + (if is_inc_of U e then 1 else 0))
                   (followers_of U (db w))
   /\ rows_to U (db w')
      = (rows_to U (db w) + (if is_insert_to U e then 1 else 0))%nat) ->
  acct U w w'.
Proof.
  intros H Hu. destruct (H Hu) as (Hu' & Ht & Hf & Hr).
  split; [exact Hu' |]. exists [e]. repeat split.
  - exact Ht.
  - rewrite Hf. unfold count_inc. simpl.
    destruct (is_inc_of U e), (followers_of U (db w)); simpl; f_equal; lia.
  - rewrite Hr. unfold count_ins. simpl. now destruct (is_insert_to U e).
Qed.

Lemma option_map_add0 (o : option Z) : o = option_map (fun c => c + 0) o.
Proof. destruct o; simpl; f_equal; lia. Qed.

Lemma followers_bump_followers U u d :
  has_user d U = true ->
  followers_of U (with_users d (map (bump_followers u) (users d)))
  = option_map (fun c => c + (if u =? U then 1 else 0)) (followers_of U d).
Proof.
  intros _. unfold followers_of, lookup_user. simpl.
  rewrite lookup_bump_followers.
  destruct (find _ (users d)) as [r |] eqn:E; simpl; [| reflexivity].
  apply find_user_id in E. unfold bump_followers. rewrite E.
  rewrite (Z.eqb_sym U u). destruct (u =? U); simpl; f_equal; lia.
Qed.

Lemma followers_bump_following U u d :
  followers_of U (with_users d (map (bump_following u) (users d)))
  = followers_of U d.
Proof.
  unfold followers_of, lookup_user. simpl. rewrite lookup_bump_following.
  destruct (find _ (users d)) as [r |]; simpl; [| reflexivity].
  unfold bump_following. now destruct (_ =? _).
Qed.

Ltac split_ifs :=
  repeat match goal with
         | |- context [if ?c then _ else _] => destruct c eqn:?; simpl
         | |- context [match ?c with _ => _ end] => destruct c eqn:?; simpl
         end.

Lemma run_stmt_acct U q d rnd :
  has_user d U = true ->
  let rd := run_stmt q d rnd in
  has_user (snd rd) U = true
  /\ followers_of U (snd rd)
     = option_map (fun c => c + (if is_inc_of U (q, succeeded (fst rd))
                                 then 1 else 0))
                  (followers_of U d)
  /\ rows_to U (snd rd)
     = (rows_to U d + (if is_insert_to U (q, succeeded (fst rd))
                       then 1 else 0))%nat.
Proof.
  intro Hu. destruct q; simpl.
  - auto using option_map_add0.
  - split_ifs; auto using option_map_add0.
    unfold has_user, followers_of, lookup_user, rows_to in *. simpl.
    rewrite existsb_app, Hu, lookup_app by exact Hu.
    auto using option_map_add0.
  - split_ifs; auto using option_map_add0.
  - split_ifs; auto using option_map_add0.
  - auto using option_map_add0.
  - unfold rows_to.
    destruct (following =? U) eqn:EU; split_ifs;
      repeat split; auto using option_map_add0; try lia;
      rewrite filter_app, length_app; simpl; rewrite EU; simpl; lia.
  - destruct (existsb _ _); simpl; [auto using option_map_add0 |].
    unfold has_user in *. simpl.
    rewrite has_user_bump by apply bump_following_id.
    rewrite followers_bump_following. auto using option_map_add0.
  - destruct (existsb _ _); simpl; [auto using option_map_add0 |].
    unfold has_user in *. simpl.
    rewrite has_user_bump by apply bump_followers_id.
    rewrite followers_bump_followers by exact Hu. auto.
Qed.

Lemma acct_execute_query U q : respects (acct U) (execute_query q).
Proof.
  intro w. unfold execute_query.
  destruct (hd false (faults w)); simpl.
  - apply acct_one with (e := (q, false)). intro Hu. simpl.
    repeat split; auto using option_map_add0.
    + destruct q; apply option_map_add0.
    + destruct q; simpl; lia.
  - apply acct_one
      with (e := (q, succeeded (fst (run_stmt q (db w) (hd O (db_random w)))))).
    intro Hu. simpl.
    destruct (run_stmt_acct U q (db w) (hd O (db_random w)) Hu) as (A & B & C).
    auto.
Qed.

Create HintDb respects.

Ltac respects_prog :=
  repeat first [ solve [auto with respects] | respects_step ].

Lemma acct_set_user_ids U l : respects (acct U) (set_user_ids l).
Proof. intro w. now apply acct_same. Qed.

Lemma acct_append_user_id U u : respects (acct U) (append_user_id u).
Proof. intro w. now apply acct_same. Qed.

Lemma acct_enter U k : respects (acct U) (enter k).
Proof. intro w. now apply acct_same. Qed.

#[export] Hint Resolve acct_execute_query acct_set_user_ids
  acct_append_user_id acct_enter : respects.

Lemma acct_insert_random_data U : respects (acct U) insert_random_data.
Proof.
  unfold insert_random_data, insert_tweet, insert_follow, insert_follow_with,
    generate_tweet_data, generate_follow_data, load_or_create_users,
    create_and_append, create_user, get_user_ids, get_random_tweet_id,
    check_follow_exists.
  respects_prog.
Qed.

(** ** What one call does *)

Lemma randint_range (x : N) a b :
  a <= b -> a <= a + Z.of_N x mod (b - a + 1) <= b.
Proof.
  intro H. pose proof (Z.mod_pos_bound (Z.of_N x) (b - a + 1)). lia.
Qed.

Lemma create_user_unfold w :
  create_user w
  = match execute_query (profile_insert w) (after_profile w) with
    | (Ok r, w') => (Ok (first_column r), w')
    | (Raise _, w') => (Ok None, w')
    end.
Proof.
  unfold create_user, try_except, bind, fake_user_name, fake_email,
    fake_name, fake_text, randint, bind, ret, fake_next, draw.
  cbn [fst snd db user_ids rng fake faults db_random trace history].
  change (mkWorld (db w) (user_ids w) (tl (tl (rng w)))
                  (tl (tl (tl (tl (fake w))))) (faults w) (db_random w)
                  (trace w) (history w)) with (after_profile w).
  fold (profile_insert w).
  now destruct (execute_query (profile_insert w) (after_profile w))
    as [[r | e] w'].
Qed.

Lemma create_user_outcome w :
  create_outcome w (fst (create_user w)) (snd (create_user w)).
Proof.
  rewrite create_user_unfold. unfold execute_query.
  destruct (hd false (faults (after_profile w))).
  { eapply not_created with (e := (profile_insert w, false));
      try reflexivity. now left. }
  cbn [run_stmt profile_insert].
  change (db (after_profile w)) with (db w).
  destruct (INT_MAX <? next_user_id (db w)).
  { eapply not_created with (e := (profile_insert w, false));
      try reflexivity. now left. }
  destruct (_ || _ || _)%bool.
  { eapply not_created with (e := (profile_insert w, false));
      try reflexivity. now left. }
  destruct (existsb _ _) eqn:E.
  { eapply not_created with (e := (profile_insert w, false));
      try reflexivity. now right. }
  cbn [fst snd first_column succeeded].
  match goal with
  | |- context [users (db w) ++ [?row]] =>
      change (next_user_id (db w)) with (user_id row) at 1;
      apply created with (r := row) (e := (profile_insert w, true))
  end; try reflexivity.
  - apply (randint_range _ 0 1000); lia.
  - apply (randint_range _ 0 500); lia.
  - exact E.
Qed.

Lemma lookup_new U (l : list user_row) r :
  Forall (fun r' => user_id r' < U) l -> user_id r = U ->
  find (fun r' => user_id r' =? U) (l ++ [r]) = Some r.
Proof.
  intros Hl Hr. induction Hl as [| x l Hx _ IH]; simpl.
  - rewrite Hr, Z.eqb_refl. reflexivity.
  - destruct (user_id x =? U) eqn:E; [apply Z.eqb_eq in E; lia | exact IH].
Qed.

Lemma rows_to_unreferenced U (l : list follow_row) :
  Forall (fun r => following_id r < U) l ->
  List.length (filter (fun r => following_id r =? U) l) = O.
Proof.
  induction 1 as [| x l Hx _ IH]; simpl; [reflexivity |].
  destruct (following_id x =? U) eqn:E; [apply Z.eqb_eq in E; lia | exact IH].
Qed.

(** Right after [create_user] has stored [U]: its counter is the random
    seed, and no Follow row targets it. *)
Lemma create_user_fresh_row w0 U w1 :
  keys_fresh (db w0) -> follows_refer (db w0) ->
  create_user w0 = (Ok (Some U), w1) ->
  has_user (db w1) U = true
  /\ rows_to U (db w1) = O
  /\ exists seed, 0 <= seed <= 1000 /\ followers_of U (db w1) = Some seed.
Proof.
  intros [Hk _] Hf Hc. pose proof (create_user_outcome w0) as Ho.
  rewrite Hc in Ho. simpl in Ho. inversion Ho as [r w' e Hid Hfc _ _ Hdb | ]; subst.
  assert (Hl : lookup_user (user_id r) (db w1) = Some r).
  { unfold lookup_user. rewrite Hdb. simpl. apply lookup_new; [| reflexivity].
    now rewrite Hid. }
  repeat split.
  - unfold has_user. apply existsb_exists. exists r. split.
    + unfold lookup_user in Hl. now apply find_some in Hl.
    + apply Z.eqb_refl.
  - unfold rows_to. rewrite Hdb. simpl. apply rows_to_unreferenced.
    now rewrite Hid.
  - exists (followers_count r). split; [exact Hfc |].
    unfold followers_of. now rewrite Hl.
Qed.

(** ** Invariants of the store *)

Section DbInvariant.
Variable I : database -> Prop.
Hypothesis I_kept : db_invariant I.

Lemma keeps_db_same w w' : db w' = db w -> keeps_db I w w'.
Proof. intros E H. now rewrite E. Qed.

#[export] Instance keeps_db_frame : Frame (keeps_db I).
Proof.
  split.
  - intro w. now apply keeps_db_same.
  - intros a b c Hab Hbc Ha. auto.
  - intro w. now apply keeps_db_same.
  - intro w. now apply keeps_db_same.
Qed.

Lemma keeps_db_execute_query q : respects (keeps_db I) (execute_query q).
Proof.
  intros w H. unfold execute_query.
  destruct (hd false (faults w)); simpl; [exact H | now apply I_kept].
Qed.

Lemma keeps_db_set_user_ids l : respects (keeps_db I) (set_user_ids l).
Proof. intro w. now apply keeps_db_same. Qed.

Lemma keeps_db_append_user_id u :
  respects (keeps_db I) (append_user_id u).
Proof. intro w. now apply keeps_db_same. Qed.

Lemma keeps_db_enter k : respects (keeps_db I) (enter k).
Proof. intro w. now apply keeps_db_same. Qed.

#[local] Hint Resolve keeps_db_execute_query keeps_db_set_user_ids
  keeps_db_append_user_id keeps_db_enter : core.

Lemma keeps_db_generate_follow_data :
  respects (keeps_db I) generate_follow_data.
Proof.
  unfold generate_follow_data, load_or_create_users, create_and_append,
    create_user, get_user_ids.
  repeat first [ solve [auto] | respects_step ].
Qed.

Lemma keeps_db_insert_follow : respects (keeps_db I) insert_follow.
Proof.
  pose proof keeps_db_generate_follow_data.
  unfold insert_follow, insert_follow_with, check_follow_exists.
  repeat first [ solve [auto] | respects_step ].
Qed.

Lemma keeps_db_insert_tweet : respects (keeps_db I) insert_tweet.
Proof.
  unfold insert_tweet, generate_tweet_data, load_or_create_users,
    create_and_append, create_user, get_user_ids, get_random_tweet_id.
  repeat first [ solve [auto] | respects_step ].
Qed.

Lemma keeps_db_insert_random_data :
  respects (keeps_db I) insert_random_data.
Proof.
  pose proof keeps_db_insert_tweet. pose proof keeps_db_insert_follow.
  unfold insert_random_data.
  repeat first [ solve [auto] | respects_step ].
Qed.
End DbInvariant.

Lemma count_pair_app f g (l l' : list follow_row) :
  List.length (filter (is_pair f g) (l ++ l'))
  = (List.length (filter (is_pair f g) l)
     + List.length (filter (is_pair f g) l'))%nat.
Proof. now rewrite filter_app, length_app. Qed.

Lemma count_pair_absent f g (l : list follow_row) :
  existsb (is_pair f g) l = false ->
  List.length (filter (is_pair f g) l) = O.
Proof.
  induction l as [| r l IH]; simpl; [reflexivity |].
  destruct (is_pair f g r); simpl; [discriminate | exact IH].
Qed.

Lemma count_pair_present f g (l : list follow_row) :
  existsb (is_pair f g) l = true ->
  (1 <= List.length (filter (is_pair f g) l))%nat.
Proof.
  induction l as [| r l IH]; simpl; [discriminate |].
  destruct (is_pair f g r); simpl; [lia | exact IH].
Qed.

Lemma is_pair_other f g f' g' id :
  is_pair f' g' (mkFollow id f g) = true -> f = f' /\ g = g'.
Proof.
  unfold is_pair. simpl. intro H. apply andb_prop in H.
  destruct H as [H1 H2]. apply Z.eqb_eq in H1, H2. auto.
Qed.

(** UNIQUE(follower_id, following_id) is an invariant of the store. *)
Lemma pairs_unique_invariant : db_invariant pairs_unique.
Proof.
  intros q d rnd H. destruct q; simpl; split_ifs; auto.
  intros f' g'. unfold count_pair. simpl. rewrite count_pair_app. simpl.
  destruct (is_pair f' g' _) eqn:E; simpl.
  - apply is_pair_other in E. destruct E; subst.
    rewrite count_pair_absent by assumption. lia.
  - specialize (H f' g'). unfold count_pair in H. lia.
Qed.

(** ** The follow path: check, insert, counters *)

Lemma nonempty_filter {A B} (p : A -> bool) (h : A -> B) (l : list A) :
  (0 <? List.length (map h (filter p l)))%nat = existsb p l.
Proof.
  induction l as [| x l IH]; simpl; [reflexivity |].
  destruct (p x); simpl; [reflexivity | exact IH].
Qed.

Lemma execute_select_follow f g w :
  execute_query (SelectFollow f g) w
  = (if hd false (faults w) then Raise StorageError
     else Ok (RowSet (map (fun _ => 1)
                          (filter (is_pair f g) (follows (db w))))),
     after_check f g w).
Proof.
  unfold execute_query, after_check. now destruct (hd false (faults w)).
Qed.

(** [check_follow_exists] answers [True] when the pair is stored and
    also when the query fails. *)
Lemma check_follow_exists_eq f g w :
  check_follow_exists f g w
  = (Ok (hd false (faults w)
         || existsb (is_pair f g) (follows (db w))),
     after_check f g w).
Proof.
  unfold check_follow_exists, try_except, bind.
  rewrite execute_select_follow.
  destruct (hd false (faults w)); simpl; [reflexivity |].
  unfold ret. now rewrite nonempty_filter.
Qed.

Lemma insert_follow_with_skip fd w :
  hd false (faults w)
  || existsb (is_pair (fd_follower_id fd) (fd_following_id fd))
             (follows (db w)) = true ->
  insert_follow_with fd w
  = (Ok tt, after_check (fd_follower_id fd) (fd_following_id fd) w).
Proof.
  intro H. unfold insert_follow_with, bind.
  rewrite check_follow_exists_eq, H. reflexivity.
Qed.

Lemma insert_follow_unfold w :
  insert_follow w
  = match generate_follow_data (snd (enter FollowEvent w)) with
    | (Ok fd, wg) =>
        match insert_follow_with fd wg with
        | (Ok a, w') => (Ok a, w')
        | (Raise _, w') => (Ok tt, w')
        end
    | (Raise _, wg) => (Ok tt, wg)
    end.
Proof.
  unfold insert_follow, bind, try_except, enter. simpl.
  destruct (generate_follow_data _) as [[fd | e] wg]; [| reflexivity].
  now destruct (insert_follow_with fd wg) as [[a | e] w'].
Qed.

(** ** C6: nothing escapes a cycle *)

Lemma try_except_returns {A} (m : M A) (a : A) w :
  (forall x, x = a) -> fst (try_except m (fun _ => ret a) w) = Ok a.
Proof.
  intro Hu. unfold try_except.
  destruct (m w) as [[x | e] w']; simpl; [now rewrite (Hu x) | reflexivity].
Qed.

Lemma unit_unique (x : unit) : x = tt.
Proof. now destruct x. Qed.

Lemma insert_tweet_returns w : fst (insert_tweet w) = Ok tt.
Proof.
  unfold insert_tweet, bind, enter.
  apply (try_except_returns _ tt _ unit_unique).
Qed.

Lemma insert_follow_returns w : fst (insert_follow w) = Ok tt.
Proof.
  unfold insert_follow, bind, enter.
  apply (try_except_returns _ tt _ unit_unique).
Qed.

(** The generator's helpers do raise: [random.sample] on a cache of one
    id, with the storage answering the reload by that single id. *)
Example generate_follow_data_raises :
  fst (generate_follow_data
         (mkWorld (mkDb [mkUser 1 "a" "a@x" "A" "" 0 0] [] [] 2 1 1)
                  [1] [900%N] [] [] [] [] []))
  = Raise ValueError.
Proof. reflexivity. Qed.

(** C6. Whatever the tapes hold (any storage failure at any statement,
    any constraint violation, any draw), a cycle returns normally; so do
    [insert_tweet] and [insert_follow] on their own. *)
Theorem insert_random_data_returns_normally (w : world) :
  fst (insert_random_data w) = Ok tt
  /\ fst (insert_tweet w) = Ok tt
  /\ fst (insert_follow w) = Ok tt.
Proof.
  split; [| split].
  - unfold insert_random_data. apply (try_except_returns _ tt _ unit_unique).
  - apply insert_tweet_returns.
  - apply insert_follow_returns.
Qed.

(** ** C4: a failed existence check *)

(** C4. If the existence query of the generated pair raises, then
    [insert_follow] returns normally, the store is the one generation
    left, and the only statement sent after generation is the failed
    query: no insert and no counter update is attempted. *)
Theorem failed_check_skips_insert (w wg : world) (fd : follow_data) (e : exn) :
  generate_follow_data (snd (enter FollowEvent w)) = (Ok fd, wg) ->
  fst (execute_query
         (SelectFollow (fd_follower_id fd) (fd_following_id fd)) wg)
  = Raise e ->
  fst (check_follow_exists (fd_follower_id fd) (fd_following_id fd) wg)
  = Ok true
  /\ fst (insert_follow w) = Ok tt
  /\ db (snd (insert_follow w)) = db wg
  /\ user_ids (snd (insert_follow w)) = user_ids wg
  /\ trace (snd (insert_follow w))
     = (SelectFollow (fd_follower_id fd) (fd_following_id fd), false)
         :: trace wg.
Proof.
  intros Hg Hq. rewrite execute_select_follow in Hq. simpl in Hq.
  destruct (hd false (faults wg)) eqn:Hf; [| discriminate].
  rewrite check_follow_exists_eq, insert_follow_unfold, Hg.
  rewrite insert_follow_with_skip by now rewrite Hf.
  unfold after_check. rewrite Hf. simpl. auto.
Qed.

(** ** Generation touches users only *)

Lemma generates_same w w' :
  db w' = db w -> trace w' = trace w -> history w' = history w ->
  generates w w'.
Proof.
  intros Hd Ht Hh. unfold generates. rewrite Hd, Ht, Hh.
  repeat split. now exists [].
Qed.

#[export] Instance generates_frame : Frame generates.
Proof.
  split.
  - intro w. now apply generates_same.
  - intros a b c (H1 & T1 & F1 & n1 & E1 & G1) (H2 & T2 & F2 & n2 & E2 & G2).
    unfold generates. rewrite H2, T2, F2. repeat split; auto.
    exists (n2 ++ n1). split.
    + now rewrite E2, E1, app_assoc.
    + now rewrite forallb_app, G1, G2.
  - intro w. now apply generates_same.
  - intro w. now apply generates_same.
Qed.

Lemma run_stmt_generation q d rnd :
  is_generation_stmt (q, true) = true ->
  tweets (snd (run_stmt q d rnd)) = tweets d
  /\ follows (snd (run_stmt q d rnd)) = follows d.
Proof.
  destruct q; try discriminate; intros _; simpl.
  - auto.
  - repeat match goal with
           | |- context [if ?c then _ else _] => destruct c
           end; simpl; auto.
  - destruct (tweets d) eqn:E; simpl; rewrite ?E; auto.
Qed.

Lemma generates_execute_query q :
  is_generation_stmt (q, true) = true ->
  respects generates (execute_query q).
Proof.
  intros Hq w. unfold execute_query.
  assert (Hq' : forall b, is_generation_stmt (q, b) = true)
    by (intro; exact Hq).
  destruct (hd false (faults w)); simpl.
  - repeat split. exists [(q, false)]. simpl. now rewrite Hq'.
  - destruct (run_stmt_generation q (db w) (hd O (db_random w)) Hq).
    repeat split; auto.
    eexists [_]. split; [reflexivity |]. simpl. now rewrite Hq'.
Qed.

Lemma generates_set_user_ids l : respects generates (set_user_ids l).
Proof. intro w. now apply generates_same. Qed.

Lemma generates_append_user_id u : respects generates (append_user_id u).
Proof. intro w. now apply generates_same. Qed.

#[export] Hint Resolve generates_set_user_ids generates_append_user_id
  : respects.
#[export] Hint Extern 1 (respects generates (execute_query _)) =>
  (apply generates_execute_query; reflexivity) : respects.

Lemma generates_load_or_create_users : respects generates load_or_create_users.
Proof.
  unfold load_or_create_users, create_and_append, create_user, get_user_ids.
  respects_prog.
Qed.

Lemma generates_generate_follow_data : respects generates generate_follow_data.
Proof.
  unfold generate_follow_data, load_or_create_users, create_and_append,
    create_user, get_user_ids.
  respects_prog.
Qed.

Lemma generates_generate_tweet_data : respects generates generate_tweet_data.
Proof.
  unfold generate_tweet_data, load_or_create_users, create_and_append,
    create_user, get_user_ids, get_random_tweet_id.
  respects_prog.
Qed.

(** ** C3: the same pair twice *)

(** C3. Two consecutive calls of [insert_follow], the second one
    generating the pair [(f, g)] that the first one left stored: the
    second call returns normally, sends the existence query and nothing
    else (no insert, no counter update), leaves the store as generation
    left it, and the pair has exactly one Follow row. *)
Theorem second_insert_follow_is_noop (w wg : world) (fd : follow_data) :
  pairs_unique (db w) ->
  let f := fd_follower_id fd in
  let g := fd_following_id fd in
  let w1 := snd (insert_follow w) in
  existsb (is_pair f g) (follows (db w1)) = true ->
  generate_follow_data (snd (enter FollowEvent w1)) = (Ok fd, wg) ->
  let w2 := snd (insert_follow w1) in
  fst (insert_follow w1) = Ok tt
  /\ db w2 = db wg
  /\ count_pair f g (db w2) = 1%nat
  /\ exists ok, trace w2 = (SelectFollow f g, ok) :: trace wg.
Proof.
  intros Hu f g w1 Hp Hg w2.
  assert (Hu1 : pairs_unique (db w1))
    by exact (keeps_db_insert_follow _ pairs_unique_invariant w Hu).
  destruct (generates_generate_follow_data (snd (enter FollowEvent w1)))
    as (_ & _ & Hfo & _).
  rewrite Hg in Hfo. simpl in Hfo.
  assert (Hp' : existsb (is_pair f g) (follows (db wg)) = true)
    by now rewrite Hfo.
  subst w2. rewrite insert_follow_unfold, Hg.
  rewrite insert_follow_with_skip by (fold f g; rewrite Hp'; apply orb_true_r).
  simpl. repeat split.
  - unfold count_pair. rewrite Hfo.
    pose proof (count_pair_present f g _ Hp). specialize (Hu1 f g).
    unfold count_pair in Hu1. lia.
  - eexists. reflexivity.
Qed.

(** ** The cache of user ids *)

Lemma run_stmt_next q d rnd :
  next_user_id d <= next_user_id (snd (run_stmt q d rnd)).
Proof.
  destruct q; simpl;
    repeat match goal with
           | |- context [if ?c then _ else _] => destruct c
           | |- context [match tweets d with _ => _ end] =>
               destruct (tweets d)
           end; simpl; lia.
Qed.

Lemma map_bump_id (h : user_row -> user_row) (l : list user_row) :
  (forall r, user_id (h r) = user_id r) ->
  map user_id (map h l) = map user_id l.
Proof.
  intro Hh. rewrite map_map. apply map_ext. exact Hh.
Qed.

Lemma NoDup_snoc {A} (l : list A) (x : A) :
  NoDup l -> ~ In x l -> NoDup (l ++ [x]).
Proof.
  intros Hl Hx. induction Hl as [| y l Hy Hl IH]; simpl.
  - constructor; [intros [] | constructor].
  - constructor.
    + rewrite in_app_iff. simpl. intros [H | [H | []]]; [auto |].
      subst. apply Hx. now left.
    + apply IH. intro H. apply Hx. now right.
Qed.

Lemma below_not_in (l : list Z) (x : Z) :
  Forall (fun u => u < x) l -> ~ In x l.
Proof.
  intros H Hin. rewrite Forall_forall in H. specialize (H x Hin). lia.
Qed.

Lemma keys_fresh_add_user r d :
  keys_fresh d -> user_id r = next_user_id d -> keys_fresh (add_user r d).
Proof.
  intros [Hb Hn] Hr. split; simpl.
  - apply Forall_app. split.
    + eapply Forall_impl; [| exact Hb]. simpl. intros; lia.
    + constructor; [lia | constructor].
  - rewrite map_app. simpl. apply NoDup_snoc; [exact Hn |].
    apply below_not_in. rewrite Forall_map, Hr. exact Hb.
Qed.

Lemma keys_fresh_skip d : keys_fresh d -> keys_fresh (skip_user_id d).
Proof.
  intros [Hb Hn]. split; simpl; [| exact Hn].
  eapply Forall_impl; [| exact Hb]. simpl. intros; lia.
Qed.

(** PRIMARY KEY(user_id), with keys taken from the sequence, is an
    invariant of the store. *)
Lemma keys_fresh_invariant : db_invariant keys_fresh.
Proof.
  intros q d rnd H. destruct q; simpl.
  - exact H.
  - repeat match goal with
           | |- context [if ?c then _ else _] => destruct c
           end; cbn [snd]; auto using keys_fresh_skip.
    now apply (keys_fresh_add_user (mkUser _ un em fn b fc fgc)).
  - repeat match goal with
           | |- context [if ?c then _ else _] => destruct c
           end; simpl; auto.
  - destruct (tweets d); exact H.
  - exact H.
  - repeat match goal with
           | |- context [if ?c then _ else _] => destruct c
           end; simpl; auto.
  - destruct (existsb _ _); simpl; [exact H |].
    destruct H as [Hb Hn]. split; simpl.
    + rewrite Forall_map. eapply Forall_impl; [| exact Hb].
      intros r Hr. now rewrite bump_following_id.
    + now rewrite map_bump_id by apply bump_following_id.
  - destruct (existsb _ _); simpl; [exact H |].
    destruct H as [Hb Hn]. split; simpl.
    + rewrite Forall_map. eapply Forall_impl; [| exact Hb].
      intros r Hr. now rewrite bump_followers_id.
    + now rewrite map_bump_id by apply bump_followers_id.
Qed.

Lemma keeps_cache_same w w' :
  db w' = db w -> user_ids w' = user_ids w -> keeps_cache w w'.
Proof. intros Hd Hu. unfold keeps_cache, cache_ok. now rewrite Hd, Hu. Qed.

#[export] Instance keeps_cache_frame : Frame keeps_cache.
Proof.
  split.
  - intro w. now apply keeps_cache_same.
  - intros a b c Hab Hbc Ha. auto.
  - intro w. now apply keeps_cache_same.
  - intro w. now apply keeps_cache_same.
Qed.

Lemma keeps_cache_execute_query q : respects keeps_cache (execute_query q).
Proof.
  intros w (Hn & Hb & Hk). unfold execute_query.
  destruct (hd false (faults w)); simpl;
    [exact (conj Hn (conj Hb Hk)) |].
  split; [exact Hn |]. split; simpl.
  - eapply Forall_impl; [| exact Hb]. simpl. intros u Hu.
    pose proof (run_stmt_next q (db w) (hd O (db_random w))). lia.
  - now apply keys_fresh_invariant.
Qed.

Lemma keeps_cache_enter k : respects keeps_cache (enter k).
Proof. intro w. now apply keeps_cache_same. Qed.

(** [create_and_append] never raises, and the cache afterwards is the
    old one, possibly with the new key at its end. *)
Lemma create_and_append_outcome w :
  fst (create_and_append w) = Ok tt
  /\ (cache_ok w -> cache_ok (snd (create_and_append w)))
  /\ exists extra, user_ids (snd (create_and_append w)) = user_ids w ++ extra.
Proof.
  unfold create_and_append, bind.
  pose proof (create_user_outcome w) as Ho.
  destruct (create_user w) as [r w1]. simpl in Ho.
  inversion Ho as [row w' e Hid Hfc Hfg Hnt Hdb Hu Hh Hi Hs Ht
                  | w' e Hdb Hu Hh Hi Hs Ht];
    subst; simpl.
  - destruct (negb (user_id row =? 0)); simpl.
    + split; [reflexivity |]. split; [| now exists [user_id row]; rewrite Hu].
      intros (Hn & Hb & Hk). unfold cache_ok. rewrite Hdb, Hu.
      split; [| split]; simpl.
      * apply NoDup_snoc; [exact Hn |]. apply below_not_in. now rewrite Hid.
      * apply Forall_app. split.
        -- eapply Forall_impl; [| exact Hb]. simpl. intros; lia.
        -- constructor; [lia | constructor].
      * now apply keys_fresh_add_user.
    + split; [reflexivity |].
      split; [| now exists []; rewrite Hu, app_nil_r].
      intros (Hn & Hb & Hk). unfold cache_ok. rewrite Hdb, Hu.
      split; [| split]; simpl.
      * exact Hn.
      * eapply Forall_impl; [| exact Hb]. simpl. intros; lia.
      * now apply keys_fresh_add_user.
  - split; [reflexivity |]. split; [| now exists []; rewrite Hu, app_nil_r].
    unfold cache_ok. rewrite Hu. destruct Hdb as [-> | ->]; [tauto |].
    intros (Hn & Hb & Hk). repeat split; auto using keys_fresh_skip.
    + eapply Forall_impl; [| exact Hb]. simpl. intros; lia.
    + now apply keys_fresh_skip.
    + now apply keys_fresh_skip.
Qed.

Lemma keeps_cache_create_and_append : respects keeps_cache create_and_append.
Proof. intro w. exact (proj1 (proj2 (create_and_append_outcome w))). Qed.

(** ** Loading and bootstrapping *)

Lemma get_user_ids_eq w :
  get_user_ids w
  = (Ok (loaded_ids w),
     mkWorld (db w) (user_ids w) (rng w) (fake w) (tl (faults w))
             (db_random w)
             ((SelectUserIds 100, negb (hd false (faults w))) :: trace w)
             (history w)).
Proof.
  unfold get_user_ids, try_except, bind, execute_query, loaded_ids.
  now destruct (hd false (faults w)).
Qed.

Lemma for_range_create_returns n w :
  fst (for_range n create_and_append w) = Ok tt.
Proof.
  revert w. induction n as [| n IH]; intro w; simpl; [reflexivity |].
  unfold bind. pose proof (create_and_append_outcome w) as [Hr _].
  destruct (create_and_append w) as [[[] | e] w1]; simpl in *;
    [apply IH | discriminate].
Qed.

(** [load_or_create_users] never raises: it reloads the cache, and
    bootstraps twenty users when the reload came back empty. *)
Lemma load_or_create_users_eq w :
  load_or_create_users w
  = (Ok tt,
     match loaded_ids w with
     | _ :: _ => after_load w
     | [] => snd (for_range 20 create_and_append (after_load w))
     end).
Proof.
  unfold load_or_create_users, try_except, bind.
  rewrite get_user_ids_eq. unfold set_user_ids.
  cbn [db user_ids rng fake faults db_random trace history].
  fold (after_load w).
  destruct (loaded_ids w) as [| u l] eqn:E; [| reflexivity].
  pose proof (for_range_create_returns 20 (after_load w)) as Hr.
  destruct (for_range 20 create_and_append (after_load w)) as [[[] | e] w1];
    simpl in *; [reflexivity | discriminate].
Qed.

Lemma firstn_NoDup {A} n (l : list A) : NoDup l -> NoDup (firstn n l).
Proof.
  intro H. rewrite <- (firstn_skipn n l) in H.
  now apply NoDup_app_remove_r in H.
Qed.

Lemma firstn_Forall {A} (P : A -> Prop) n (l : list A) :
  Forall P l -> Forall P (firstn n l).
Proof.
  intro H. rewrite <- (firstn_skipn n l) in H.
  now apply Forall_app in H.
Qed.

(** After the reload the cache is sound, whatever it held before. *)
Lemma cache_ok_after_load w : keys_fresh (db w) -> cache_ok (after_load w).
Proof.
  intros [Hb Hn]. unfold cache_ok, after_load, loaded_ids.
  cbn [db user_ids]. destruct (hd false (faults w)).
  - repeat split; auto; constructor.
  - repeat split; auto.
    + now apply firstn_NoDup.
    + apply firstn_Forall. now rewrite Forall_map.
Qed.

Lemma cache_ok_for_range n w :
  cache_ok w -> cache_ok (snd (for_range n create_and_append w)).
Proof.
  intro Hc.
  exact (respects_for_range n _ keeps_cache_create_and_append w Hc).
Qed.

Lemma cache_ok_load_or_create_users w :
  keys_fresh (db w) -> cache_ok (snd (load_or_create_users w)).
Proof.
  intro Hk. rewrite load_or_create_users_eq. cbn [snd].
  pose proof (cache_ok_after_load w Hk) as Hc.
  destruct (loaded_ids w); [| exact Hc].
  now apply cache_ok_for_range.
Qed.

Lemma keeps_cache_load_or_create_users :
  respects keeps_cache load_or_create_users.
Proof. intros w (_ & _ & Hk). now apply cache_ok_load_or_create_users. Qed.

#[export] Hint Resolve keeps_cache_execute_query keeps_cache_enter
  keeps_cache_create_and_append keeps_cache_load_or_create_users : respects.

Lemma keeps_cache_generate_tweet_data :
  respects keeps_cache generate_tweet_data.
Proof. unfold generate_tweet_data, get_random_tweet_id. respects_prog. Qed.

Lemma keeps_cache_generate_follow_data :
  respects keeps_cache generate_follow_data.
Proof. unfold generate_follow_data. respects_prog. Qed.

#[export] Hint Resolve keeps_cache_generate_tweet_data
  keeps_cache_generate_follow_data : respects.

Lemma keeps_cache_insert_random_data :
  respects keeps_cache insert_random_data.
Proof.
  unfold insert_random_data, insert_tweet, insert_follow,
    insert_follow_with, check_follow_exists.
  respects_prog.
Qed.

(** ** C10: the cache never holds a duplicate *)

(** C10. From a world whose store has handed out its keys from the
    sequence and whose cache holds no duplicate, the cache holds no
    duplicate after hydration or bootstrap ([load_or_create_users]),
    after tweet or follow generation with its opportunistic user
    creation, and after any number of cycles. *)
Theorem user_ids_never_duplicated (w : world) :
  cache_ok w ->
  NoDup (user_ids (snd (load_or_create_users w)))
  /\ NoDup (user_ids (snd (generate_tweet_data w)))
  /\ NoDup (user_ids (snd (generate_follow_data w)))
  /\ forall n, NoDup (user_ids (run_cycles n w)).
Proof.
  intro Hc. repeat split.
  - apply (keeps_cache_load_or_create_users w Hc).
  - apply (keeps_cache_generate_tweet_data w Hc).
  - apply (keeps_cache_generate_follow_data w Hc).
  - intro n.
    apply (respects_run_cycles n keeps_cache_insert_random_data w Hc).
Qed.

(** ** Sampling two positions *)

Lemma remove_nth_length {A} (l : list A) i :
  (i < List.length l)%nat ->
  S (List.length (remove_nth i l)) = List.length l.
Proof.
  revert i. induction l as [| x l IH]; intros i Hi; simpl in *; [lia |].
  destruct i as [| i]; [reflexivity |]. simpl. rewrite IH; lia.
Qed.

Lemma remove_nth_In {A} (l : list A) i x :
  In x (remove_nth i l) -> In x l.
Proof.
  revert i. induction l as [| y l IH]; intros [| i] Hx; simpl in *;
    try contradiction.
  - now right.
  - destruct Hx as [Hx | Hx]; [now left | right; eauto].
Qed.

Lemma remove_nth_not_In {A} (l : list A) i d :
  NoDup l -> (i < List.length l)%nat -> ~ In (nth i l d) (remove_nth i l).
Proof.
  intro Hn. revert i. induction Hn as [| x l Hx Hn IH]; intros i Hi; simpl in *.
  - lia.
  - destruct i as [| i]; [exact Hx |].
    simpl. intros [H | H].
    + apply Hx. rewrite H. apply nth_In. lia.
    + apply (IH i); [lia | exact H].
Qed.

(** [random.sample(l, 2)] on at least two ids: two draws, two different
    positions of [l]. *)
Lemma sample_two (l : list Z) w :
  (2 <= List.length l)%nat ->
  exists i j,
    (i < List.length l)%nat
    /\ (j < List.length (remove_nth i l))%nat
    /\ sample l 2 w
       = (Ok [nth i l 0; nth j (remove_nth i l) 0], snd (draw (snd (draw w)))).
Proof.
  intro Hl. unfold sample.
  assert (E : (List.length l <? 2)%nat = false) by (apply Nat.ltb_ge; lia).
  rewrite E.
  exists (N.to_nat (hd 0%N (rng w)) mod List.length l)%nat.
  assert (Hi : (N.to_nat (hd 0%N (rng w)) mod List.length l
                < List.length l)%nat) by (apply Nat.mod_upper_bound; lia).
  pose proof (remove_nth_length l _ Hi) as Hr.
  exists (N.to_nat (hd 0%N (tl (rng w)))
          mod List.length
                (remove_nth (N.to_nat (hd 0%N (rng w)) mod List.length l) l))%nat.
  split; [exact Hi |]. split; [apply Nat.mod_upper_bound; lia |].
  reflexivity.
Qed.

Lemma sample_two_distinct (l : list Z) i j :
  NoDup l -> (i < List.length l)%nat ->
  (j < List.length (remove_nth i l))%nat ->
  nth i l 0 <> nth j (remove_nth i l) 0
  /\ In (nth i l 0) l /\ In (nth j (remove_nth i l) 0) l.
Proof.
  intros Hn Hi Hj. repeat split.
  - intro E. apply (remove_nth_not_In l i 0 Hn Hi). rewrite E.
    now apply nth_In.
  - now apply nth_In.
  - apply (remove_nth_In l i). now apply nth_In.
Qed.

(** ** C5: a generated pair never follows itself *)

Lemma random_below_eq p w :
  random_below p w = (Ok (N.ltb (hd 0%N (rng w) mod 1000) p), snd (draw w)).
Proof. reflexivity. Qed.

(** With two ids or more in the cache there is no reload: one draw
    decides on a new user, then two positions are sampled. *)
Lemma generate_follow_data_eq w :
  (2 <= List.length (user_ids w))%nat ->
  let w1 := snd (draw w) in
  let w2 := if N.ltb (hd 0%N (rng w) mod 1000) 50
            then snd (create_and_append w1) else w1 in
  generate_follow_data w
  = match sample (user_ids w2) 2 w2 with
    | (Ok [f; g], w3) => (Ok (mkFollowData f g), w3)
    | (Ok _, w3) => (Raise ValueError, w3)
    | (Raise e, w3) => (Raise e, w3)
    end.
Proof.
  intros Hl w1 w2. unfold generate_follow_data.
  unfold bind at 1. unfold get_user_ids_cache at 1.
  assert (E : (List.length (user_ids w) <? 2)%nat = false)
    by (apply Nat.ltb_ge; lia).
  rewrite E. unfold bind at 1. unfold ret at 1.
  unfold bind at 1. rewrite random_below_eq. fold w1.
  unfold bind at 1.
  assert (Hw2 : (if N.ltb (hd 0%N (rng w) mod 1000) 50
                 then create_and_append else ret tt) w1 = (Ok tt, w2)).
  { subst w2. destruct (N.ltb _ _); [| reflexivity].
    pose proof (create_and_append_outcome w1) as [Hr _].
    destruct (create_and_append w1) as [[[] | e] w']; simpl in *;
      [reflexivity | discriminate]. }
  rewrite Hw2. unfold bind at 1. unfold get_user_ids_cache.
  unfold bind.
  destruct (sample (user_ids w2) 2 w2) as [[picked | e] w3]; [| reflexivity].
  destruct picked as [| f [| g [| h t]]]; reflexivity.
Qed.

(** C5. In a state whose cache holds at least two ids (and, as in every
    reachable state, no duplicate), [generate_follow_data] returns a
    pair whose two ids differ, both taken from the known ids; the second
    is taken from the ids left after removing the position of the first
    (sampling without replacement). *)
Theorem generated_follow_is_not_self (w : world) :
  cache_ok w -> (2 <= List.length (user_ids w))%nat ->
  exists fd w' i j,
    generate_follow_data w = (Ok fd, w')
    /\ fd_follower_id fd <> fd_following_id fd
    /\ fd_follower_id fd = nth i (user_ids w') 0
    /\ fd_following_id fd = nth j (remove_nth i (user_ids w')) 0
    /\ In (fd_follower_id fd) (user_ids w')
    /\ In (fd_following_id fd) (user_ids w').
Proof.
  intros Hc Hl. rewrite (generate_follow_data_eq w Hl). cbv zeta.
  set (w1 := snd (draw w)).
  set (w2 := if N.ltb (hd 0%N (rng w) mod 1000) 50
             then snd (create_and_append w1) else w1).
  assert (Hc2 : cache_ok w2 /\ (2 <= List.length (user_ids w2))%nat).
  { subst w2. destruct (N.ltb _ _); [| split; assumption].
    destruct (create_and_append_outcome w1) as (_ & Hk & extra & He).
    split; [exact (Hk Hc) |]. rewrite He, length_app.
    change (user_ids w1) with (user_ids w). lia. }
  destruct Hc2 as [(Hn & _) Hl2].
  destruct (sample_two (user_ids w2) w2 Hl2) as (i & j & Hi & Hj & Hs).
  rewrite Hs.
  destruct (sample_two_distinct _ i j Hn Hi Hj) as (Hd & H1 & H2).
  eexists _, _, i, j. split; [reflexivity |]. simpl. auto.
Qed.

(** ** C7: the bootstrap batch *)

Lemma names_unique_add_user r d :
  names_unique d -> name_taken r d = false -> names_unique (add_user r d).
Proof.
  intros [Hu He] Ht. unfold name_taken in Ht.
  assert (Hno : forall r', In r' (users d) ->
                           username r' <> username r /\ email r' <> email r).
  { intros r' Hin. split; intro E.
    - assert (existsb (fun r' => String.eqb (username r') (username r)
                                 || String.eqb (email r') (email r))
                      (users d) = true); [| congruence].
      apply existsb_exists. exists r'. split; [exact Hin |].
      rewrite E, String.eqb_refl. reflexivity.
    - assert (existsb (fun r' => String.eqb (username r') (username r)
                                 || String.eqb (email r') (email r))
                      (users d) = true); [| congruence].
      apply existsb_exists. exists r'. split; [exact Hin |].
      rewrite E, String.eqb_refl. apply orb_true_r. }
  split; simpl; rewrite map_app; simpl; apply NoDup_snoc; auto.
  - intro Hin. apply in_map_iff in Hin. destruct Hin as (r' & E & Hin).
    destruct (Hno r' Hin) as [H1 _]. exact (H1 E).
  - intro Hin. apply in_map_iff in Hin. destruct Hin as (r' & E & Hin).
    destruct (Hno r' Hin) as [_ H2]. exact (H2 E).
Qed.

(** One round of the bootstrap loop: one user insert is sent; the row is
    stored and its key cached exactly when the insert succeeds. *)
Lemma create_and_append_step w :
  1 <= next_user_id (db w) -> names_unique (db w) ->
  let w' := snd (create_and_append w) in
  1 <= next_user_id (db w')
  /\ names_unique (db w')
  /\ history w' = history w
  /\ exists e added,
      is_user_insert e = true
      /\ trace w' = e :: trace w
      /\ users (db w') = users (db w) ++ added
      /\ List.length added = (if snd e then 1 else 0)%nat
      /\ user_ids w' = user_ids w ++ map user_id added.
Proof.
  intros Hn Hu. unfold create_and_append, bind.
  pose proof (create_user_outcome w) as Ho.
  destruct (create_user w) as [r w1]. simpl in Ho.
  inversion Ho as [row w' e Hid Hfc Hfg Hnt Hdb Hui Hh Hi Hs Ht
                  | w' e Hdb Hui Hh Hi Hs Ht]; subst.
  - assert (Hz : negb (user_id row =? 0) = true).
    { apply negb_true_iff, Z.eqb_neq. lia. }
    cbn [truthy]. rewrite Hz. cbn [snd append_user_id db user_ids trace history].
    rewrite Hdb. repeat split; simpl; try lia; try assumption.
    + now apply names_unique_add_user.
    + now apply names_unique_add_user.
    + exists e, [row]. rewrite Hs, Hui. auto.
  - cbn [snd ret].
    assert (Hus : users (db w1) = users (db w))
      by (destruct Hdb as [-> | ->]; reflexivity).
    assert (Hnx : next_user_id (db w) <= next_user_id (db w1))
      by (destruct Hdb as [-> | ->]; simpl; lia).
    unfold names_unique. rewrite Hus.
    repeat split; try assumption; try apply Hu; try lia.
    exists e, []. rewrite Hs, Hui, !app_nil_r. auto.
Qed.

Lemma bootstrap_loop n : forall w,
  1 <= next_user_id (db w) -> names_unique (db w) ->
  let w' := snd (for_range n create_and_append w) in
  names_unique (db w')
  /\ history w' = history w
  /\ exists new added,
      List.length new = n
      /\ forallb is_user_insert new = true
      /\ trace w' = new ++ trace w
      /\ users (db w') = users (db w) ++ added
      /\ List.length added = successes new
      /\ user_ids w' = user_ids w ++ map user_id added.
Proof.
  induction n as [| n IH]; intros w Hn Hu.
  - simpl. repeat split; try apply Hu.
    exists [], []. simpl. now rewrite !app_nil_r.
  - cbn [for_range]. unfold bind.
    pose proof (create_and_append_outcome w) as [Hr _].
    destruct (create_and_append_step w Hn Hu)
      as (Hn1 & Hu1 & Hh1 & e & a1 & Hi & Ht & Hus & Hl & Hc).
    destruct (create_and_append w) as [[[] | ex] w1]; simpl in Hr;
      [| discriminate].
    cbn [snd] in *.
    destruct (IH w1 Hn1 Hu1) as (Hu2 & Hh2 & new & a2 & Hl2 & Hf2 & Ht2 & Hus2 & Hs2 & Hc2).
    split; [exact Hu2 |]. split; [congruence |].
    exists (new ++ [e]), (a1 ++ a2). repeat split.
    + rewrite length_app. simpl. lia.
    + rewrite forallb_app, Hf2. simpl. now rewrite Hi.
    + rewrite Ht2, Ht, <- app_assoc. reflexivity.
    + rewrite Hus2, Hus, <- app_assoc. reflexivity.
    + unfold successes in *. rewrite filter_app, !length_app, Hs2, Hl.
      simpl. destruct (snd e); simpl; lia.
    + rewrite Hc2, Hc, map_app, <- app_assoc. reflexivity.
Qed.

Lemma successes_le (tr : list (stmt * bool)) :
  (successes tr <= List.length tr)%nat.
Proof. unfold successes. apply filter_length_le. Qed.

(** C7, amended. With no user in the store, [load_or_create_users] sends
    exactly twenty user inserts after the id query; the rows stored are
    the inserts that succeeded (twenty at most, twenty when none
    failed), their keys are the new cache, and usernames and emails are
    pairwise distinct. With users in the store and the id query
    answered, no insert is sent and the store is left as it was. *)
Theorem bootstrap_sends_twenty_inserts (w : world) :
  1 <= next_user_id (db w) ->
  let w' := snd (load_or_create_users w) in
  fst (load_or_create_users w) = Ok tt
  /\ (users (db w) = [] ->
      exists new ok,
        trace w' = new ++ (SelectUserIds 100, ok) :: trace w
        /\ List.length new = 20%nat
        /\ forallb is_user_insert new = true
        /\ List.length (users (db w')) = successes new
        /\ (List.length (users (db w')) <= 20)%nat
        /\ (forallb snd new = true -> List.length (users (db w')) = 20%nat)
        /\ user_ids w' = map user_id (users (db w'))
        /\ names_unique (db w'))
  /\ (users (db w) <> [] -> hd false (faults w) = false ->
      db w' = db w
      /\ trace w' = (SelectUserIds 100, true) :: trace w
      /\ user_ids w' = firstn 100 (map user_id (users (db w)))).
Proof.
  intros Hn w'. subst w'. rewrite load_or_create_users_eq. cbn [fst snd].
  split; [reflexivity |]. split.
  - intro He.
    assert (Hl : loaded_ids w = []).
    { unfold loaded_ids. rewrite He. now destruct (hd false (faults w)). }
    rewrite Hl.
    assert (Hu : names_unique (db (after_load w))).
    { unfold names_unique, after_load. cbn [db]. rewrite He.
      split; constructor. }
    destruct (bootstrap_loop 20 (after_load w) Hn Hu)
      as (Hu' & _ & new & added & Hlen & Hall & Ht & Hus & Hs & Hc).
    set (wb := snd (for_range 20 create_and_append (after_load w))) in *.
    change (db (after_load w)) with (db w) in Hus.
    change (user_ids (after_load w)) with (loaded_ids w) in Hc.
    change (trace (after_load w))
      with ((SelectUserIds 100, negb (hd false (faults w))) :: trace w) in Ht.
    rewrite He in Hus. rewrite Hl in Hc. cbn [app] in Hus, Hc.
    exists new, (negb (hd false (faults w))).
    rewrite Hus, Hc. repeat split; auto.
    + pose proof (successes_le new). lia.
    + intro Hok. rewrite Hs. unfold successes.
      rewrite <- Hlen. f_equal. clear -Hok.
      induction new as [| e new IH]; simpl in *; [reflexivity |].
      apply andb_prop in Hok. destruct Hok as [H1 H2].
      rewrite H1. f_equal. now apply IH.
    + apply Hu'.
    + apply Hu'.
  - intros Hne Hf. unfold after_load, loaded_ids. rewrite Hf.
    destruct (users (db w)) as [| r l] eqn:E; [contradiction |].
    cbn [map firstn Z.to_nat]. simpl. auto.
Qed.

(** ** The shape of one cycle *)

Lemma extends_same P w w' :
  trace w' = trace w -> history w' = history w -> extends P w w'.
Proof. intros Ht Hh. split; [exact Hh |]. now exists []. Qed.

#[export] Instance extends_frame P : Frame (extends P).
Proof.
  split.
  - intro w. now apply extends_same.
  - intros a b c (H1 & n1 & E1 & G1) (H2 & n2 & E2 & G2).
    split; [congruence |]. exists (n2 ++ n1). split.
    + now rewrite E2, E1, app_assoc.
    + now rewrite forallb_app, G1, G2.
  - intro w. now apply extends_same.
  - intro w. now apply extends_same.
Qed.

Lemma extends_execute_query P q :
  P (q, true) = true -> P (q, false) = true ->
  respects (extends P) (execute_query q).
Proof.
  intros Ht Hf w. unfold execute_query.
  destruct (hd false (faults w)); simpl.
  - split; [reflexivity |]. exists [(q, false)]. simpl. now rewrite Hf.
  - split; [reflexivity |]. eexists [_]. split; [reflexivity |]. simpl.
    destruct (succeeded _); now rewrite ?Ht, ?Hf.
Qed.

Lemma execute_query_frame q w :
  history (snd (execute_query q w)) = history w
  /\ exists ok, trace (snd (execute_query q w)) = (q, ok) :: trace w.
Proof.
  unfold execute_query. destruct (hd false (faults w)); simpl; eauto.
Qed.

Lemma filter_none {A} (p q : A -> bool) (l : list A) :
  forallb p l = true -> (forall x, p x = true -> q x = false) ->
  filter q l = [].
Proof.
  intros Hp Hpq. induction l as [| x l IH]; simpl in *; [reflexivity |].
  apply andb_prop in Hp. destruct Hp as [Hx Hl].
  rewrite (Hpq x Hx). now apply IH.
Qed.

Lemma generation_no_tweet_insert e :
  is_generation_stmt e = true -> is_tweet_insert e = false.
Proof. destruct e as [[] b]; cbv; congruence. Qed.

Lemma generation_no_follow_insert e :
  is_generation_stmt e = true -> is_follow_insert e = false.
Proof. destruct e as [[] b]; cbv; congruence. Qed.

Lemma counter_no_tweet_insert e :
  is_counter_update e = true -> is_tweet_insert e = false.
Proof. destruct e as [[] b]; cbv; congruence. Qed.

Lemma counter_no_follow_insert e :
  is_counter_update e = true -> is_follow_insert e = false.
Proof. destruct e as [[] b]; cbv; congruence. Qed.

(** A tweet cycle: generation, then at most the one tweet insert. *)
Lemma insert_tweet_shape w :
  let w' := snd (insert_tweet w) in
  history w' = TweetEvent :: history w
  /\ exists new,
      trace w' = new ++ trace w
      /\ (List.length (filter is_tweet_insert new) <= 1)%nat
      /\ filter is_follow_insert new = [].
Proof.
  unfold insert_tweet, bind, try_except. cbn [enter].
  set (w0 := mkWorld _ _ _ _ _ _ _ _).
  destruct (generates_generate_tweet_data w0) as (Hh & _ & _ & newg & Ht & Hg).
  destruct (generate_tweet_data w0) as [[td | e] wg]; cbn [snd] in *.
  - match goal with
    | |- context [execute_query ?q wg] =>
        destruct (execute_query_frame q wg) as (Hh' & ok & Ht');
        destruct (execute_query q wg) as [[r | e] w1]
    end; cbn [snd ret] in *.
    all: split; [now rewrite Hh', Hh |].
    all: eexists (_ :: newg); split; [now rewrite Ht', Ht |].
    all: simpl.
    all: rewrite (filter_none _ _ newg Hg generation_no_tweet_insert).
    all: rewrite (filter_none _ _ newg Hg generation_no_follow_insert).
    all: split; [simpl; lia | reflexivity].
  - split; [exact Hh |]. exists newg. split; [exact Ht |].
    rewrite (filter_none _ _ newg Hg generation_no_tweet_insert).
    rewrite (filter_none _ _ newg Hg generation_no_follow_insert).
    split; [simpl; lia | reflexivity].
Qed.

Lemma bind_eq {A B} (m : M A) (k : A -> M B) w :
  bind m k w
  = match m w with
    | (Ok a, w') => k a w'
    | (Raise e, w') => (Raise e, w')
    end.
Proof. reflexivity. Qed.

(** After generation, the follow path sends the existence query, then at
    most one follow insert, then counter updates only. *)
Lemma insert_follow_with_shape fd w :
  let w' := snd (insert_follow_with fd w) in
  history w' = history w
  /\ exists new,
      trace w' = new ++ trace w
      /\ filter is_tweet_insert new = []
      /\ (List.length (filter is_follow_insert new) <= 1)%nat.
Proof.
  cbv zeta. unfold insert_follow_with.
  rewrite bind_eq, check_follow_exists_eq.
  destruct (_ || _)%bool.
  - cbn [snd ret after_check trace history]. split; [reflexivity |].
    eexists [_]. split; [reflexivity |]. cbn. split; [reflexivity | lia].
  - set (wc := after_check _ _ w). rewrite bind_eq.
    match goal with
    | |- context [execute_query ?q wc] =>
        destruct (execute_query_frame q wc) as (Hh & ok & Ht);
        destruct (execute_query q wc) as [[r | e] w1]
    end; cbn [snd] in *.
    + match goal with
      | |- context [snd (?m w1)] =>
          assert (Hup : extends is_counter_update w1 (snd (m w1)))
      end.
      { match goal with
        | |- extends _ _ (snd (?m w1)) =>
            assert (Hr : respects (extends is_counter_update) m)
        end.
        { destruct (truthy _);
            repeat first [ apply extends_execute_query; reflexivity
                         | respects_step ]. }
        apply Hr. }
      destruct Hup as (Hh2 & newu & Ht2 & Hu).
      split; [now rewrite Hh2, Hh |].
      exists (newu ++ [(InsertFollow (fd_follower_id fd) (fd_following_id fd), ok);
                      (SelectFollow (fd_follower_id fd) (fd_following_id fd),
                       negb (hd false (faults w)))]).
      split; [rewrite Ht2, Ht, <- app_assoc; reflexivity |].
      rewrite !filter_app.
      rewrite (filter_none _ _ newu Hu counter_no_tweet_insert).
      rewrite (filter_none _ _ newu Hu counter_no_follow_insert).
      cbn. split; [reflexivity | lia].
    + split; [exact Hh |].
      eexists [_; _]. split; [rewrite Ht; reflexivity |].
      cbn. split; [reflexivity | lia].
Qed.

(** A follow cycle: generation, then the follow path. *)
Lemma insert_follow_shape w :
  let w' := snd (insert_follow w) in
  history w' = FollowEvent :: history w
  /\ exists new,
      trace w' = new ++ trace w
      /\ filter is_tweet_insert new = []
      /\ (List.length (filter is_follow_insert new) <= 1)%nat.
Proof.
  cbv zeta. rewrite insert_follow_unfold. cbn [enter snd].
  set (w0 := mkWorld _ _ _ _ _ _ _ _).
  destruct (generates_generate_follow_data w0) as (Hh & _ & _ & newg & Ht & Hg).
  destruct (generate_follow_data w0) as [[fd | e] wg]; cbn [snd] in *.
  - destruct (insert_follow_with_shape fd wg) as (Hh2 & newf & Ht2 & Hn & Hc).
    assert (Hsnd : snd (match insert_follow_with fd wg with
                        | (Ok a, w') => (Ok a, w')
                        | (Raise _, w') => (Ok tt, w')
                        end) = snd (insert_follow_with fd wg))
      by now destruct (insert_follow_with fd wg) as [[a | e] w'].
    rewrite Hsnd. split; [now rewrite Hh2, Hh |].
    exists (newf ++ newg). split; [now rewrite Ht2, Ht, app_assoc |].
    rewrite !filter_app, Hn.
    rewrite (filter_none _ _ newg Hg generation_no_tweet_insert).
    rewrite (filter_none _ _ newg Hg generation_no_follow_insert).
    rewrite !app_nil_r. split; [reflexivity | exact Hc].
  - split; [exact Hh |]. exists newg. split; [exact Ht |].
    rewrite (filter_none _ _ newg Hg generation_no_tweet_insert).
    rewrite (filter_none _ _ newg Hg generation_no_follow_insert).
    split; [reflexivity | simpl; lia].
Qed.

Lemma insert_random_data_eq w :
  snd (insert_random_data w)
  = if N.ltb (hd 0%N (rng w) mod 1000) 700
    then snd (insert_tweet (snd (draw w)))
    else snd (insert_follow (snd (draw w))).
Proof.
  unfold insert_random_data, try_except, bind. rewrite random_below_eq.
  destruct (N.ltb _ _).
  - now destruct (insert_tweet (snd (draw w))) as [[a | e] w'].
  - now destruct (insert_follow (snd (draw w))) as [[a | e] w'].
Qed.

(** One cycle enters exactly one of [insert_tweet] and [insert_follow],
    the one its first draw selects, and sends at most one tweet or
    follow insert. *)
Lemma cycle_shape w :
  let w' := snd (insert_random_data w) in
  history w' = kind_of_draw (hd 0%N (rng w)) :: history w
  /\ exists new,
      trace w' = new ++ trace w
      /\ (List.length (filter is_tweet_insert new)
          + List.length (filter is_follow_insert new) <= 1)%nat
      /\ match kind_of_draw (hd 0%N (rng w)) with
         | TweetEvent => filter is_follow_insert new = []
         | FollowEvent => filter is_tweet_insert new = []
         end.
Proof.
  cbv zeta. rewrite insert_random_data_eq. unfold kind_of_draw.
  destruct (N.ltb _ _).
  - destruct (insert_tweet_shape (snd (draw w))) as (Hh & new & Ht & Hc & Hn).
    split; [exact Hh |]. exists new. split; [exact Ht |].
    rewrite Hn. simpl. split; [lia | reflexivity].
  - destruct (insert_follow_shape (snd (draw w))) as (Hh & new & Ht & Hn & Hc).
    split; [exact Hh |]. exists new. split; [exact Ht |].
    rewrite Hn. simpl. split; [lia | reflexivity].
Qed.

(** ** C2: what one cycle performs *)

(** C2, amended. A cycle enters exactly one of [insert_tweet] and
    [insert_follow], never both, and sends at most one tweet or follow
    insert: no follow insert in a tweet cycle, no tweet insert in a
    follow cycle. User inserts are not bounded by this: generation may
    create users in the same cycle. *)
Theorem cycle_is_one_tweet_or_follow (w : world) :
  exists k new,
    history (snd (insert_random_data w)) = k :: history w
    /\ trace (snd (insert_random_data w)) = new ++ trace w
    /\ (List.length (filter is_tweet_insert new)
        + List.length (filter is_follow_insert new) <= 1)%nat
    /\ match k with
       | TweetEvent => filter is_follow_insert new = []
       | FollowEvent => filter is_tweet_insert new = []
       end.
Proof.
  destruct (cycle_shape w) as (Hh & new & Ht & Hc & Hk).
  exists (kind_of_draw (hd 0%N (rng w))), new. auto.
Qed.

(** ** C8: event kinds along a run *)

Lemma run_cycles_S n w :
  run_cycles (S n) w = snd (insert_random_data (run_cycles n w)).
Proof.
  revert w. induction n as [| n IH]; intro w; [reflexivity |].
  change (run_cycles (S (S n)) w)
    with (run_cycles (S n) (snd (insert_random_data w))).
  rewrite IH. reflexivity.
Qed.

Lemma history_run_cycles n w :
  history (run_cycles n w)
  = map kind_of_draw (start_draws n w) ++ history w.
Proof.
  induction n as [| n IH]; [reflexivity |].
  rewrite run_cycles_S.
  destruct (cycle_shape (run_cycles n w)) as (Hh & _).
  rewrite Hh, IH. reflexivity.
Qed.

Lemma start_draws_length n w : List.length (start_draws n w) = n.
Proof. induction n as [| n IH]; simpl; [reflexivity | now rewrite IH]. Qed.

Lemma in_step_same {A} (m : M A) :
  (forall w1 w2, same_inputs w1 w2 ->
     fst (m w1) = fst (m w2)
     /\ same_inputs (snd (m w1)) (snd (m w2))
     /\ trace (snd (m w1)) = trace w1 /\ trace (snd (m w2)) = trace w2
     /\ history (snd (m w1)) = history w1
     /\ history (snd (m w2)) = history w2) ->
  in_step m.
Proof.
  intros H w1 w2 Hs. destruct (H w1 w2 Hs) as (Hr & Hi & T1 & T2 & H1 & H2).
  split; [exact Hr |]. split; [exact Hi |]. exists [], []. auto.
Qed.

Lemma in_step_ret {A} (a : A) : in_step (ret a).
Proof. apply in_step_same. intros w1 w2 Hs. cbn. auto 10. Qed.

Lemma in_step_raise {A} (e : exn) : in_step (@raise A e).
Proof. apply in_step_same. intros w1 w2 Hs. cbn. auto 10. Qed.

Lemma in_step_bind {A B} (m : M A) (k : A -> M B) :
  in_step m -> (forall a, in_step (k a)) -> in_step (bind m k).
Proof.
  intros Hm Hk w1 w2 Hs. unfold bind.
  destruct (Hm w1 w2 Hs) as (Hr & Hi & t & h & T1 & T2 & H1 & H2).
  destruct (m w1) as [[a | e] v1], (m w2) as [[a' | e'] v2];
    cbn [fst snd] in *; try discriminate.
  - injection Hr as <-.
    destruct (Hk a v1 v2 Hi) as (Hr' & Hi' & t' & h' & T1' & T2' & H1' & H2').
    split; [exact Hr' |]. split; [exact Hi' |].
    exists (t' ++ t), (h' ++ h).
    rewrite T1', T2', H1', H2', T1, T2, H1, H2, !app_assoc. auto.
  - injection Hr as <-.
    split; [reflexivity |]. split; [exact Hi |]. exists t, h. auto.
Qed.

Lemma in_step_try {A} (m : M A) (h : exn -> M A) :
  in_step m -> (forall e, in_step (h e)) -> in_step (try_except m h).
Proof.
  intros Hm Hh w1 w2 Hs. unfold try_except.
  destruct (Hm w1 w2 Hs) as (Hr & Hi & t & k & T1 & T2 & H1 & H2).
  destruct (m w1) as [[a | e] v1], (m w2) as [[a' | e'] v2];
    cbn [fst snd] in *; try discriminate.
  - split; [exact Hr |]. split; [exact Hi |]. exists t, k. auto.
  - injection Hr as <-.
    destruct (Hh e v1 v2 Hi) as (Hr' & Hi' & t' & k' & T1' & T2' & H1' & H2').
    split; [exact Hr' |]. split; [exact Hi' |].
    exists (t' ++ t), (k' ++ k).
    rewrite T1', T2', H1', H2', T1, T2, H1, H2, !app_assoc. auto.
Qed.

Lemma in_step_for_range (n : nat) (body : M unit) :
  in_step body -> in_step (for_range n body).
Proof.
  intro Hb. induction n as [| n IH]; cbn [for_range].
  - apply in_step_ret.
  - apply in_step_bind; auto.
Qed.

Lemma in_step_list_of_range {A} (n : nat) (m : M A) :
  in_step m -> in_step (list_of_range n m).
Proof.
  intro Hm. induction n as [| n IH]; cbn [list_of_range].
  - apply in_step_ret.
  - apply in_step_bind; [exact Hm | intro x].
    apply in_step_bind; [exact IH | intro xs]. apply in_step_ret.
Qed.

Lemma in_step_cache : in_step get_user_ids_cache.
Proof.
  apply in_step_same. intros w1 w2 Hs. cbn.
  destruct Hs as (Hd & Hu & Hrest). rewrite Hu. repeat split; tauto.
Qed.

Lemma in_step_set_user_ids l : in_step (set_user_ids l).
Proof.
  apply in_step_same. intros w1 w2 (Hd & Hu & Hr & Hf & Hfa & Hdr).
  cbn. repeat split; assumption.
Qed.

Lemma in_step_append_user_id u : in_step (append_user_id u).
Proof.
  apply in_step_same. intros w1 w2 (Hd & Hu & Hr & Hf & Hfa & Hdr).
  cbn. rewrite Hu. repeat split; assumption.
Qed.

Lemma in_step_draw : in_step draw.
Proof.
  apply in_step_same. intros w1 w2 (Hd & Hu & Hr & Hf & Hfa & Hdr).
  cbn. rewrite Hr. repeat split; assumption.
Qed.

Lemma in_step_fake_next : in_step fake_next.
Proof.
  apply in_step_same. intros w1 w2 (Hd & Hu & Hr & Hf & Hfa & Hdr).
  cbn. rewrite Hf. repeat split; assumption.
Qed.

(** The only code that writes a ghost record of event kinds. *)
Lemma in_step_enter k : in_step (enter k).
Proof.
  intros w1 w2 (Hd & Hu & Hr & Hf & Hfa & Hdr). cbn.
  split; [reflexivity |]. split; [repeat split; assumption |].
  exists [], [k]. auto.
Qed.

(** What the storage answers depends on the store, the failure
    schedule and its own random choice, and on nothing else. *)
Lemma in_step_execute_query q : in_step (execute_query q).
Proof.
  intros w1 w2 (Hd & Hu & Hr & Hf & Hfa & Hdr). unfold execute_query.
  rewrite Hd, Hu, Hr, Hf, Hfa, Hdr.
  destruct (hd false (faults w2)); cbn.
  - split; [reflexivity |]. split; [repeat split |].
    exists [(q, false)], []. auto.
  - split; [reflexivity |]. split; [repeat split |].
    eexists [_], []. cbn. auto.
Qed.

Lemma in_step_sample_from k : forall l, in_step (sample_from k l).
Proof.
  induction k as [| k IH]; intro l; cbn [sample_from].
  - apply in_step_ret.
  - apply in_step_bind; [apply in_step_draw | intro x].
    apply in_step_bind; [apply IH | intro; apply in_step_ret].
Qed.

Ltac in_step_prog :=
  repeat match goal with
         | |- in_step (bind _ _) => apply in_step_bind; [| intro]
         | |- in_step (try_except _ _) => apply in_step_try; [| intro]
         | |- in_step (ret _) => apply in_step_ret
         | |- in_step (raise _) => apply in_step_raise
         | |- in_step (for_range _ _) => apply in_step_for_range
         | |- in_step (list_of_range _ _) => apply in_step_list_of_range
         | |- in_step get_user_ids_cache => apply in_step_cache
         | |- in_step (set_user_ids _) => apply in_step_set_user_ids
         | |- in_step (append_user_id _) => apply in_step_append_user_id
         | |- in_step (enter _) => apply in_step_enter
         | |- in_step draw => apply in_step_draw
         | |- in_step fake_next => apply in_step_fake_next
         | |- in_step (execute_query _) => apply in_step_execute_query
         | |- in_step (sample_from _ _) => apply in_step_sample_from
         | |- in_step (match ?x with _ => _ end) => destruct x
         end.

(** A cycle reads nothing but its inputs. *)
Lemma in_step_insert_random_data : in_step insert_random_data.
Proof.
  unfold insert_random_data, insert_tweet, insert_follow, insert_follow_with,
    generate_tweet_data, generate_follow_data, load_or_create_users,
    create_and_append, create_user, get_user_ids, get_random_tweet_id,
    check_follow_exists, random_below, randint, choice, sample, fake_text,
    fake_user_name, fake_email, fake_name, fake_word.
  in_step_prog.
Qed.

Lemma in_step_run_cycles n : forall w1 w2,
  same_inputs w1 w2 ->
  same_inputs (run_cycles n w1) (run_cycles n w2)
  /\ exists sent kinds,
      trace (run_cycles n w1) = sent ++ trace w1
      /\ trace (run_cycles n w2) = sent ++ trace w2
      /\ history (run_cycles n w1) = kinds ++ history w1
      /\ history (run_cycles n w2) = kinds ++ history w2.
Proof.
  induction n as [| n IH]; intros w1 w2 Hs; cbn [run_cycles].
  - split; [exact Hs |]. exists [], []. auto.
  - destruct (in_step_insert_random_data w1 w2 Hs)
      as (_ & Hi & t & h & T1 & T2 & H1 & H2).
    destruct (IH _ _ Hi) as (Hi' & t' & h' & T1' & T2' & H1' & H2').
    split; [exact Hi' |]. exists (t' ++ t), (h' ++ h).
    rewrite T1', T2', H1', H2', T1, T2, H1, H2, !app_assoc. auto.
Qed.

(** C8, amended. The kind of a cycle is decided by the draw of
    [random.random()] at its start, and what the run draws there is
    decided by the inputs of the run, not by the stream of the [random]
    module alone: two runs that start from the same store and cache and
    are given the same [random] stream, the same [Faker] values, the
    same storage failures and the same choices of the store's
    [RANDOM()] enter the same [n] kinds in the same order, send the same
    statements and leave the same store, cache and streams behind.
    (Nothing in the code seeds either generator.) *)
Theorem same_inputs_same_kinds (n : nat) (w1 w2 : world) :
  same_inputs w1 w2 ->
  same_inputs (run_cycles n w1) (run_cycles n w2)
  /\ (exists sent,
        trace (run_cycles n w1) = sent ++ trace w1
        /\ trace (run_cycles n w2) = sent ++ trace w2)
  /\ exists kinds,
      List.length kinds = n
      /\ kinds = map kind_of_draw (start_draws n w1)
      /\ history (run_cycles n w1) = kinds ++ history w1
      /\ history (run_cycles n w2) = kinds ++ history w2.
Proof.
  intro Hs.
  destruct (in_step_run_cycles n w1 w2 Hs) as (Hi & t & h & T1 & T2 & H1 & H2).
  split; [exact Hi |]. split; [exists t; auto |].
  exists (map kind_of_draw (start_draws n w1)).
  split; [now rewrite length_map, start_draws_length |].
  split; [reflexivity |]. split; [apply history_run_cycles |].
  pose proof (history_run_cycles n w1) as Hk. rewrite H1 in Hk.
  apply app_inv_tail in Hk. rewrite H2, Hk. reflexivity.
Qed.

(** ** C9: the scheduler never overlaps cycles *)

Section Guard.
Import Scheduler.
Variable insert_interval : Z.
Let j := setup_scheduler insert_interval.

Lemma step_keeps_single s e :
  (in_flight s <= 1)%nat -> (in_flight (step j s e) <= 1)%nat.
Proof.
  intro H. destruct e; simpl.
  - destruct (in_flight s <? 1)%nat eqn:E; simpl; [| exact H].
    apply Nat.ltb_lt in E. lia.
  - lia.
Qed.

Lemma run_keeps_single es : forall s,
  (in_flight s <= 1)%nat -> (in_flight (run j es s) <= 1)%nat.
Proof.
  induction es as [| e es IH]; intros s H; simpl; [exact H |].
  apply IH. now apply step_keeps_single.
Qed.

Lemma tick_while_running s :
  slot_of s = Running -> (in_flight s <= 1)%nat ->
  step j s Tick = mkState (in_flight s) (started s) (S (dropped s)).
Proof.
  unfold slot_of. intros Hr H. simpl.
  destruct (in_flight s) as [| k]; [discriminate |].
  assert (k = O) by lia. subst k. reflexivity.
Qed.
End Guard.

(** C9. With the job as [setup_scheduler] registers it, after any
    sequence of ticks and completions at most one cycle is in flight; a
    tick that finds the slot Running starts nothing (it is dropped), and
    a tick that finds it Idle starts exactly one cycle. *)
Theorem scheduler_never_overlaps (insert_interval : Z)
        (es : list Scheduler.event) :
  let j := Scheduler.setup_scheduler insert_interval in
  let s := Scheduler.run j es Scheduler.initial in
  (Scheduler.in_flight s <= 1)%nat
  /\ match Scheduler.slot_of s with
     | Scheduler.Running =>
         Scheduler.step j s Scheduler.Tick
         = Scheduler.mkState (Scheduler.in_flight s) (Scheduler.started s)
                             (S (Scheduler.dropped s))
     | Scheduler.Idle =>
         Scheduler.step j s Scheduler.Tick
         = Scheduler.mkState 1 (S (Scheduler.started s))
                             (Scheduler.dropped s)
     end.
Proof.
  intros j s.
  assert (H : (Scheduler.in_flight s <= 1)%nat)
    by (apply run_keeps_single; simpl; lia).
  split; [exact H |].
  destruct (Scheduler.slot_of s) eqn:E.
  - unfold Scheduler.slot_of in E. simpl.
    destruct (Scheduler.in_flight s); [reflexivity | discriminate].
  - now apply tick_while_running.
Qed.

(** * Concrete runs *)

Section Concrete.
Import Worlds.

Ltac concrete :=
  repeat first
    [ progress (unfold cache_ok, keys_fresh, follows_refer, pairs_unique,
                count_pair; simpl)
    | split
    | constructor
    | lia
    | solve [intuition lia]
    | intros ].

(** C1 as stated fails: user 2 is created with seed 7 and receives
    exactly one follow insertion, counter update included; its stored
    [followers_count] is 8, not 1. And when the storage fails at that
    update, after the Follow row has been stored, the counter stays at
    the seed: 7 with one row, which is not the seed plus one either. *)
Lemma followers_count_differs_from_insertions :
  let w1 := snd (create_user seeded) in
  let w2 := run_cycles 1 w1 in
  let v1 := snd (create_user seeded_update_fails) in
  let v2 := run_cycles 1 v1 in
  (fst (create_user seeded) = Ok (Some 2)
   /\ trace w2 = [(IncFollowers 2, true); (IncFollowing 1, true);
                  (InsertFollow 1 2, true); (SelectFollow 1 2, true);
                  (SelectUserIds 100, true)] ++ trace w1
   /\ rows_to 2 (db w2) = 1%nat
   /\ followers_of 2 (db w2) = Some 8
   /\ followers_of 2 (db w2) <> Some (Z.of_nat (rows_to 2 (db w2))))
  /\ (fst (create_user seeded_update_fails) = Ok (Some 2)
      /\ followers_of 2 (db v1) = Some 7
      /\ trace v2 = [(IncFollowers 2, false); (IncFollowing 1, true);
                     (InsertFollow 1 2, true); (SelectFollow 1 2, true);
                     (SelectUserIds 100, true)] ++ trace v1
      /\ rows_to 2 (db v2) = 1%nat
      /\ followers_of 2 (db v2) = Some 7).
Proof.
  cbv zeta. repeat split; try (vm_compute; reflexivity).
  vm_compute. discriminate.
Qed.

(** C2 as stated fails: one cycle creates a user and inserts a tweet. *)
Lemma cycle_creates_user_and_tweet :
  let w' := snd (insert_random_data tweet_with_new_user) in
  trace w'
  = [(InsertTweet 2 "hello" [] [] 5 5 None, true);
     (InsertUser "bob" "bob@example.org" "Bob" "bio" 7 3, true)]
  /\ List.length (users (db w'))
     = S (List.length (users (db tweet_with_new_user)))
  /\ List.length (tweets (db w'))
     = S (List.length (tweets (db tweet_with_new_user))).
Proof. cbv zeta. repeat split; vm_compute; reflexivity. Qed.

Lemma second_insert_follow_is_noop_witness :
  let fd := mkFollowData 1 2 in
  let w1 := snd (insert_follow follow_twice) in
  let wg := snd (generate_follow_data (snd (enter FollowEvent w1))) in
  let w2 := snd (insert_follow w1) in
  (pairs_unique (db follow_twice)
   /\ existsb (is_pair (fd_follower_id fd) (fd_following_id fd))
              (follows (db w1)) = true
   /\ generate_follow_data (snd (enter FollowEvent w1)) = (Ok fd, wg))
  /\ fst (insert_follow w1) = Ok tt
  /\ db w2 = db wg
  /\ count_pair (fd_follower_id fd) (fd_following_id fd) (db w2) = 1%nat
  /\ exists ok,
      trace w2
      = (SelectFollow (fd_follower_id fd) (fd_following_id fd), ok)
          :: trace wg.
Proof.
  intros fd w1 wg w2.
  assert (Hu : pairs_unique (db follow_twice)) by concrete.
  assert (Hp : existsb (is_pair (fd_follower_id fd) (fd_following_id fd))
                       (follows (db w1)) = true)
    by (vm_compute; reflexivity).
  assert (Hg : generate_follow_data (snd (enter FollowEvent w1))
               = (Ok fd, wg))
    by (vm_compute; reflexivity).
  split; [repeat split; assumption |].
  exact (second_insert_follow_is_noop follow_twice wg fd Hu Hp Hg).
Defined.

Lemma failed_check_skips_insert_witness :
  let fd := mkFollowData 1 2 in
  let wg := snd (generate_follow_data (snd (enter FollowEvent check_fails))) in
  (generate_follow_data (snd (enter FollowEvent check_fails)) = (Ok fd, wg)
   /\ fst (execute_query
             (SelectFollow (fd_follower_id fd) (fd_following_id fd)) wg)
      = Raise StorageError)
  /\ fst (check_follow_exists (fd_follower_id fd) (fd_following_id fd) wg)
     = Ok true
  /\ fst (insert_follow check_fails) = Ok tt
  /\ db (snd (insert_follow check_fails)) = db wg
  /\ user_ids (snd (insert_follow check_fails)) = user_ids wg
  /\ trace (snd (insert_follow check_fails))
     = (SelectFollow (fd_follower_id fd) (fd_following_id fd), false)
         :: trace wg.
Proof.
  intros fd wg.
  assert (Hg : generate_follow_data (snd (enter FollowEvent check_fails))
               = (Ok fd, wg))
    by (vm_compute; reflexivity).
  assert (Hq : fst (execute_query
                      (SelectFollow (fd_follower_id fd) (fd_following_id fd))
                      wg)
               = Raise StorageError)
    by (vm_compute; reflexivity).
  split; [split; assumption |].
  exact (failed_check_skips_insert check_fails wg fd StorageError Hg Hq).
Defined.

Lemma generated_follow_is_not_self_witness :
  cache_ok follow_twice
  /\ exists fd w' i j,
      generate_follow_data follow_twice = (Ok fd, w')
      /\ fd_follower_id fd <> fd_following_id fd
      /\ fd_follower_id fd = nth i (user_ids w') 0
      /\ fd_following_id fd = nth j (remove_nth i (user_ids w')) 0
      /\ In (fd_follower_id fd) (user_ids w')
      /\ In (fd_following_id fd) (user_ids w').
Proof.
  assert (Hc : cache_ok follow_twice) by concrete.
  split; [exact Hc |].
  apply (generated_follow_is_not_self follow_twice Hc). simpl. lia.
Defined.

(** C7 as stated fails. The store is empty, Faker repeats one username,
    and the bootstrap leaves nineteen users, not twenty. And with a user
    in the store, an id query that fails makes the reload come back
    empty, so that the twenty inserts are sent all the same. *)
Lemma bootstrap_with_collision_creates_nineteen :
  (users (db bootstrap_collision) = []
   /\ user_ids bootstrap_collision = []
   /\ List.length
        (users (db (snd (load_or_create_users bootstrap_collision))))
      = 19%nat)
  /\ (users (db reload_fails) <> []
      /\ List.length
           (filter is_user_insert
                   (trace (snd (load_or_create_users reload_fails))))
         = 20%nat
      /\ List.length (users (db (snd (load_or_create_users reload_fails))))
         = 21%nat).
Proof.
  repeat split; try (vm_compute; reflexivity).
  vm_compute. discriminate.
Qed.

Lemma bootstrap_sends_twenty_inserts_witness :
  let w' := snd (load_or_create_users bootstrap_clean) in
  1 <= next_user_id (db bootstrap_clean)
  /\ exists new ok,
      trace w' = new ++ (SelectUserIds 100, ok) :: trace bootstrap_clean
      /\ List.length new = 20%nat
      /\ forallb is_user_insert new = true
      /\ List.length (users (db w')) = successes new
      /\ (List.length (users (db w')) <= 20)%nat
      /\ (forallb snd new = true -> List.length (users (db w')) = 20%nat)
      /\ user_ids w' = map user_id (users (db w'))
      /\ names_unique (db w').
Proof.
  cbv zeta.
  assert (Hn : 1 <= next_user_id (db bootstrap_clean)) by (simpl; lia).
  split; [exact Hn |].
  exact (proj1 (proj2 (bootstrap_sends_twenty_inserts bootstrap_clean Hn))
               eq_refl).
Defined.

(** C8 as stated fails: same stream of the [random] module, same store,
    same failure schedule; Faker hands out a taken username in one run
    and a free one in the other, and the second cycle is a tweet in the
    first run and a follow in the second. *)
Lemma same_stream_different_kinds :
  rng run_a = rng run_b
  /\ db run_a = db run_b
  /\ user_ids run_a = user_ids run_b
  /\ faults run_a = faults run_b
  /\ firstn 2 (rev (history (run_cycles 100 run_a)))
     = [FollowEvent; TweetEvent]
  /\ firstn 2 (rev (history (run_cycles 100 run_b)))
     = [FollowEvent; FollowEvent]
  /\ history (run_cycles 100 run_a) <> history (run_cycles 100 run_b).
Proof.
  repeat split; try reflexivity; try (vm_compute; reflexivity).
  vm_compute. discriminate.
Qed.

Lemma same_inputs_same_kinds_witness :
  same_inputs run_b run_b_later
  /\ same_inputs (run_cycles 2 run_b) (run_cycles 2 run_b_later)
  /\ (exists sent,
        trace (run_cycles 2 run_b) = sent ++ trace run_b
        /\ trace (run_cycles 2 run_b_later) = sent ++ trace run_b_later)
  /\ exists kinds,
      List.length kinds = 2%nat
      /\ kinds = map kind_of_draw (start_draws 2 run_b)
      /\ history (run_cycles 2 run_b) = kinds ++ history run_b
      /\ history (run_cycles 2 run_b_later) = kinds ++ history run_b_later.
Proof.
  assert (H : same_inputs run_b run_b_later) by (repeat split).
  split; [exact H |].
  exact (same_inputs_same_kinds 2 run_b run_b_later H).
Defined.

Lemma user_ids_never_duplicated_witness :
  cache_ok seeded
  /\ NoDup (user_ids (snd (load_or_create_users seeded)))
  /\ NoDup (user_ids (snd (generate_tweet_data seeded)))
  /\ NoDup (user_ids (snd (generate_follow_data seeded)))
  /\ forall n, NoDup (user_ids (run_cycles n seeded)).
Proof.
  assert (Hc : cache_ok seeded) by concrete.
  split; [exact Hc |].
  exact (user_ids_never_duplicated seeded Hc).
Defined.

End Concrete.

(** * Further properties of the code *)

(** ** The helpers of DatabaseManager and [create_user] *)

Lemma substring_length n : forall s,
  (String.length (substring 0 n s) <= n)%nat.
Proof.
  induction n as [| n IH]; intros [| c s]; simpl; try lia.
  specialize (IH s). lia.
Qed.

Lemma profile_insert_row w :
  run_stmt (profile_insert w) (db w) (hd O (db_random w))
  = if INT_MAX <? next_user_id (db w) then (Raise DataError, db w)
    else if (50 <? String.length (username (profile_row w)))%nat
            || (100 <? String.length (email (profile_row w)))%nat
            || (100 <? String.length (full_name (profile_row w)))%nat
    then (Raise DataError, db w)
    else if name_taken (profile_row w) (db w)
    then (Raise IntegrityError, skip_user_id (db w))
    else (Ok (OneRow (next_user_id (db w))), add_user (profile_row w) (db w)).
Proof. reflexivity. Qed.

(** X1. [create_user] never raises and never touches the cache. It
    returns an id exactly when the row was stored: the id is the next
    key of the sequence, the row is appended with counters seeded in
    0..1000 and 0..500 and a bio of at most 160 characters, and its
    username and email were free. When it returns [None] no row is
    stored or changed: the store is as before, except that an insert
    rejected for a taken username or email has used up one key of the
    users sequence. *)
Theorem create_user_stores_or_leaves (w : world) :
  user_ids (snd (create_user w)) = user_ids w
  /\ match fst (create_user w) with
     | Ok (Some u) =>
         u = next_user_id (db w)
         /\ db (snd (create_user w)) = add_user (profile_row w) (db w)
         /\ name_taken (profile_row w) (db w) = false
         /\ 0 <= followers_count (profile_row w) <= 1000
         /\ 0 <= following_count (profile_row w) <= 500
         /\ (String.length (bio (profile_row w)) <= 160)%nat
     | Ok None =>
         db (snd (create_user w)) = db w
         \/ (name_taken (profile_row w) (db w) = true
             /\ db (snd (create_user w)) = skip_user_id (db w))
     | Raise _ => False
     end.
Proof.
  rewrite create_user_unfold. unfold execute_query.
  change (faults (after_profile w)) with (faults w).
  change (db (after_profile w)) with (db w).
  change (db_random (after_profile w)) with (db_random w).
  destruct (hd false (faults w)); [simpl; auto |].
  rewrite profile_insert_row.
  destruct (INT_MAX <? next_user_id (db w)); [simpl; auto |].
  destruct (_ || _ || _)%bool; [simpl; auto |].
  destruct (name_taken (profile_row w) (db w)) eqn:E; [simpl; auto |].
  cbn [fst snd first_column db user_ids after_profile].
  repeat split; auto.
  - apply (randint_range _ 0 1000); lia.
  - apply (randint_range _ 0 1000); lia.
  - apply (randint_range _ 0 500); lia.
  - apply (randint_range _ 0 500); lia.
  - apply substring_length.
Qed.

Lemma firstn_incl {A} n (l : list A) : incl (firstn n l) l.
Proof.
  intros x Hx. rewrite <- (firstn_skipn n l). apply in_or_app. now left.
Qed.

(** X2. [get_user_ids] never raises and leaves store and cache alone.
    It returns at most a hundred ids, each the key of a stored user:
    as many as there are users, up to the limit, when the query is
    answered, and the empty list when the query fails. *)
Theorem get_user_ids_bounded (w : world) :
  exists l,
    get_user_ids w = (Ok l, snd (get_user_ids w))
    /\ db (snd (get_user_ids w)) = db w
    /\ user_ids (snd (get_user_ids w)) = user_ids w
    /\ (List.length l <= 100)%nat
    /\ incl l (map user_id (users (db w)))
    /\ List.length l
       = (if hd false (faults w) then O
          else Nat.min 100 (List.length (users (db w)))).
Proof.
  exists (loaded_ids w). rewrite get_user_ids_eq. cbn [fst snd db user_ids].
  repeat split.
  - unfold loaded_ids. destruct (hd false (faults w)); [simpl; lia |].
    apply (firstn_le_length (Z.to_nat 100)).
  - unfold loaded_ids. destruct (hd false (faults w)).
    + intros x [].
    + apply firstn_incl.
  - unfold loaded_ids. destruct (hd false (faults w)); [reflexivity |].
    change 100%nat with (Z.to_nat 100).
    rewrite length_firstn, length_map. reflexivity.
Qed.

Lemma get_random_tweet_id_eq w :
  get_random_tweet_id w
  = (if hd false (faults w) then Ok None
     else match tweets (db w) with
          | [] => Ok None
          | t :: ts =>
              Ok (Some (tweet_id (nth (hd O (db_random w)
                                       mod List.length (t :: ts))
                                      (t :: ts) t)))
          end,
     snd (execute_query SelectRandomTweet w)).
Proof.
  unfold get_random_tweet_id, try_except, bind, execute_query.
  destruct (hd false (faults w)); [reflexivity |].
  cbn [run_stmt]. now destruct (tweets (db w)).
Qed.

Lemma execute_select_keeps_db w :
  db (snd (execute_query SelectRandomTweet w)) = db w.
Proof.
  unfold execute_query. destruct (hd false (faults w)); [reflexivity |].
  cbn [run_stmt snd db]. now destruct (tweets (db w)).
Qed.

Lemma get_random_tweet_id_spec (w : world) :
  db (snd (get_random_tweet_id w)) = db w
  /\ match fst (get_random_tweet_id w) with
     | Ok (Some t) => has_tweet (db w) t = true
     | Ok None => tweets (db w) = [] \/ hd false (faults w) = true
     | Raise _ => False
     end.
Proof.
  rewrite get_random_tweet_id_eq. cbn [fst snd].
  split; [apply execute_select_keeps_db |].
  destruct (hd false (faults w)); [now right |].
  destruct (tweets (db w)) as [| t ts] eqn:E; [now left |].
  unfold has_tweet. rewrite E. apply existsb_exists.
  eexists. split; [| apply Z.eqb_refl].
  apply nth_In. apply Nat.mod_upper_bound. simpl. lia.
Qed.

(** X3. [get_random_tweet_id] never raises and leaves the store alone.
    An id it returns is the key of a stored tweet; it returns [None]
    only when there is no tweet or the query failed. *)
Theorem get_random_tweet_id_exists (w : world) :
  db (snd (get_random_tweet_id w)) = db w
  /\ match fst (get_random_tweet_id w) with
     | Ok (Some t) => has_tweet (db w) t = true
     | Ok None => tweets (db w) = [] \/ hd false (faults w) = true
     | Raise _ => False
     end.
Proof. exact (get_random_tweet_id_spec w). Qed.

(** X4. [check_follow_exists] never raises and leaves the store alone.
    It answers [False] exactly when the query was answered and no row
    holds the pair: a [False] is always right, a [True] is either a
    stored pair or a failed query. *)
Theorem check_follow_exists_false_is_right (f g : Z) (w : world) :
  exists b,
    fst (check_follow_exists f g w) = Ok b
    /\ db (snd (check_follow_exists f g w)) = db w
    /\ (b = false
        <-> hd false (faults w) = false /\ count_pair f g (db w) = O).
Proof.
  rewrite check_follow_exists_eq. cbn [fst snd after_check db].
  eexists. split; [reflexivity |]. split; [reflexivity |].
  unfold count_pair. destruct (hd false (faults w)); simpl.
  - split; [discriminate | intros []; discriminate].
  - destruct (existsb (is_pair f g) (follows (db w))) eqn:E.
    + apply count_pair_present in E.
      split; [discriminate | intros [_ H]; lia].
    + apply count_pair_absent in E. now split.
Qed.

(** ** What a run does to the store *)

Lemma map_identity_bump (h : user_row -> user_row) (l : list user_row) :
  (forall r, identity (h r) = identity r) ->
  map identity (map h l) = map identity l.
Proof. intro Hh. rewrite map_map. apply map_ext. exact Hh. Qed.

Lemma identity_bump_following u r :
  identity (bump_following u r) = identity r.
Proof. unfold bump_following. now destruct (_ =? _). Qed.

Lemma identity_bump_followers u r :
  identity (bump_followers u r) = identity r.
Proof. unfold bump_followers. now destruct (_ =? _). Qed.

Lemma grows_same w w' : db w' = db w -> grows w w'.
Proof.
  intro E. unfold grows. rewrite E.
  repeat split; try lia; exists []; now rewrite app_nil_r.
Qed.

Lemma grows_trans a b c : grows a b -> grows b c -> grows a c.
Proof.
  intros ([t1 T1] & [f1 F1] & [u1 U1] & N1 & N2 & N3)
         ([t2 T2] & [f2 F2] & [u2 U2] & M1 & M2 & M3).
  repeat split; try lia.
  - exists (t1 ++ t2). now rewrite T2, T1, app_assoc.
  - exists (f1 ++ f2). now rewrite F2, F1, app_assoc.
  - exists (u1 ++ u2). now rewrite U2, U1, app_assoc.
Qed.

#[export] Instance grows_frame : Frame grows.
Proof.
  split.
  - intro w. now apply grows_same.
  - apply grows_trans.
  - intro w. now apply grows_same.
  - intro w. now apply grows_same.
Qed.

Lemma run_stmt_grows q d rnd :
  let d' := snd (run_stmt q d rnd) in
  (exists t, tweets d' = tweets d ++ t)
  /\ (exists f, follows d' = follows d ++ f)
  /\ (exists u, map identity (users d') = map identity (users d) ++ u)
  /\ next_user_id d <= next_user_id d'
  /\ next_tweet_id d <= next_tweet_id d'
  /\ next_follow_id d <= next_follow_id d'.
Proof.
  assert (Hsame : (exists t, tweets d = tweets d ++ t)
                  /\ (exists f, follows d = follows d ++ f)
                  /\ (exists u, map identity (users d)
                                = map identity (users d) ++ u)
                  /\ next_user_id d <= next_user_id d
                  /\ next_tweet_id d <= next_tweet_id d
                  /\ next_follow_id d <= next_follow_id d).
  { repeat split; try lia; exists []; now rewrite app_nil_r. }
  destruct q; cbn [run_stmt];
    repeat match goal with
           | |- context [if ?c then _ else _] => destruct c
           | |- context [match tweets d with _ => _ end] =>
               destruct (tweets d) eqn:?
           end; cbv zeta; cbn [snd]; try exact Hsame.
  all: repeat split; simpl; try lia;
    try (exists []; now rewrite app_nil_r);
    try (rewrite map_app; eexists; reflexivity);
    try (eexists; reflexivity).
  - exists []. rewrite app_nil_r.
    apply map_identity_bump, identity_bump_following.
  - exists []. rewrite app_nil_r.
    apply map_identity_bump, identity_bump_followers.
Qed.

Lemma grows_execute_query q : respects grows (execute_query q).
Proof.
  intro w. unfold execute_query.
  destruct (hd false (faults w)); [now apply grows_same |].
  exact (run_stmt_grows q (db w) (hd O (db_random w))).
Qed.

Lemma grows_set_user_ids l : respects grows (set_user_ids l).
Proof. intro w. now apply grows_same. Qed.

Lemma grows_append_user_id u : respects grows (append_user_id u).
Proof. intro w. now apply grows_same. Qed.

Lemma grows_enter k : respects grows (enter k).
Proof. intro w. now apply grows_same. Qed.

Lemma grows_insert_random_data : respects grows insert_random_data.
Proof.
  unfold insert_random_data, insert_tweet, insert_follow, insert_follow_with,
    generate_tweet_data, generate_follow_data, load_or_create_users,
    create_and_append, create_user, get_user_ids, get_random_tweet_id,
    check_follow_exists.
  repeat first [ apply grows_execute_query | apply grows_set_user_ids
               | apply grows_append_user_id | apply grows_enter
               | respects_step ].
Qed.

(** X5. The generator is append-only. Over any number of cycles the
    tweets and follows tables only gain rows at their end (no row is
    changed or removed), every user row keeps its place, id, username,
    email, name and bio (only its two counters may change), and the
    three key sequences never go back. *)
Theorem run_is_append_only (n : nat) (w : world) :
  (exists t, tweets (db (run_cycles n w)) = tweets (db w) ++ t)
  /\ (exists f, follows (db (run_cycles n w)) = follows (db w) ++ f)
  /\ (exists u, map identity (users (db (run_cycles n w)))
                = map identity (users (db w)) ++ u)
  /\ next_user_id (db w) <= next_user_id (db (run_cycles n w))
  /\ next_tweet_id (db w) <= next_tweet_id (db (run_cycles n w))
  /\ next_follow_id (db w) <= next_follow_id (db (run_cycles n w)).
Proof. exact (respects_run_cycles n grows_insert_random_data w). Qed.

(** ** Statements never remove a user *)

Lemma run_stmt_has_user q d rnd u :
  has_user d u = true -> has_user (snd (run_stmt q d rnd)) u = true.
Proof. intro H. apply (run_stmt_acct u q d rnd H). Qed.

(** ** The payload of a generated tweet *)

Lemma same_store_same w w' :
  db w' = db w -> user_ids w' = user_ids w -> same_store w w'.
Proof. now split. Qed.

#[export] Instance same_store_frame : Frame same_store.
Proof.
  split.
  - intro w. now split.
  - intros a b c [H1 H2] [H3 H4]. split; congruence.
  - intro w. now split.
  - intro w. now split.
Qed.

Lemma same_store_select_random :
  respects same_store (execute_query SelectRandomTweet).
Proof.
  intro w. split; [apply execute_select_keeps_db |].
  unfold execute_query. now destruct (hd false (faults w)).
Qed.

Lemma same_store_get_random_tweet_id :
  respects same_store get_random_tweet_id.
Proof.
  unfold get_random_tweet_id.
  repeat first [ apply same_store_select_random | respects_step ].
Qed.

Lemma bind_ok_inv {A B} (m : M A) (k : A -> M B) w b w' :
  bind m k w = (Ok b, w') ->
  exists a w1, m w = (Ok a, w1) /\ k a w1 = (Ok b, w').
Proof.
  unfold bind. destruct (m w) as [[a | e] w1]; [eauto | discriminate].
Qed.

Lemma bind_raise_inv {A B} (m : M A) (k : A -> M B) w e w' :
  bind m k w = (Raise e, w') ->
  m w = (Raise e, w')
  \/ exists a w1, m w = (Ok a, w1) /\ k a w1 = (Raise e, w').
Proof.
  unfold bind. destruct (m w) as [[a | e1] w1]; [eauto |].
  intro H. left. injection H as -> ->. reflexivity.
Qed.

(** From a run of [m] to the relation [m] respects. *)
Lemma respects_run {R : world -> world -> Prop} {A} (m : M A) w r w' :
  respects R m -> m w = (r, w') -> R w w'.
Proof. intros H E. specialize (H w). now rewrite E in H. Qed.

Lemma sample_from_incl k : forall l w r w',
  (k <= List.length l)%nat ->
  sample_from k l w = (Ok r, w') ->
  List.length r = k /\ incl r l.
Proof.
  induction k as [| k IH]; intros l w r w' Hk H.
  - injection H as <- _. split; [reflexivity | intros x []].
  - cbn [sample_from] in H.
    apply bind_ok_inv in H. destruct H as (x & w1 & _ & H).
    cbv zeta in H. apply bind_ok_inv in H.
    destruct H as (rest & w2 & Hrest & H). injection H as <- _.
    set (i := (N.to_nat x mod List.length l)%nat) in *.
    assert (Hi : (i < List.length l)%nat)
      by (apply Nat.mod_upper_bound; lia).
    pose proof (remove_nth_length l i Hi) as Hlen.
    assert (Hk' : (k <= List.length (remove_nth i l))%nat) by lia.
    destruct (IH _ _ _ _ Hk' Hrest) as [Hl Hincl].
    split; [simpl; now rewrite Hl |].
    intros y [<- | Hy]; [now apply nth_In |].
    apply (remove_nth_In l i). now apply Hincl.
Qed.

Lemma sample_from_returns k : forall l w,
  exists r, fst (sample_from k l w) = Ok r.
Proof.
  induction k as [| k IH]; intros l w; [now exists [] |].
  cbn [sample_from]. unfold bind at 1. cbn [draw fst snd].
  cbv zeta. unfold bind.
  match goal with
  | |- context [sample_from k ?l' ?w'] =>
      destruct (IH l' w') as [r Hr];
      destruct (sample_from k l' w') as [[r' | e] w2]
  end; simpl in *; [eauto | discriminate].
Qed.

Lemma list_of_range_hashtags n : forall w hs w',
  list_of_range n (wd <- fake_word ;; ret (append "#" wd)) w = (Ok hs, w') ->
  List.length hs = n
  /\ Forall (fun h => exists wd, h = append "#" wd) hs.
Proof.
  induction n as [| n IH]; intros w hs w' H.
  - injection H as <- _. split; [reflexivity | constructor].
  - cbn [list_of_range] in H.
    apply bind_ok_inv in H. destruct H as (x & w1 & Hx & H).
    apply bind_ok_inv in H. destruct H as (xs & w2 & Hxs & H).
    injection H as <- _.
    destruct (IH _ _ _ Hxs) as [Hl Hf].
    split; [simpl; now rewrite Hl |].
    constructor; [| exact Hf].
    apply bind_ok_inv in Hx. destruct Hx as (wd & w0 & _ & Hx).
    injection Hx as <- _. now exists wd.
Qed.

Lemma list_of_range_returns {A} n (m : M A) :
  (forall w, exists a, fst (m w) = Ok a) ->
  forall w, exists l, fst (list_of_range n m w) = Ok l.
Proof.
  intro Hm. induction n as [| n IH]; intro w; [now exists [] |].
  cbn [list_of_range]. unfold bind.
  destruct (Hm w) as [a Ha]. destruct (m w) as [[a' | e] w1];
    simpl in Ha; [| discriminate].
  destruct (IH w1) as [l Hl].
  destruct (list_of_range n m w1) as [[l' | e] w2]; simpl in Hl;
    [| discriminate].
  cbn. eauto.
Qed.

Ltac same_store_stage :=
  repeat first [ apply same_store_get_random_tweet_id | respects_step ].

Lemma randint_ok a b w z w' :
  a <= b -> randint a b w = (Ok z, w') -> a <= z <= b.
Proof.
  intros Hab H. unfold randint, bind, draw, ret in H.
  injection H as <- _. now apply randint_range.
Qed.

Lemma choice_ok l w u w' : choice l w = (Ok u, w') -> In u l.
Proof.
  destruct l as [| z l]; [discriminate |].
  change (choice (z :: l) w)
    with (Ok (nth (N.to_nat (hd 0%N (rng w)) mod List.length (z :: l))
                  (z :: l) 0), snd (draw w)).
  set (v := nth _ _ _).
  assert (Hv : In v (z :: l)).
  { subst v. apply nth_In. apply Nat.mod_upper_bound. simpl. lia. }
  clearbody v. intro H. injection H as <- _. exact Hv.
Qed.

Lemma choice_raises l w e w' :
  choice l w = (Raise e, w') -> l = [] /\ e = IndexError /\ w' = w.
Proof.
  destruct l as [| z l]; [| discriminate].
  unfold choice, raise. intro H. injection H as <- <-. auto.
Qed.

Lemma fake_text_ok n w s w' :
  fake_text n w = (Ok s, w') -> (String.length s <= n)%nat.
Proof.
  unfold fake_text, bind, fake_next, ret. intro H. injection H as <- _.
  apply substring_length.
Qed.

(** What the payload of a tweet looks like, for the ids [ids] it is
    drawn from. *)
Lemma tweet_payload_ok ids w td w' :
  tweet_payload ids w = (Ok td, w') ->
  same_store w w'
  /\ In (td_user_id td) ids
  /\ (String.length (td_content td) <= 280)%nat
  /\ (List.length (td_hashtags td) <= 3)%nat
  /\ Forall (fun h => exists wd, h = append "#" wd) (td_hashtags td)
  /\ (exists us,
        td_mentions td = map (fun u => append "@user_" (decimal u)) us
        /\ (List.length us <= 2)%nat
        /\ Forall (fun u => u <> td_user_id td /\ In u ids) us)
  /\ 0 <= td_likes_count td <= 1000
  /\ 0 <= td_retweets_count td <= 100
  /\ match td_reply_to_tweet_id td with
     | Some t => has_tweet (db w) t = true
     | None => True
     end.
Proof.
  intro H. unfold tweet_payload in H.
  apply bind_ok_inv in H. destruct H as (uid & w1 & Hc & H).
  apply bind_ok_inv in H. destruct H as (c & w2 & Ht & H).
  apply bind_ok_inv in H. destruct H as (with_tags & w3 & Hwt & H).
  apply bind_ok_inv in H. destruct H as (hs & w4 & Hhs & H).
  apply bind_ok_inv in H. destruct H as (with_mentions & w5 & Hwm & H).
  apply bind_ok_inv in H. destruct H as (ms & w6 & Hms & H).
  apply bind_ok_inv in H. destruct H as (likes & w7 & Hl & H).
  apply bind_ok_inv in H. destruct H as (retweets & w8 & Hr & H).
  apply bind_ok_inv in H. destruct H as (is_reply & w9 & Hir & H).
  apply bind_ok_inv in H. destruct H as (reply & w10 & Hrep & H).
  injection H as <- <-. cbn [td_user_id td_content td_hashtags td_mentions
                              td_likes_count td_retweets_count
                              td_reply_to_tweet_id].
  assert (S1 : same_store w w1)
    by (eapply respects_run; [| exact Hc]; same_store_stage).
  assert (S2 : same_store w1 w2)
    by (eapply respects_run; [| exact Ht]; same_store_stage).
  assert (S3 : same_store w2 w3)
    by (eapply respects_run; [| exact Hwt]; same_store_stage).
  assert (S4 : same_store w3 w4)
    by (eapply respects_run; [| exact Hhs]; same_store_stage).
  assert (S5 : same_store w4 w5)
    by (eapply respects_run; [| exact Hwm]; same_store_stage).
  assert (S6 : same_store w5 w6)
    by (eapply respects_run; [| exact Hms]; same_store_stage).
  assert (S7 : same_store w6 w7)
    by (eapply respects_run; [| exact Hl]; same_store_stage).
  assert (S8 : same_store w7 w8)
    by (eapply respects_run; [| exact Hr]; same_store_stage).
  assert (S9 : same_store w8 w9)
    by (eapply respects_run; [| exact Hir]; same_store_stage).
  assert (S10 : same_store w9 w10)
    by (eapply respects_run; [| exact Hrep]; same_store_stage).
  assert (S09 : same_store w w9)
    by (unfold same_store in *; intuition congruence).
  split; [unfold same_store in *; intuition congruence |].
  split; [exact (choice_ok _ _ _ _ Hc) |].
  split; [exact (fake_text_ok _ _ _ _ Ht) |].
  assert (Hhash : (List.length hs <= 3)%nat
                  /\ Forall (fun h => exists wd, h = append "#" wd) hs).
  { destruct with_tags.
    - apply bind_ok_inv in Hhs. destruct Hhs as (n & w3' & Hn & Hhs).
      apply (randint_ok 1 3) in Hn; [| lia].
      apply list_of_range_hashtags in Hhs. destruct Hhs as [Hlen Hf].
      split; [lia | exact Hf].
    - injection Hhs as <- _. split; [simpl; lia | constructor]. }
  destruct Hhash as [Hh1 Hh2]. split; [exact Hh1 |]. split; [exact Hh2 |].
  split.
  { destruct with_mentions.
    - apply bind_ok_inv in Hms. destruct Hms as (mu & w5' & Hs & Hms).
      injection Hms as <- _.
      unfold sample in Hs.
      assert (E : (List.length ids <? Nat.min 2 (List.length ids))%nat
                  = false) by (apply Nat.ltb_ge; lia).
      rewrite E in Hs.
      apply sample_from_incl in Hs; [| lia]. destruct Hs as [Hlen Hincl].
      exists (filter (fun u => negb (u =? uid)) mu).
      split; [reflexivity |]. split.
      + pose proof (filter_length_le (fun u => negb (u =? uid)) mu). lia.
      + apply Forall_forall. intros u Hu. apply filter_In in Hu.
        destruct Hu as [Hin Hne]. apply negb_true_iff, Z.eqb_neq in Hne.
        split; [exact Hne | now apply Hincl].
    - injection Hms as <- _. exists []. repeat split; [simpl; lia |].
      constructor. }
  split; [now apply (randint_ok 0 1000) in Hl |].
  split; [now apply (randint_ok 0 100) in Hr |].
  destruct is_reply.
  - pose proof (get_random_tweet_id_spec w9) as [_ Hex].
    rewrite Hrep in Hex. cbn [fst] in Hex.
    destruct reply as [t |]; [| exact I].
    destruct S09 as [Hdb _]. now rewrite <- Hdb.
  - injection Hrep as <- _. exact I.
Qed.

Lemma fake_text_eq n w :
  fake_text n w
  = (Ok (substring 0 n (hd EmptyString (fake w))), snd (fake_next w)).
Proof. reflexivity. Qed.

Lemma randint_eq a b w :
  randint a b w
  = (Ok (a + Z.of_N (hd 0%N (rng w)) mod (b - a + 1)), snd (draw w)).
Proof. reflexivity. Qed.

Lemma hashtags_stage_returns (b : bool) w :
  exists hs,
    fst ((if b
          then n <- randint 1 3 ;;
               list_of_range (Z.to_nat n)
                             (wd <- fake_word ;; ret (append "#" wd))
          else ret []) w) = Ok hs.
Proof.
  destruct b; [| now exists []].
  rewrite bind_eq, randint_eq.
  apply list_of_range_returns. intro w0. eexists. reflexivity.
Qed.

Lemma mentions_stage_returns (b : bool) ids uid w :
  exists ms,
    fst ((if b
          then mention_users <- sample ids (Nat.min 2 (List.length ids)) ;;
               ret (map (fun u => append "@user_" (decimal u))
                        (filter (fun u => negb (u =? uid)) mention_users))
          else ret []) w) = Ok ms.
Proof.
  destruct b; [| now exists []].
  rewrite bind_eq. unfold sample.
  assert (E : (List.length ids <? Nat.min 2 (List.length ids))%nat = false)
    by (apply Nat.ltb_ge; lia).
  rewrite E.
  destruct (sample_from_returns (Nat.min 2 (List.length ids)) ids w)
    as [r Hr].
  destruct (sample_from _ ids w) as [[r' | e] w1]; simpl in Hr;
    [| discriminate].
  eexists. reflexivity.
Qed.

Lemma reply_stage_returns (b : bool) w :
  exists o, fst ((if b then get_random_tweet_id else ret None) w) = Ok o.
Proof.
  destruct b; [| now exists None].
  pose proof (get_random_tweet_id_spec w) as [_ H].
  destruct (fst (get_random_tweet_id w)) as [o | e]; [eauto | contradiction].
Qed.

(** The payload can only fail at its first step, the choice of the
    author among no ids at all. *)
Lemma tweet_payload_raises ids w e w' :
  tweet_payload ids w = (Raise e, w') ->
  ids = [] /\ e = IndexError /\ w' = w.
Proof.
  intro H. unfold tweet_payload in H.
  apply bind_raise_inv in H.
  destruct H as [H | (uid & w1 & _ & H)]; [now apply choice_raises in H |].
  exfalso.
  rewrite bind_eq, fake_text_eq, bind_eq, random_below_eq in H.
  rewrite bind_eq in H.
  match type of H with
  | context [(if ?b then _ else ret []) ?w0] =>
      destruct (hashtags_stage_returns b w0) as [hs Hhs]
  end.
  match type of H with
  | (let (r, w2) := ?m in _) = _ =>
      destruct m as [[hs' | e'] w4]; simpl in Hhs; [| discriminate]
  end.
  rewrite bind_eq, random_below_eq, bind_eq in H.
  match type of H with
  | context [(if ?b then _ else ret []) ?w0] =>
      destruct (mentions_stage_returns b ids uid w0) as [ms Hms]
  end.
  match type of H with
  | (let (r, w2) := ?m in _) = _ =>
      destruct m as [[ms' | e'] w6]; simpl in Hms; [| discriminate]
  end.
  rewrite bind_eq, randint_eq, bind_eq, randint_eq in H.
  rewrite bind_eq, random_below_eq, bind_eq in H.
  match type of H with
  | context [(if ?b then get_random_tweet_id else ret None) ?w0] =>
      destruct (reply_stage_returns b w0) as [o Ho]
  end.
  match type of H with
  | (let (r, w2) := ?m in _) = _ =>
      destruct m as [[o' | e'] w10]; simpl in Ho; discriminate
  end.
Qed.

Lemma create_or_skip_eq (b : bool) w :
  (if b then create_and_append else ret tt) w
  = (Ok tt, if b then snd (create_and_append w) else w).
Proof.
  destruct b; [| reflexivity].
  pose proof (create_and_append_outcome w) as [Hr _].
  destruct (create_and_append w) as [[[] | e] w']; simpl in *;
    [reflexivity | discriminate].
Qed.

(** [generate_tweet_data] reloads the cache when it is empty, creates a
    user one time in ten, and draws the payload from the cache it then
    has. *)
Lemma generate_tweet_data_eq w :
  generate_tweet_data w
  = tweet_payload (user_ids (before_payload w)) (before_payload w).
Proof.
  change (generate_tweet_data w)
    with ((ids0 <- get_user_ids_cache ;;
           (match ids0 with [] => load_or_create_users | _ => ret tt end) ;;
           new_user <- random_below 100 ;;
           (if new_user then create_and_append else ret tt) ;;
           ids <- get_user_ids_cache ;;
           tweet_payload ids) w).
  rewrite bind_eq. cbn [get_user_ids_cache].
  rewrite bind_eq. unfold before_payload.
  assert (E : (match user_ids w with
               | [] => load_or_create_users
               | _ :: _ => ret tt
               end) w
              = (Ok tt, match user_ids w with
                        | [] => snd (load_or_create_users w)
                        | _ :: _ => w
                        end)).
  { destruct (user_ids w); [| reflexivity].
    now rewrite load_or_create_users_eq. }
  rewrite E. clear E.
  set (w1 := match user_ids w with
             | [] => snd (load_or_create_users w)
             | _ :: _ => w
             end).
  rewrite bind_eq, random_below_eq, bind_eq, create_or_skip_eq.
  cbv zeta. rewrite bind_eq. cbn [get_user_ids_cache].
  reflexivity.
Qed.

Lemma generate_tweet_data_ok w td w' :
  generate_tweet_data w = (Ok td, w') ->
  In (td_user_id td) (user_ids w')
  /\ (String.length (td_content td) <= 280)%nat
  /\ (List.length (td_hashtags td) <= 3)%nat
  /\ Forall (fun h => exists wd, h = append "#" wd) (td_hashtags td)
  /\ (exists us,
        td_mentions td = map (fun u => append "@user_" (decimal u)) us
        /\ (List.length us <= 2)%nat
        /\ Forall (fun u => u <> td_user_id td /\ In u (user_ids w')) us)
  /\ 0 <= td_likes_count td <= 1000
  /\ 0 <= td_retweets_count td <= 100
  /\ match td_reply_to_tweet_id td with
     | Some t => has_tweet (db w') t = true
     | None => True
     end.
Proof.
  rewrite generate_tweet_data_eq. intro E.
  apply tweet_payload_ok in E.
  destruct E as ([Hdb Hids] & H). rewrite Hdb, Hids. exact H.
Qed.

(** X7. A generated tweet is well formed. Its author is one of the
    cached ids; its content has at most 280 characters; it has at most
    three hashtags, each starting with [#]; it has at most two
    mentions, each of a cached id other than the author; its like and
    retweet counts lie in 0..1000 and 0..100; and a reply target, when
    there is one, is the key of a tweet that is stored. *)
Theorem generated_tweet_is_well_formed (w : world) :
  match generate_tweet_data w with
  | (Ok td, w') =>
      In (td_user_id td) (user_ids w')
      /\ (String.length (td_content td) <= 280)%nat
      /\ (List.length (td_hashtags td) <= 3)%nat
      /\ Forall (fun h => exists wd, h = append "#" wd) (td_hashtags td)
      /\ (exists us,
            td_mentions td = map (fun u => append "@user_" (decimal u)) us
            /\ (List.length us <= 2)%nat
            /\ Forall (fun u => u <> td_user_id td /\ In u (user_ids w')) us)
      /\ 0 <= td_likes_count td <= 1000
      /\ 0 <= td_retweets_count td <= 100
      /\ match td_reply_to_tweet_id td with
         | Some t => has_tweet (db w') t = true
         | None => True
         end
  | (Raise _, _) => True
  end.
Proof.
  destruct (generate_tweet_data w) as [[td | e] w'] eqn:E; [| exact I].
  exact (generate_tweet_data_ok w td w' E).
Qed.

(** X8. [generate_tweet_data] fails in one way only: [IndexError] from
    [random.choice], when the cache is empty and stays empty (the
    reload and the bootstrap brought nothing, and no user was created).
    With a non-empty cache it always returns a payload. *)
Theorem generate_tweet_data_fails_only_without_users (w : world) :
  match generate_tweet_data w with
  | (Ok _, w') => user_ids w' <> []
  | (Raise e, w') =>
      e = IndexError /\ user_ids w = [] /\ user_ids w' = []
  end.
Proof.
  rewrite generate_tweet_data_eq.
  destruct (tweet_payload _ _) as [[td | e] w'] eqn:E.
  - apply tweet_payload_ok in E. destruct E as ([_ Hids] & Hin & _).
    rewrite Hids. intro Hn. rewrite Hn in Hin. exact Hin.
  - apply tweet_payload_raises in E. destruct E as (Hn & He & Hw).
    subst w'. repeat split; auto.
    unfold before_payload in Hn.
    destruct (user_ids w) as [| u l] eqn:Hu; [reflexivity |].
    exfalso. cbv zeta in Hn.
    destruct (N.ltb _ _).
    + destruct (create_and_append_outcome (snd (draw w)))
        as (_ & _ & extra & He').
      rewrite He' in Hn. cbn [draw snd user_ids] in Hn. rewrite Hu in Hn.
      discriminate.
    + cbn [draw snd user_ids] in Hn. rewrite Hu in Hn. discriminate.
Qed.

(** ** The cache points at stored users *)

Lemma keeps_known_same w w' :
  db w' = db w -> user_ids w' = user_ids w -> keeps_known w w'.
Proof. intros Hd Hu. unfold keeps_known, cache_known. now rewrite Hd, Hu. Qed.

#[export] Instance keeps_known_frame : Frame keeps_known.
Proof.
  split.
  - intro w. now apply keeps_known_same.
  - intros a b c Hab Hbc Ha. auto.
  - intro w. now apply keeps_known_same.
  - intro w. now apply keeps_known_same.
Qed.

Lemma keeps_known_execute_query q : respects keeps_known (execute_query q).
Proof.
  intros w H. unfold execute_query.
  destruct (hd false (faults w)); [exact H |].
  unfold cache_known in *. cbn [db user_ids snd].
  eapply Forall_impl; [| exact H]. intros u Hu.
  now apply run_stmt_has_user.
Qed.

Lemma keeps_known_enter k : respects keeps_known (enter k).
Proof. intro w. now apply keeps_known_same. Qed.

Lemma has_user_add_user r d u :
  has_user d u = true -> has_user (add_user r d) u = true.
Proof. unfold has_user. simpl. intro H. now rewrite existsb_app, H. Qed.

Lemma has_user_added r d : has_user (add_user r d) (user_id r) = true.
Proof.
  unfold has_user. simpl. rewrite existsb_app. simpl.
  rewrite Z.eqb_refl. apply orb_true_iff. right. reflexivity.
Qed.

Lemma keeps_known_create_and_append :
  respects keeps_known create_and_append.
Proof.
  intros w H. unfold create_and_append, bind.
  pose proof (create_user_outcome w) as Ho.
  destruct (create_user w) as [r w1]. simpl in Ho.
  inversion Ho as [row w' e Hid Hfc Hfg Hnt Hdb Hu Hh Hi Hs Ht
                  | w' e Hdb Hu Hh Hi Hs Ht]; subst.
  - assert (Hold : Forall (fun u => has_user (db w1) u = true) (user_ids w)).
    { rewrite Hdb. eapply Forall_impl; [| exact H].
      intros u. apply has_user_add_user. }
    cbn [truthy]. destruct (negb (user_id row =? 0)).
    + unfold cache_known. cbn [snd append_user_id db user_ids].
      rewrite Hu. apply Forall_app. split; [exact Hold |].
      constructor; [| constructor]. rewrite Hdb. apply has_user_added.
    + unfold cache_known. cbn [snd ret]. now rewrite Hu.
  - unfold cache_known in *. cbn [snd ret]. rewrite Hu.
    destruct Hdb as [-> | ->]; exact H.
Qed.

Lemma cache_known_after_load w : cache_known (after_load w).
Proof.
  unfold cache_known, after_load, loaded_ids. cbn [db user_ids].
  destruct (hd false (faults w)); [constructor |].
  apply Forall_forall. intros u Hu. apply firstn_incl in Hu.
  apply in_map_iff in Hu. destruct Hu as (r & <- & Hr).
  unfold has_user. apply existsb_exists. exists r.
  split; [exact Hr | apply Z.eqb_refl].
Qed.

Lemma cache_known_load_or_create_users w :
  cache_known (snd (load_or_create_users w)).
Proof.
  rewrite load_or_create_users_eq. cbn [snd].
  pose proof (cache_known_after_load w) as Hc.
  destruct (loaded_ids w); [| exact Hc].
  exact (respects_for_range 20 _ keeps_known_create_and_append _ Hc).
Qed.

Lemma keeps_known_load_or_create_users :
  respects keeps_known load_or_create_users.
Proof. intros w _. apply cache_known_load_or_create_users. Qed.

Ltac keeps_known_prog :=
  repeat first [ apply keeps_known_execute_query
               | apply keeps_known_enter
               | apply keeps_known_create_and_append
               | apply keeps_known_load_or_create_users
               | respects_step ].

Lemma keeps_known_generate_tweet_data :
  respects keeps_known generate_tweet_data.
Proof. unfold generate_tweet_data, get_random_tweet_id. keeps_known_prog. Qed.

Lemma keeps_known_generate_follow_data :
  respects keeps_known generate_follow_data.
Proof. unfold generate_follow_data. keeps_known_prog. Qed.

Lemma keeps_known_insert_random_data :
  respects keeps_known insert_random_data.
Proof.
  unfold insert_random_data, insert_tweet, insert_follow,
    insert_follow_with, check_follow_exists, generate_tweet_data,
    generate_follow_data, get_random_tweet_id.
  keeps_known_prog.
Qed.

(** X9. The cache only holds keys of stored users, and that is kept:
    from a world whose cached ids are all stored, tweet generation,
    follow generation and any number of cycles, with any storage
    failures, leave a cache whose ids are all stored. *)
Theorem cache_holds_stored_users (w : world) :
  cache_known w ->
  cache_known (snd (generate_tweet_data w))
  /\ cache_known (snd (generate_follow_data w))
  /\ forall n, cache_known (run_cycles n w).
Proof.
  intro H. repeat split.
  - now apply keeps_known_generate_tweet_data.
  - now apply keeps_known_generate_follow_data.
  - intro n. now apply (respects_run_cycles n keeps_known_insert_random_data).
Qed.

(** X10. [load_or_create_users] never raises, and it replaces the
    cache rather than extending it: whatever the cache held before,
    stale or not, every id cached afterwards is the key of a stored
    user, also when the id query or bootstrap inserts fail. *)
Theorem load_or_create_users_replaces_cache (w : world) :
  fst (load_or_create_users w) = Ok tt
  /\ Forall (fun u => has_user (db (snd (load_or_create_users w))) u = true)
            (user_ids (snd (load_or_create_users w))).
Proof.
  split; [now rewrite load_or_create_users_eq |].
  exact (cache_known_load_or_create_users w).
Qed.

(** ** Generated events are accepted by the store *)

Lemma quiet_same w w' :
  db w' = db w -> faults w' = faults w -> quiet w w'.
Proof. intros Hd Hf. unfold quiet. rewrite Hd, Hf. auto. Qed.

#[export] Instance quiet_frame : Frame quiet.
Proof.
  split.
  - intro w. now apply quiet_same.
  - intros a b c (F1 & T1 & G1) (F2 & T2 & G2).
    repeat split; [auto | congruence | congruence].
  - intro w. now apply quiet_same.
  - intro w. now apply quiet_same.
Qed.

Lemma quiet_execute_query q :
  is_generation_stmt (q, true) = true -> respects quiet (execute_query q).
Proof.
  intros Hq w. unfold execute_query.
  destruct (hd false (faults w)) eqn:Hf.
  - repeat split. cbn [faults snd]. intro E. now rewrite E.
  - repeat split; cbn [faults db snd].
    + intro E. now rewrite E.
    + destruct q; try discriminate; cbn [run_stmt];
        repeat match goal with
               | |- context [if ?c then _ else _] => destruct c
               | |- context [match tweets ?d with _ => _ end] =>
                   destruct (tweets d)
               end; reflexivity.
    + destruct q; try discriminate; cbn [run_stmt];
        repeat match goal with
               | |- context [if ?c then _ else _] => destruct c
               | |- context [match tweets ?d with _ => _ end] =>
                   destruct (tweets d)
               end; reflexivity.
Qed.

Lemma quiet_set_user_ids l : respects quiet (set_user_ids l).
Proof. intro w. now apply quiet_same. Qed.

Lemma quiet_append_user_id u : respects quiet (append_user_id u).
Proof. intro w. now apply quiet_same. Qed.

Ltac quiet_prog :=
  repeat first [ apply quiet_execute_query; reflexivity
               | apply quiet_set_user_ids
               | apply quiet_append_user_id
               | respects_step ].

Lemma quiet_generate_tweet_data : respects quiet generate_tweet_data.
Proof.
  unfold generate_tweet_data, load_or_create_users, create_and_append,
    create_user, get_user_ids, get_random_tweet_id.
  quiet_prog.
Qed.

Lemma quiet_generate_follow_data : respects quiet generate_follow_data.
Proof.
  unfold generate_follow_data, load_or_create_users, create_and_append,
    create_user, get_user_ids.
  quiet_prog.
Qed.

Lemma insert_tweet_unfold w :
  insert_tweet w
  = match generate_tweet_data (snd (enter TweetEvent w)) with
    | (Ok td, wg) =>
        (Ok tt,
         snd (execute_query
                (InsertTweet (td_user_id td) (td_content td)
                             (td_hashtags td) (td_mentions td)
                             (td_likes_count td) (td_retweets_count td)
                             (td_reply_to_tweet_id td)) wg))
    | (Raise _, wg) => (Ok tt, wg)
    end.
Proof.
  unfold insert_tweet, bind, try_except, enter. simpl.
  destruct (generate_tweet_data _) as [[td | e] wg]; [| reflexivity].
  now destruct (execute_query _ wg) as [[a | e] w'].
Qed.

(** X11. The tweet path never trips over a constraint. From a world
    whose cache holds stored users only, with no storage failure
    pending and the tweet sequence not exhausted, every payload that
    [generate_tweet_data] returns is stored by [insert_tweet] as one
    new row under the next key, carrying the payload as generated; when
    generation fails the tweets table is left as it was. *)
Theorem generated_tweet_is_stored (w : world) :
  cache_known w -> faults w = [] -> next_tweet_id (db w) <= INT_MAX ->
  match generate_tweet_data (snd (enter TweetEvent w)) with
  | (Ok td, _) =>
      tweets (db (snd (insert_tweet w)))
      = tweets (db w) ++ [tweet_row_of (db w) td]
  | (Raise _, _) =>
      tweets (db (snd (insert_tweet w))) = tweets (db w)
  end.
Proof.
  intros Hk Hf Hn. rewrite insert_tweet_unfold.
  set (w0 := snd (enter TweetEvent w)).
  assert (Hk0 : cache_known w0) by exact Hk.
  pose proof (keeps_known_generate_tweet_data w0 Hk0) as Hkg.
  destruct (generates_generate_tweet_data w0) as (_ & Ht & _ & _).
  destruct (quiet_generate_tweet_data w0) as (Hq & Hs & _).
  destruct (generate_tweet_data w0) as [[td | e] wg] eqn:E;
    cbn [snd] in *; [| exact Ht].
  apply generate_tweet_data_ok in E.
  destruct E as (Hau & _ & _ & _ & _ & _ & _ & Hrep).
  assert (Hu : has_user (db wg) (td_user_id td) = true).
  { unfold cache_known in Hkg. rewrite Forall_forall in Hkg. now apply Hkg. }
  unfold execute_query. rewrite (Hq Hf). cbn [hd snd db run_stmt].
  change (next_tweet_id (db w0)) with (next_tweet_id (db w)) in Hs.
  change (tweets (db w0)) with (tweets (db w)) in Ht.
  assert (E1 : (INT_MAX <? next_tweet_id (db wg)) = false)
    by (apply Z.ltb_ge; lia).
  rewrite E1, Hu. cbn [negb].
  assert (E2 : match td_reply_to_tweet_id td with
               | Some t => negb (has_tweet (db wg) t)
               | None => false
               end = false).
  { destruct (td_reply_to_tweet_id td); [now rewrite Hrep | reflexivity]. }
  rewrite E2. cbn [snd tweets]. unfold tweet_row_of. now rewrite Ht, Hs.
Qed.

(** ** What [generate_follow_data] returns *)

Lemma generate_follow_data_general w :
  generate_follow_data w
  = match sample (user_ids (before_sample w)) 2 (before_sample w) with
    | (Ok [f; g], w3) => (Ok (mkFollowData f g), w3)
    | (Ok _, w3) => (Raise ValueError, w3)
    | (Raise e, w3) => (Raise e, w3)
    end.
Proof.
  unfold generate_follow_data, before_sample.
  rewrite bind_eq. cbn [get_user_ids_cache]. rewrite bind_eq.
  assert (E : (if (List.length (user_ids w) <? 2)%nat
               then load_or_create_users else ret tt) w
              = (Ok tt, if (List.length (user_ids w) <? 2)%nat
                        then snd (load_or_create_users w) else w)).
  { destruct (_ <? _)%nat; [| reflexivity].
    now rewrite load_or_create_users_eq. }
  rewrite E. clear E.
  set (w0 := if (List.length (user_ids w) <? 2)%nat
             then snd (load_or_create_users w) else w).
  rewrite bind_eq, random_below_eq, bind_eq, create_or_skip_eq.
  cbv zeta. rewrite bind_eq. cbn [get_user_ids_cache].
  unfold bind.
  destruct (sample _ 2 _) as [[picked | e] w3]; [| reflexivity].
  destruct picked as [| f [| g [| h t]]]; reflexivity.
Qed.

Lemma cache_ok_before_sample w : cache_ok w -> cache_ok (before_sample w).
Proof.
  intro Hc. unfold before_sample.
  set (w0 := if (List.length (user_ids w) <? 2)%nat
             then snd (load_or_create_users w) else w).
  assert (H0 : cache_ok w0).
  { subst w0. destruct (_ <? _)%nat; [| exact Hc].
    apply cache_ok_load_or_create_users. apply Hc. }
  cbv zeta. destruct (N.ltb _ _); [| exact H0].
  now apply (proj1 (proj2 (create_and_append_outcome (snd (draw w0))))).
Qed.

Lemma generate_follow_data_cases w :
  cache_ok w ->
  match generate_follow_data w with
  | (Ok fd, w') =>
      fd_follower_id fd <> fd_following_id fd
      /\ In (fd_follower_id fd) (user_ids w')
      /\ In (fd_following_id fd) (user_ids w')
  | (Raise e, w') =>
      e = ValueError /\ (List.length (user_ids w') < 2)%nat
  end.
Proof.
  intro Hc. rewrite generate_follow_data_general.
  pose proof (cache_ok_before_sample w Hc) as (Hn & _).
  set (wb := before_sample w) in *.
  destruct (Nat.ltb (List.length (user_ids wb)) 2) eqn:E.
  - unfold sample. rewrite E. cbn [raise].
    apply Nat.ltb_lt in E. auto.
  - apply Nat.ltb_ge in E.
    destruct (sample_two (user_ids wb) wb E) as (i & j & Hi & Hj & Hs).
    rewrite Hs.
    destruct (sample_two_distinct _ i j Hn Hi Hj) as (Hd & H1 & H2).
    cbn [fd_follower_id fd_following_id draw snd user_ids]. auto.
Qed.

(** X12. [generate_follow_data] has two outcomes, from any world whose
    cache satisfies its invariant, also when the cache is reloaded or
    bootstrapped first: a pair of two different cached ids, or
    [ValueError] from [random.sample] when fewer than two ids are cached
    after the reload. *)
Theorem generate_follow_data_pair_or_value_error (w : world) :
  cache_ok w ->
  match generate_follow_data w with
  | (Ok fd, w') =>
      fd_follower_id fd <> fd_following_id fd
      /\ In (fd_follower_id fd) (user_ids w')
      /\ In (fd_following_id fd) (user_ids w')
  | (Raise e, w') =>
      e = ValueError /\ (List.length (user_ids w') < 2)%nat
  end.
Proof. exact (generate_follow_data_cases w). Qed.

(** ** The writes of the follow path *)

Lemma execute_query_trace q w :
  trace (snd (execute_query q w))
  = (q, succeeded (fst (execute_query q w))) :: trace w.
Proof.
  unfold execute_query. now destruct (hd false (faults w)).
Qed.

Lemma keeps_follows_update q w :
  is_counter_update (q, true) = true ->
  follows (db (snd (execute_query q w))) = follows (db w).
Proof.
  intro Hq. unfold execute_query.
  destruct (hd false (faults w)); [reflexivity |].
  destruct q; try discriminate; cbn [run_stmt snd db];
    now destruct (existsb _ _).
Qed.

Lemma counter_updates_follows f g w :
  follows (db (snd (counter_updates f g w))) = follows (db w).
Proof.
  unfold counter_updates. rewrite bind_eq.
  pose proof (keeps_follows_update (IncFollowing f) w eq_refl) as H1.
  destruct (execute_query (IncFollowing f) w) as [[r | e] w1];
    cbn [snd] in *; [| exact H1].
  rewrite bind_eq.
  pose proof (keeps_follows_update (IncFollowers g) w1 eq_refl) as H2.
  destruct (execute_query (IncFollowers g) w1) as [[r2 | e] w2];
    cbn [snd ret] in *; congruence.
Qed.

Lemma counter_updates_trace f g w :
  exists new,
    trace (snd (counter_updates f g w)) = new ++ trace w
    /\ forall U, (count_inc U new <= (if (g =? U)%Z then 1 else 0))%nat.
Proof.
  unfold counter_updates. rewrite bind_eq.
  pose proof (execute_query_trace (IncFollowing f) w) as H1.
  destruct (execute_query (IncFollowing f) w) as [[r | e] w1];
    cbn [snd fst succeeded] in *.
  - rewrite bind_eq.
    pose proof (execute_query_trace (IncFollowers g) w1) as H2.
    destruct (execute_query (IncFollowers g) w1) as [[r2 | e] w2];
      cbn [snd fst succeeded ret] in *.
    + exists [(IncFollowers g, true); (IncFollowing f, true)].
      split; [now rewrite H2, H1 |].
      intro U. unfold count_inc. cbn. destruct (g =? U); simpl; lia.
    + exists [(IncFollowers g, false); (IncFollowing f, true)].
      split; [now rewrite H2, H1 |].
      intro U. unfold count_inc. cbn. destruct (g =? U); simpl; lia.
  - exists [(IncFollowing f, false)]. split; [exact H1 |].
    intro U. unfold count_inc. cbn. destruct (g =? U); simpl; lia.
Qed.

Lemma insert_follow_with_eq fd w :
  let f := fd_follower_id fd in
  let g := fd_following_id fd in
  insert_follow_with fd w
  = if hd false (faults w) || existsb (is_pair f g) (follows (db w))
    then (Ok tt, after_check f g w)
    else match execute_query (InsertFollow f g) (after_check f g w) with
         | (Ok r, w1) =>
             if truthy (first_column r) then counter_updates f g w1
             else (Ok tt, w1)
         | (Raise e, w1) => (Raise e, w1)
         end.
Proof.
  cbv zeta. unfold insert_follow_with. rewrite bind_eq.
  rewrite check_follow_exists_eq.
  destruct (_ || _)%bool; [reflexivity |].
  rewrite bind_eq.
  destruct (execute_query _ (after_check _ _ w)) as [[r | e] w1];
    [| reflexivity].
  destruct (truthy (first_column r)); reflexivity.
Qed.

Lemma snd_swallow {A} (x : result A * world) (a : A) :
  snd (match x with
       | (Ok v, w') => (Ok v, w')
       | (Raise _, w') => (Ok a, w')
       end) = snd x.
Proof. now destruct x as [[v | e] w']. Qed.

Lemma insert_follow_snd w :
  snd (insert_follow w)
  = match generate_follow_data (snd (enter FollowEvent w)) with
    | (Ok fd, wg) => snd (insert_follow_with fd wg)
    | (Raise _, wg) => wg
    end.
Proof.
  rewrite insert_follow_unfold.
  destruct (generate_follow_data _) as [[fd | e] wg]; [| reflexivity].
  apply snd_swallow.
Qed.

(** X13. The follow path never trips over a constraint. From a world
    whose cache is duplicate-free and holds stored users only, with no
    storage failure pending and the follow sequence not exhausted:
    when [generate_follow_data] returns a pair that is not stored yet,
    [insert_follow] stores it as one new row under the next key; when
    the pair is stored already, or generation fails, the follows table
    is left as it was. *)
Theorem generated_follow_is_stored (w : world) :
  cache_ok w -> cache_known w -> faults w = [] ->
  next_follow_id (db w) <= INT_MAX ->
  match generate_follow_data (snd (enter FollowEvent w)) with
  | (Ok fd, _) =>
      follows (db (snd (insert_follow w)))
      = if existsb (is_pair (fd_follower_id fd) (fd_following_id fd))
                   (follows (db w))
        then follows (db w)
        else follows (db w)
             ++ [mkFollow (next_follow_id (db w))
                          (fd_follower_id fd) (fd_following_id fd)]
  | (Raise _, _) => follows (db (snd (insert_follow w))) = follows (db w)
  end.
Proof.
  intros Hc Hk Hf Hn. rewrite insert_follow_snd.
  set (w0 := snd (enter FollowEvent w)).
  assert (Hc0 : cache_ok w0) by exact Hc.
  assert (Hk0 : cache_known w0) by exact Hk.
  pose proof (generate_follow_data_cases w0 Hc0) as Hcases.
  pose proof (keeps_known_generate_follow_data w0 Hk0) as Hkg.
  destruct (generates_generate_follow_data w0) as (_ & _ & Hfo & _).
  destruct (quiet_generate_follow_data w0) as (Hq & _ & Hs).
  change (follows (db w0)) with (follows (db w)) in Hfo.
  change (next_follow_id (db w0)) with (next_follow_id (db w)) in Hs.
  destruct (generate_follow_data w0) as [[fd | e] wg];
    cbn [snd] in *; [| exact Hfo].
  destruct Hcases as (Hne & Hin1 & Hin2).
  unfold cache_known in Hkg. rewrite Forall_forall in Hkg.
  pose proof (Hkg _ Hin1) as Hu1. pose proof (Hkg _ Hin2) as Hu2.
  set (f := fd_follower_id fd) in *. set (g := fd_following_id fd) in *.
  pose proof (insert_follow_with_eq fd wg) as Heq. cbv zeta in Heq.
  fold f g in Heq. rewrite Heq. clear Heq.
  rewrite (Hq Hf : faults wg = []). cbn [hd orb]. rewrite Hfo.
  destruct (existsb (is_pair f g) (follows (db w))) eqn:Ex;
    [cbn [snd after_check db]; exact Hfo |].
  assert (Hrun : execute_query (InsertFollow f g) (after_check f g wg)
                 = (Ok (OneRow (next_follow_id (db wg))),
                    snd (execute_query (InsertFollow f g)
                                       (after_check f g wg)))
                   /\ follows (db (snd (execute_query
                                          (InsertFollow f g)
                                          (after_check f g wg))))
                      = follows (db wg)
                        ++ [mkFollow (next_follow_id (db wg)) f g]).
  { unfold execute_query. cbn [after_check faults db db_random].
    rewrite (Hq Hf : faults wg = []). cbn [tl hd run_stmt].
    assert (E1 : (INT_MAX <? next_follow_id (db wg)) = false)
      by (apply Z.ltb_ge; lia).
    rewrite E1, Hu1, Hu2, Hfo, Ex. cbn [negb orb].
    assert (E2 : (f =? g) = false) by now apply Z.eqb_neq.
    rewrite E2. cbn [fst snd db follows]. split; reflexivity. }
  destruct Hrun as [Hr Hfw]. rewrite Hr. cbn [first_column].
  rewrite Hfo, Hs in Hfw.
  destruct (truthy _); [| exact Hfw].
  now rewrite counter_updates_follows.
Qed.

(** ** The followers counter lags, it never leads *)

Lemma lags_same U w w' : trace w' = trace w -> lags U w w'.
Proof. intro Ht. exists []. split; [exact Ht | reflexivity]. Qed.

Lemma lags_trans U a b c : lags U a b -> lags U b c -> lags U a c.
Proof.
  intros (n1 & T1 & L1) (n2 & T2 & L2). exists (n2 ++ n1). split.
  - now rewrite T2, T1, app_assoc.
  - unfold count_inc, count_ins in *. rewrite !filter_app, !length_app. lia.
Qed.

#[export] Instance lags_frame U : Frame (lags U).
Proof.
  split.
  - intro w. now apply lags_same.
  - apply lags_trans.
  - intro w. now apply lags_same.
  - intro w. now apply lags_same.
Qed.

Lemma lags_execute_query U q :
  is_counter_update (q, true) = false -> respects (lags U) (execute_query q).
Proof.
  intros Hq w. exists [(q, succeeded (fst (execute_query q w)))].
  split; [apply execute_query_trace |].
  unfold count_inc. destruct q; try discriminate; cbn; lia.
Qed.

Lemma lags_set_user_ids U l : respects (lags U) (set_user_ids l).
Proof. intro w. now apply lags_same. Qed.

Lemma lags_append_user_id U u : respects (lags U) (append_user_id u).
Proof. intro w. now apply lags_same. Qed.

Lemma lags_enter U k : respects (lags U) (enter k).
Proof. intro w. now apply lags_same. Qed.

Lemma lags_insert_follow_with U fd :
  respects (lags U) (insert_follow_with fd).
Proof.
  intro w. pose proof (insert_follow_with_eq fd w) as Heq.
  cbv zeta in Heq. rewrite Heq. clear Heq.
  set (f := fd_follower_id fd). set (g := fd_following_id fd).
  destruct (_ || _)%bool.
  - eexists [_]. split; [reflexivity |]. unfold count_inc. cbn. lia.
  - set (wc := after_check f g w).
    pose proof (execute_query_trace (InsertFollow f g) wc) as Ht.
    destruct (execute_query (InsertFollow f g) wc) as [[r | e] w1];
      cbn [fst snd succeeded] in *.
    + assert (Hup : exists newu,
                 trace (snd (if truthy (first_column r)
                             then counter_updates f g w1
                             else (Ok tt, w1)))
                 = newu ++ trace w1
                 /\ (count_inc U newu <= (if (g =? U)%Z then 1 else 0))%nat).
      { destruct (truthy _).
        - destruct (counter_updates_trace f g w1) as (newu & H1 & H2).
          exists newu. split; [exact H1 | apply H2].
        - exists []. split; [reflexivity |].
          unfold count_inc. cbn. destruct (g =? U); lia. }
      destruct Hup as (newu & Hu1 & Hu2).
      exists (newu ++ [(InsertFollow f g, true);
                       (SelectFollow f g, negb (hd false (faults w)))]).
      split; [rewrite Hu1, Ht, <- app_assoc; reflexivity |].
      unfold count_inc, count_ins in *. rewrite !filter_app, !length_app.
      cbn. destruct (g =? U); simpl in *; lia.
    + eexists [_; _]. split; [rewrite Ht; reflexivity |].
      unfold count_inc. cbn. lia.
Qed.

Ltac lags_prog :=
  repeat first [ apply lags_execute_query; reflexivity
               | apply lags_set_user_ids
               | apply lags_append_user_id
               | apply lags_enter
               | apply lags_insert_follow_with
               | respects_step ].

Lemma lags_insert_random_data U : respects (lags U) insert_random_data.
Proof.
  unfold insert_random_data, insert_tweet, insert_follow,
    generate_tweet_data, generate_follow_data, load_or_create_users,
    create_and_append, create_user, get_user_ids, get_random_tweet_id.
  lags_prog.
Qed.

Lemma followers_of_known U d :
  has_user d U = true -> exists c, followers_of U d = Some c.
Proof.
  unfold has_user, followers_of, lookup_user. intro H.
  apply existsb_exists in H. destruct H as (r & Hr & Hid).
  destruct (find _ (users d)) as [r' |] eqn:E; [simpl; eauto |].
  exfalso. pose proof (find_none _ _ E r Hr) as Hn. simpl in Hn. congruence.
Qed.

(** X14. The stored [followers_count] lags, it never leads. Over any
    number of cycles, with any storage failures, the counter of a
    stored user never decreases, and it grows by no more than the
    number of Follow rows inserted with that user as target: the three
    writes of [insert_follow] are not atomic, and a failure between
    them can only leave the counter short. *)
Theorem followers_count_never_leads (n : nat) (w : world) (U : Z) :
  has_user (db w) U = true ->
  exists c c',
    followers_of U (db w) = Some c
    /\ followers_of U (db (run_cycles n w)) = Some c'
    /\ c <= c'
    /\ c' - c
       <= Z.of_nat (rows_to U (db (run_cycles n w)) - rows_to U (db w)).
Proof.
  intro Hu.
  destruct (respects_run_cycles n (acct_insert_random_data U) w Hu)
    as (_ & new & Ht & Hf & Hr).
  destruct (respects_run_cycles n (lags_insert_random_data U) w)
    as (new' & Ht' & Hle).
  assert (new' = new)
    by (eapply app_inv_tail; rewrite <- Ht, <- Ht'; reflexivity).
  subst new'.
  destruct (followers_of_known U (db w) Hu) as [c Hc].
  exists c, (c + Z.of_nat (count_inc U new)).
  rewrite Hf, Hc, Hr. repeat split; simpl; lia.
Qed.

(** ** A follow insertion that goes through *)

Lemma execute_query_ok q w r w1 :
  execute_query q w = (Ok r, w1) ->
  run_stmt q (db w) (hd O (db_random w)) = (Ok r, db w1).
Proof.
  unfold execute_query. destruct (hd false (faults w)); [discriminate |].
  destruct (run_stmt q (db w) (hd O (db_random w))) as [r' d'].
  cbn [fst snd]. intro H. injection H as -> <-. reflexivity.
Qed.

Lemma run_insert_follow_ok f g d rnd r d' :
  run_stmt (InsertFollow f g) d rnd = (Ok r, d') ->
  r = OneRow (next_follow_id d)
  /\ f <> g
  /\ d' = mkDb (users d) (tweets d)
               (follows d ++ [mkFollow (next_follow_id d) f g])
               (next_user_id d) (next_tweet_id d) (next_follow_id d + 1).
Proof.
  cbn [run_stmt].
  destruct (INT_MAX <? _); [discriminate |].
  destruct (_ || _)%bool; [discriminate |].
  destruct (existsb _ _); [discriminate |].
  destruct (f =? g) eqn:E; [discriminate |].
  intro H. injection H as <- <-. apply Z.eqb_neq in E. auto.
Qed.

Lemma run_inc_following_ok u d rnd r d' :
  run_stmt (IncFollowing u) d rnd = (Ok r, d') ->
  d' = with_users d (map (bump_following u) (users d)).
Proof.
  cbn [run_stmt]. destruct (existsb _ _); [discriminate |].
  intro H. now injection H as _ <-.
Qed.

Lemma run_inc_followers_ok u d rnd r d' :
  run_stmt (IncFollowers u) d rnd = (Ok r, d') ->
  d' = with_users d (map (bump_followers u) (users d)).
Proof.
  cbn [run_stmt]. destruct (existsb _ _); [discriminate |].
  intro H. now injection H as _ <-.
Qed.

Lemma lookup_bumped U f g (l : list user_row) :
  find (fun r => user_id r =? U)
       (map (bump_followers g) (map (bump_following f) l))
  = option_map (fun r => bump_followers g (bump_following f r))
               (find (fun r => user_id r =? U) l).
Proof.
  rewrite lookup_bump_followers, lookup_bump_following.
  now destruct (find _ l).
Qed.

Lemma bumped_counters U f g r :
  user_id r = U ->
  followers_count (bump_followers g (bump_following f r))
  = followers_count r + (if g =? U then 1 else 0)
  /\ following_count (bump_followers g (bump_following f r))
     = following_count r + (if f =? U then 1 else 0).
Proof.
  intro Hid. unfold bump_followers, bump_following.
  rewrite <- Hid.
  destruct (user_id r =? f) eqn:Ef; rewrite (Z.eqb_sym f), Ef;
    cbn [user_id]; destruct (user_id r =? g) eqn:Eg;
    rewrite (Z.eqb_sym g), Eg; cbn; split; lia.
Qed.

(** X15. A follow insertion that goes through does exactly three
    things. When the pair is not stored, the check is answered and
    [insert_follow] completes its writes without an exception, then one
    Follow row for the pair is appended under the next key, the
    follower's [following_count] and the target's [followers_count]
    each grow by one, and nothing else in the store changes: no other
    counter, no user's identity, no tweet. *)
Theorem completed_follow_updates_both_counters (fd : follow_data) (w : world) :
  let f := fd_follower_id fd in
  let g := fd_following_id fd in
  hd false (faults w) = false ->
  existsb (is_pair f g) (follows (db w)) = false ->
  1 <= next_follow_id (db w) ->
  fst (insert_follow_with fd w) = Ok tt ->
  let d' := db (snd (insert_follow_with fd w)) in
  f <> g
  /\ follows d' = follows (db w) ++ [mkFollow (next_follow_id (db w)) f g]
  /\ tweets d' = tweets (db w)
  /\ map identity (users d') = map identity (users (db w))
  /\ (forall U, followers_of U d'
                = option_map (fun c => c + (if g =? U then 1 else 0))
                             (followers_of U (db w)))
  /\ (forall U, following_of U d'
                = option_map (fun c => c + (if f =? U then 1 else 0))
                             (following_of U (db w))).
Proof.
  intros f g Hf Hex Hn. pose proof (insert_follow_with_eq fd w) as Heq.
  cbv zeta in Heq. fold f g in Heq. rewrite Heq. clear Heq.
  rewrite Hf, Hex. cbn [orb].
  destruct (execute_query (InsertFollow f g) (after_check f g w))
    as [[r | e] w1] eqn:E1; [| discriminate].
  apply execute_query_ok in E1. cbn [after_check db] in E1.
  apply run_insert_follow_ok in E1. destruct E1 as (-> & Hne & Hd1).
  cbn [first_column truthy].
  assert (Hz : negb (next_follow_id (db w) =? 0) = true)
    by (apply negb_true_iff, Z.eqb_neq; lia).
  rewrite Hz. unfold counter_updates. rewrite bind_eq.
  destruct (execute_query (IncFollowing f) w1) as [[r2 | e] w2] eqn:E2;
    [| discriminate].
  apply execute_query_ok, run_inc_following_ok in E2.
  rewrite bind_eq.
  destruct (execute_query (IncFollowers g) w2) as [[r3 | e] w3] eqn:E3;
    [| discriminate].
  apply execute_query_ok, run_inc_followers_ok in E3.
  intros _. cbv zeta. cbn [snd ret].
  rewrite E3, E2, Hd1. cbn [with_users users tweets follows].
  split; [exact Hne |]. split; [reflexivity |]. split; [reflexivity |].
  split.
  { rewrite (map_identity_bump (bump_followers g))
      by apply identity_bump_followers.
    apply map_identity_bump, identity_bump_following. }
  split.
  - intro U. unfold followers_of, lookup_user. cbn [users with_users].
    rewrite lookup_bumped.
    destruct (find _ (users (db w))) as [row |] eqn:Ef; [| reflexivity].
    cbn [option_map]. f_equal.
    apply (bumped_counters U f g row). now apply find_user_id in Ef.
  - intro U. unfold following_of, lookup_user. cbn [users with_users].
    rewrite lookup_bumped.
    destruct (find _ (users (db w))) as [row |] eqn:Ef; [| reflexivity].
    cbn [option_map]. f_equal.
    apply (bumped_counters U f g row). now apply find_user_id in Ef.
Qed.
(** ** C1: the counter of a created user *)

Lemma counters_below_le b b' d :
  b <= b' -> counters_below b d -> counters_below b' d.
Proof.
  intros Hb H. eapply Forall_impl; [| exact H]. simpl. intros r [H1 H2]. lia.
Qed.

Lemma keeps_bound_same w w' :
  users (db w') = users (db w) -> keeps_bound w w'.
Proof. intros E b _ H. unfold counters_below in *. now rewrite E. Qed.

#[export] Instance keeps_bound_frame : Frame keeps_bound.
Proof.
  split.
  - intro w. now apply keeps_bound_same.
  - intros a b c Hab Hbc k Hk H. auto.
  - intro w. now apply keeps_bound_same.
  - intro w. now apply keeps_bound_same.
Qed.

Lemma keeps_bound_select_ids limit :
  respects keeps_bound (execute_query (SelectUserIds limit)).
Proof.
  intro w. apply keeps_bound_same. unfold execute_query.
  now destruct (hd false (faults w)).
Qed.

Lemma keeps_bound_select_tweet :
  respects keeps_bound (execute_query SelectRandomTweet).
Proof.
  intro w. apply keeps_bound_same. unfold execute_query.
  destruct (hd false (faults w)); [reflexivity |].
  cbn [run_stmt]. now destruct (tweets (db w)).
Qed.

Lemma keeps_bound_set_user_ids l : respects keeps_bound (set_user_ids l).
Proof. intro w. now apply keeps_bound_same. Qed.

Lemma keeps_bound_append_user_id u :
  respects keeps_bound (append_user_id u).
Proof. intro w. now apply keeps_bound_same. Qed.

(** A user that [create_user] stores starts with counters of at most
    1000 and 500. *)
Lemma keeps_bound_create_and_append :
  respects keeps_bound create_and_append.
Proof.
  intros w b Hb H. unfold create_and_append, bind.
  pose proof (create_user_outcome w) as Ho.
  destruct (create_user w) as [r w1]. simpl in Ho.
  inversion Ho as [row w' e Hid Hfc Hfg Hnt Hdb Hu Hh Hi Hs Ht
                  | w' e Hdb Hu Hh Hi Hs Ht]; subst.
  - assert (Hnew : counters_below b (db w1)).
    { unfold counters_below. rewrite Hdb. cbn [add_user users].
      apply Forall_app. split; [exact H |].
      constructor; [lia | constructor]. }
    cbn [truthy]. destruct (negb (user_id row =? 0)); exact Hnew.
  - cbn [snd ret]. unfold counters_below in *.
    destruct Hdb as [-> | ->]; exact H.
Qed.

Ltac keeps_bound_prog :=
  repeat first [ apply keeps_bound_select_ids
               | apply keeps_bound_select_tweet
               | apply keeps_bound_set_user_ids
               | apply keeps_bound_append_user_id
               | apply keeps_bound_create_and_append
               | respects_step ].

Lemma keeps_bound_generate_tweet_data :
  respects keeps_bound generate_tweet_data.
Proof.
  unfold generate_tweet_data, load_or_create_users, get_user_ids,
    get_random_tweet_id.
  keeps_bound_prog.
Qed.

Lemma keeps_bound_generate_follow_data :
  respects keeps_bound generate_follow_data.
Proof.
  unfold generate_follow_data, load_or_create_users, get_user_ids.
  keeps_bound_prog.
Qed.

Lemma generation_counts U (new : list (stmt * bool)) :
  forallb is_generation_stmt new = true ->
  count_ins U new = O /\ count_inc U new = O.
Proof.
  intro H. unfold count_ins, count_inc.
  rewrite (filter_none is_generation_stmt (is_insert_to U) new H),
          (filter_none is_generation_stmt (is_inc_of U) new H).
  - split; reflexivity.
  - intros [[] []]; cbn; intro; try reflexivity; discriminate.
  - intros [[] []]; cbn; intro; try reflexivity; discriminate.
Qed.

(** Generation of a payload, with its user creation, keeps the
    conditions and inserts no Follow row. *)
Lemma generation_steady {A} (m : M A) w b :
  respects quiet m -> respects keeps_bound m -> respects generates m ->
  1000 <= b -> steady b w ->
  steady b (snd (m w))
  /\ exists new,
      trace (snd (m w)) = new ++ trace w
      /\ forall U, count_ins U new = O /\ count_inc U new = O.
Proof.
  intros Hq Hk Hg Hb (Hf & Hn & Hc).
  destruct (Hq w) as (Hf' & _ & Hn').
  destruct (Hg w) as (_ & _ & _ & new & Ht & Hall).
  split.
  - split; [auto |]. split; [now rewrite Hn' | now apply (Hk w b)].
  - exists new. split; [exact Ht |]. intro U. now apply generation_counts.
Qed.

Lemma execute_query_no_fault q w :
  faults w = [] ->
  let rd := run_stmt q (db w) (hd O (db_random w)) in
  fst (execute_query q w) = fst rd
  /\ db (snd (execute_query q w)) = snd rd
  /\ faults (snd (execute_query q w)) = []
  /\ trace (snd (execute_query q w)) = (q, succeeded (fst rd)) :: trace w.
Proof. intro Hf. unfold execute_query. rewrite Hf. cbn. auto. Qed.

Lemma run_insert_tweet_users uid c hs ms likes retweets reply d rnd :
  let d' := snd (run_stmt (InsertTweet uid c hs ms likes retweets reply)
                          d rnd) in
  users d' = users d /\ next_follow_id d' = next_follow_id d.
Proof.
  cbn [run_stmt].
  repeat match goal with
         | |- context [if ?c then _ else _] => destruct c
         end; cbn; auto.
Qed.

Lemma no_following_overflow b d u :
  counters_below b d -> b + 1 <= INT_MAX ->
  existsb (fun r => (user_id r =? u)
                    && (INT_MAX <? following_count r + 1)) (users d) = false.
Proof.
  intros Hc Hb. apply not_true_iff_false. intro H.
  apply existsb_exists in H. destruct H as (r & Hr & H).
  apply andb_prop in H. destruct H as [_ H]. apply Z.ltb_lt in H.
  unfold counters_below in Hc. rewrite Forall_forall in Hc.
  specialize (Hc r Hr). lia.
Qed.

Lemma no_followers_overflow b d u :
  counters_below b d -> b + 1 <= INT_MAX ->
  existsb (fun r => (user_id r =? u)
                    && (INT_MAX <? followers_count r + 1)) (users d) = false.
Proof.
  intros Hc Hb. apply not_true_iff_false. intro H.
  apply existsb_exists in H. destruct H as (r & Hr & H).
  apply andb_prop in H. destruct H as [_ H]. apply Z.ltb_lt in H.
  unfold counters_below in Hc. rewrite Forall_forall in Hc.
  specialize (Hc r Hr). lia.
Qed.

(** The two updates that follow a stored Follow row go through when no
    storage failure is scheduled and no counter is at the limit. *)
Lemma counter_updates_complete f g w b :
  b + 1 <= INT_MAX -> steady b w ->
  steady (b + 1) (snd (counter_updates f g w))
  /\ trace (snd (counter_updates f g w))
     = [(IncFollowers g, true); (IncFollowing f, true)] ++ trace w.
Proof.
  intros Hb (Hf & Hn & Hc). unfold counter_updates. rewrite bind_eq.
  destruct (execute_query_no_fault (IncFollowing f) w Hf)
    as (R1 & D1 & F1 & T1).
  cbn [run_stmt] in R1, D1, T1.
  rewrite (no_following_overflow b (db w) f Hc Hb) in R1, D1, T1.
  cbn [fst snd succeeded] in R1, D1, T1.
  destruct (execute_query (IncFollowing f) w) as [[r1 | e1] w1];
    cbn [fst snd] in *; [| discriminate].
  assert (Hc1 : Forall (fun r => followers_count r <= b
                                 /\ following_count r <= b + 1)
                       (users (db w1))).
  { rewrite D1. cbn [with_users users]. rewrite Forall_map.
    eapply Forall_impl; [| exact Hc]. cbn beta. intros r [H1 H2].
    unfold bump_following. destruct (_ =? _); cbn; lia. }
  assert (Ho : existsb (fun r => (user_id r =? g)
                                 && (INT_MAX <? followers_count r + 1))
                       (users (db w1)) = false).
  { apply not_true_iff_false. intro H.
    apply existsb_exists in H. destruct H as (r & Hr & H).
    apply andb_prop in H. destruct H as [_ H]. apply Z.ltb_lt in H.
    rewrite Forall_forall in Hc1. specialize (Hc1 r Hr). lia. }
  rewrite bind_eq.
  destruct (execute_query_no_fault (IncFollowers g) w1 F1)
    as (R2 & D2 & F2 & T2).
  cbn [run_stmt] in R2, D2, T2. rewrite Ho in R2, D2, T2.
  cbn [fst snd succeeded] in R2, D2, T2.
  destruct (execute_query (IncFollowers g) w1) as [[r2 | e2] w2];
    cbn [fst snd ret] in *; [| discriminate].
  split.
  - split; [exact F2 |]. split.
    + rewrite D2. cbn [with_users next_follow_id]. rewrite D1. exact Hn.
    + unfold counters_below. rewrite D2. cbn [with_users users].
      rewrite Forall_map. eapply Forall_impl; [| exact Hc1].
      cbn beta. intros r [H1 H2].
      unfold bump_followers. destruct (_ =? _); cbn; lia.
  - rewrite T2, T1. reflexivity.
Qed.

(** After generation: the existence check, the insert and, when the row
    is stored, both counter updates. *)
Lemma insert_follow_with_complete fd w b :
  b + 1 <= INT_MAX -> steady b w ->
  steady (b + 1) (snd (insert_follow_with fd w))
  /\ exists new,
      trace (snd (insert_follow_with fd w)) = new ++ trace w
      /\ forall U, (count_ins U new <= count_inc U new)%nat.
Proof.
  intros Hb (Hf & Hn & Hc).
  pose proof (insert_follow_with_eq fd w) as Heq.
  cbv zeta in Heq. rewrite Heq. clear Heq.
  set (f := fd_follower_id fd). set (g := fd_following_id fd).
  assert (Hc' : counters_below (b + 1) (db w))
    by (apply (counters_below_le b); [lia | exact Hc]).
  rewrite Hf. cbn [hd orb].
  assert (Hwc : steady b (after_check f g w)).
  { unfold steady, after_check. cbn [faults db]. rewrite Hf. auto. }
  assert (Htc : trace (after_check f g w)
                = [(SelectFollow f g, true)] ++ trace w).
  { unfold after_check. cbn [trace]. rewrite Hf. reflexivity. }
  destruct (existsb (is_pair f g) (follows (db w))).
  { cbn [snd]. split.
    - destruct Hwc as (H1 & H2 & H3). split; [exact H1 |]. split; [exact H2 |].
      exact Hc'.
    - eexists. split; [exact Htc |]. intro U. cbn. lia. }
  set (wc := after_check f g w) in *.
  destruct Hwc as (Hfc & Hnc & Hcc).
  destruct (execute_query_no_fault (InsertFollow f g) wc Hfc)
    as (R1 & D1 & F1 & T1).
  change (db wc) with (db w) in R1, D1, T1.
  set (rd := run_stmt (InsertFollow f g) (db w) (hd O (db_random wc))) in *.
  assert (Hrd : (exists e, fst rd = Raise e
                           /\ users (snd rd) = users (db w)
                           /\ next_follow_id (db w) <= next_follow_id (snd rd))
                \/ (fst rd = Ok (OneRow (next_follow_id (db w)))
                    /\ users (snd rd) = users (db w)
                    /\ next_follow_id (snd rd) = next_follow_id (db w) + 1)).
  { subst rd. cbn [run_stmt].
    repeat match goal with
           | |- context [if ?c then _ else _] => destruct c
           end; cbn; try (left; eexists; repeat split; lia);
      right; repeat split. }
  destruct (execute_query (InsertFollow f g) wc) as [[r | e] w1];
    cbn [fst snd] in *.
  - destruct Hrd as [(e & He & _) | (Hr & Hus & Hnx)]; [congruence |].
    assert (Hr1 : r = OneRow (next_follow_id (db w))) by congruence.
    assert (Hz : truthy (first_column r) = true).
    { rewrite Hr1. cbn. apply negb_true_iff, Z.eqb_neq. lia. }
    rewrite Hz.
    assert (Hs1 : steady b w1).
    { split; [exact F1 |]. split.
      - rewrite D1, Hnx. lia.
      - unfold counters_below. rewrite D1, Hus. exact Hc. }
    destruct (counter_updates_complete f g w1 b Hb Hs1) as (Hs2 & T2).
    split; [exact Hs2 |].
    exists [(IncFollowers g, true); (IncFollowing f, true);
            (InsertFollow f g, true); (SelectFollow f g, true)].
    split.
    + rewrite T2, T1, Htc, <- R1. reflexivity.
    + intro U. unfold count_ins, count_inc. cbn.
      destruct (g =? U); cbn; lia.
  - destruct Hrd as [(e' & He & Hus & Hnx) | (Hr & _)]; [| congruence].
    split.
    + split; [exact F1 |]. split.
      * rewrite D1. lia.
      * unfold counters_below. rewrite D1, Hus. exact Hc'.
    + exists [(InsertFollow f g, false); (SelectFollow f g, true)].
      split.
      * rewrite T1, Htc, <- R1. reflexivity.
      * intro U. cbn. lia.
Qed.

(** One cycle: every Follow row it inserts has its counter update
    completed. *)
Lemma cycle_complete w b :
  1000 <= b -> b + 1 <= INT_MAX -> steady b w ->
  steady (b + 1) (snd (insert_random_data w))
  /\ exists new,
      trace (snd (insert_random_data w)) = new ++ trace w
      /\ forall U, (count_ins U new <= count_inc U new)%nat.
Proof.
  intros Hb Hmax Hs. rewrite insert_random_data_eq.
  assert (Hd : forall k, steady b (snd (enter k (snd (draw w)))))
    by (intro k; exact Hs).
  destruct (N.ltb _ _).
  - rewrite insert_tweet_unfold.
    destruct (generation_steady generate_tweet_data _ b
                quiet_generate_tweet_data keeps_bound_generate_tweet_data
                generates_generate_tweet_data Hb (Hd TweetEvent))
      as ((Hf & Hn & Hc) & new & Ht & Hcount).
    change (trace (snd (enter TweetEvent (snd (draw w))))) with (trace w) in Ht.
    destruct (generate_tweet_data _) as [[td | e] wg]; cbn [snd] in *.
    + match goal with
      | |- context [execute_query ?q wg] =>
          destruct (execute_query_no_fault q wg Hf) as (_ & D1 & F1 & T1);
          pose proof (run_insert_tweet_users
                        (td_user_id td) (td_content td) (td_hashtags td)
                        (td_mentions td) (td_likes_count td)
                        (td_retweets_count td) (td_reply_to_tweet_id td)
                        (db wg) (hd O (db_random wg))) as [Hus Hnx]
      end.
      cbv zeta in Hus, Hnx. split.
      * split; [exact F1 |]. split.
        -- rewrite D1, Hnx. exact Hn.
        -- apply (counters_below_le b); [lia |].
           unfold counters_below. rewrite D1, Hus. exact Hc.
      * eexists (_ :: new). split; [rewrite T1, Ht; reflexivity |].
        intro U. destruct (Hcount U) as [Hi Hu].
        unfold count_ins, count_inc in *. cbn [filter is_insert_to].
        rewrite Hi. cbn. lia.
    + split.
      * split; [exact Hf |]. split; [exact Hn |].
        apply (counters_below_le b); [lia | exact Hc].
      * exists new. split; [exact Ht |].
        intro U. destruct (Hcount U) as [Hi Hu]. lia.
  - rewrite insert_follow_snd.
    destruct (generation_steady generate_follow_data _ b
                quiet_generate_follow_data keeps_bound_generate_follow_data
                generates_generate_follow_data Hb (Hd FollowEvent))
      as (Hsg & new & Ht & Hcount).
    change (trace (snd (enter FollowEvent (snd (draw w))))) with (trace w) in Ht.
    destruct (generate_follow_data _) as [[fd | e] wg]; cbn [snd] in *.
    + destruct (insert_follow_with_complete fd wg b Hmax Hsg)
        as (Hs' & newf & Htf & Hcf).
      split; [exact Hs' |]. exists (newf ++ new).
      split; [rewrite Htf, Ht, app_assoc; reflexivity |].
      intro U. destruct (Hcount U) as [Hi Hu]. specialize (Hcf U).
      unfold count_ins, count_inc in *.
      rewrite !filter_app, !length_app. lia.
    + destruct Hsg as (Hf & Hn & Hc). split.
      * split; [exact Hf |]. split; [exact Hn |].
        apply (counters_below_le b); [lia | exact Hc].
      * exists new. split; [exact Ht |].
        intro U. destruct (Hcount U) as [Hi Hu]. lia.
Qed.

Lemma run_complete n : forall w b,
  1000 <= b -> b + Z.of_nat n <= INT_MAX -> steady b w ->
  exists new,
    trace (run_cycles n w) = new ++ trace w
    /\ forall U, (count_ins U new <= count_inc U new)%nat.
Proof.
  induction n as [| n IH]; intros w b Hb Hmax Hs; cbn [run_cycles].
  - exists []. split; [reflexivity |]. intro U. cbn. lia.
  - destruct (cycle_complete w b Hb ltac:(lia) Hs) as (Hs1 & new1 & T1 & C1).
    destruct (IH (snd (insert_random_data w)) (b + 1) ltac:(lia) ltac:(lia) Hs1)
      as (new2 & T2 & C2).
    exists (new2 ++ new1). split; [rewrite T2, T1, app_assoc; reflexivity |].
    intro U. specialize (C1 U). specialize (C2 U).
    unfold count_ins, count_inc in *. rewrite !filter_app, !length_app. lia.
Qed.

(** C1, amended. [create_user] stores [U] with a random seed between 0
    and 1000 as its [followers_count], not with 0. In a run of [n]
    cycles during which no storage failure occurs and no counter comes
    near the limit of an INTEGER, [insert_follow] completes the counter
    update of every Follow row it inserts: the updates of [U] are as
    many as the rows inserted with [U] as [following_id], these [N]
    rows are the Follow rows that target [U], and the stored
    [followers_count] of [U] is the seed plus [N] (not [N] itself). *)
Theorem followers_count_is_seed_plus_insertions w0 U w1 n b :
  keys_fresh (db w0) -> follows_refer (db w0) ->
  create_user w0 = (Ok (Some U), w1) ->
  steady b w1 -> 1000 <= b -> b + Z.of_nat n <= INT_MAX ->
  exists seed new,
    0 <= seed <= 1000
    /\ followers_of U (db w1) = Some seed
    /\ trace (run_cycles n w1) = new ++ trace w1
    /\ count_inc U new = count_ins U new
    /\ rows_to U (db (run_cycles n w1)) = count_ins U new
    /\ followers_of U (db (run_cycles n w1))
       = Some (seed + Z.of_nat (count_ins U new)).
Proof.
  intros Hk Hf Hc Hs Hb Hmax.
  destruct (create_user_fresh_row w0 U w1 Hk Hf Hc)
    as (Hu & Hr & seed & Hseed & Hfo).
  destruct (respects_run_cycles n (acct_insert_random_data U) w1 Hu)
    as (_ & new & Ht & Hfo' & Hr').
  destruct (respects_run_cycles n (lags_insert_random_data U) w1)
    as (new1 & Ht1 & Hle).
  destruct (run_complete n w1 b Hb Hmax Hs) as (new2 & Ht2 & Hge).
  assert (new1 = new)
    by (eapply app_inv_tail; rewrite <- Ht, <- Ht1; reflexivity).
  assert (new2 = new)
    by (eapply app_inv_tail; rewrite <- Ht, <- Ht2; reflexivity).
  subst new1 new2. specialize (Hge U).
  assert (He : count_inc U new = count_ins U new) by lia.
  exists seed, new. repeat split; try tauto.
  - rewrite Hr', Hr. reflexivity.
  - rewrite Hfo', Hfo, He. reflexivity.
Qed.

(** ** The configuration of DatabaseManager *)

Lemma check_required_none e vars :
  Config.check_required e vars = None ->
  Forall (fun v => exists s, e v = Some s /\ s <> EmptyString) vars.
Proof.
  induction vars as [| v vars IH]; intro H; [constructor |].
  cbn [Config.check_required] in H. unfold Config.getenv in H.
  destruct (e v) as [[| c s] |] eqn:E; cbn [Config.is_set] in H;
    try discriminate.
  constructor; [| now apply IH].
  exists (String c s). split; [exact E | discriminate].
Qed.

Lemma check_required_some e vars message :
  Config.check_required e vars = Some message ->
  exists before var rest,
    vars = before ++ var :: rest
    /\ message = append "Missing required environment variable: " var
    /\ Config.is_set (e var) = false
    /\ Forall (fun v => Config.is_set (e v) = true) before.
Proof.
  induction vars as [| v vars IH]; intro H; [discriminate |].
  cbn [Config.check_required] in H. unfold Config.getenv in H.
  destruct (Config.is_set (e v)) eqn:E.
  - destruct (IH H) as (before & var & rest & -> & Hm & Hv & Hb).
    exists (v :: before), var, rest. repeat split; auto.
  - injection H as <-. exists [], v, vars. repeat split; auto.
Qed.

(** X16. [_load_config] needs all five variables. It returns a
    configuration only when DB_HOST, DB_PORT, DB_NAME, DB_USER and
    DB_PASSWORD are all set to a non-empty string, and the
    configuration then holds exactly these five values (the port as
    the string it was given). Otherwise it raises [ValueError] naming
    the first variable, in that order, that is unset or empty: an
    empty value counts as missing. *)
Theorem load_config_needs_all_five (e : Config.environ) :
  match Config.load_config e with
  | inr c =>
      Forall (fun v => exists s, e v = Some s /\ s <> EmptyString)
             Config.required_vars
      /\ Config.cfg_host c = e "DB_HOST"%string
      /\ Config.cfg_port c = e "DB_PORT"%string
      /\ Config.cfg_database c = e "DB_NAME"%string
      /\ Config.cfg_user c = e "DB_USER"%string
      /\ Config.cfg_password c = e "DB_PASSWORD"%string
  | inl message =>
      exists before var rest,
        Config.required_vars = before ++ var :: rest
        /\ message = append "Missing required environment variable: " var
        /\ Config.is_set (e var) = false
        /\ Forall (fun v => Config.is_set (e v) = true) before
  end.
Proof.
  unfold Config.load_config.
  destruct (Config.check_required e Config.required_vars) as [m |] eqn:E.
  - now apply check_required_some.
  - split; [now apply check_required_none |]. repeat split.
Qed.
(** ** The further properties on the example worlds *)

Section Examples.
Import Worlds.

Ltac example :=
  repeat first
    [ progress (unfold cache_ok, cache_known, keys_fresh; simpl)
    | split
    | constructor
    | lia
    | discriminate
    | solve [intuition (try discriminate; lia)]
    | intros ].

Lemma followers_count_is_seed_plus_insertions_witness :
  let w1 := snd (create_user seeded) in
  (keys_fresh (db seeded) /\ follows_refer (db seeded)
   /\ create_user seeded = (Ok (Some 2), w1)
   /\ steady 1000 w1 /\ 1000 <= 1000 /\ 1000 + Z.of_nat 1 <= INT_MAX)
  /\ exists seed new,
      0 <= seed <= 1000
      /\ followers_of 2 (db w1) = Some seed
      /\ trace (run_cycles 1 w1) = new ++ trace w1
      /\ count_inc 2 new = count_ins 2 new
      /\ rows_to 2 (db (run_cycles 1 w1)) = count_ins 2 new
      /\ followers_of 2 (db (run_cycles 1 w1))
         = Some (seed + Z.of_nat (count_ins 2 new)).
Proof.
  cbv zeta.
  assert (Hk : keys_fresh (db seeded)) by example.
  assert (Hf : follows_refer (db seeded)) by (constructor).
  assert (Hc : create_user seeded = (Ok (Some 2), snd (create_user seeded)))
    by (vm_compute; reflexivity).
  assert (Hs : steady 1000 (snd (create_user seeded))).
  { split; [vm_compute; reflexivity |].
    split; [vm_compute; discriminate |].
    unfold counters_below. vm_compute.
    repeat constructor; discriminate. }
  assert (Hb : 1000 <= 1000) by lia.
  assert (Hm : 1000 + Z.of_nat 1 <= INT_MAX) by (vm_compute; discriminate).
  split; [exact (conj Hk (conj Hf (conj Hc (conj Hs (conj Hb Hm))))) |].
  exact (followers_count_is_seed_plus_insertions
           seeded 2 (snd (create_user seeded)) 1 1000 Hk Hf Hc Hs Hb Hm).
Defined.

Lemma cache_holds_stored_users_witness :
  cache_known seeded
  /\ cache_known (snd (generate_tweet_data seeded))
  /\ cache_known (snd (generate_follow_data seeded))
  /\ forall n, cache_known (run_cycles n seeded).
Proof.
  assert (H : cache_known seeded) by example.
  split; [exact H |].
  exact (cache_holds_stored_users seeded H).
Defined.

Lemma generated_tweet_is_stored_witness :
  (cache_known tweet_with_new_user
   /\ faults tweet_with_new_user = []
   /\ next_tweet_id (db tweet_with_new_user) <= INT_MAX)
  /\ match generate_tweet_data (snd (enter TweetEvent tweet_with_new_user))
     with
     | (Ok td, _) =>
         tweets (db (snd (insert_tweet tweet_with_new_user)))
         = tweets (db tweet_with_new_user)
           ++ [tweet_row_of (db tweet_with_new_user) td]
     | (Raise _, _) =>
         tweets (db (snd (insert_tweet tweet_with_new_user)))
         = tweets (db tweet_with_new_user)
     end.
Proof.
  assert (H1 : cache_known tweet_with_new_user) by example.
  assert (H2 : faults tweet_with_new_user = []) by reflexivity.
  assert (H3 : next_tweet_id (db tweet_with_new_user) <= INT_MAX)
    by (vm_compute; discriminate).
  split; [exact (conj H1 (conj H2 H3)) |].
  exact (generated_tweet_is_stored tweet_with_new_user H1 H2 H3).
Defined.

Lemma generate_follow_data_pair_or_value_error_witness :
  cache_ok follow_twice
  /\ match generate_follow_data follow_twice with
     | (Ok fd, w') =>
         fd_follower_id fd <> fd_following_id fd
         /\ In (fd_follower_id fd) (user_ids w')
         /\ In (fd_following_id fd) (user_ids w')
     | (Raise e, w') =>
         e = ValueError /\ (List.length (user_ids w') < 2)%nat
     end.
Proof.
  assert (H : cache_ok follow_twice) by example.
  split; [exact H |].
  exact (generate_follow_data_pair_or_value_error follow_twice H).
Defined.

Lemma generated_follow_is_stored_witness :
  (cache_ok follow_twice /\ cache_known follow_twice
   /\ faults follow_twice = []
   /\ next_follow_id (db follow_twice) <= INT_MAX)
  /\ match generate_follow_data (snd (enter FollowEvent follow_twice)) with
     | (Ok fd, _) =>
         follows (db (snd (insert_follow follow_twice)))
         = if existsb (is_pair (fd_follower_id fd) (fd_following_id fd))
                      (follows (db follow_twice))
           then follows (db follow_twice)
           else follows (db follow_twice)
                ++ [mkFollow (next_follow_id (db follow_twice))
                             (fd_follower_id fd) (fd_following_id fd)]
     | (Raise _, _) =>
         follows (db (snd (insert_follow follow_twice)))
         = follows (db follow_twice)
     end.
Proof.
  assert (H1 : cache_ok follow_twice) by example.
  assert (H2 : cache_known follow_twice) by example.
  assert (H3 : faults follow_twice = []) by reflexivity.
  assert (H4 : next_follow_id (db follow_twice) <= INT_MAX)
    by (vm_compute; discriminate).
  split; [exact (conj H1 (conj H2 (conj H3 H4))) |].
  exact (generated_follow_is_stored follow_twice H1 H2 H3 H4).
Defined.

Lemma followers_count_never_leads_witness :
  has_user (db follow_twice) 2 = true
  /\ exists c c',
      followers_of 2 (db follow_twice) = Some c
      /\ followers_of 2 (db (run_cycles 2 follow_twice)) = Some c'
      /\ c <= c'
      /\ c' - c
         <= Z.of_nat (rows_to 2 (db (run_cycles 2 follow_twice))
                      - rows_to 2 (db follow_twice)).
Proof.
  assert (H : has_user (db follow_twice) 2 = true) by reflexivity.
  split; [exact H |].
  exact (followers_count_never_leads 2 follow_twice 2 H).
Defined.

Lemma completed_follow_updates_both_counters_witness :
  let fd := mkFollowData 1 2 in
  let f := fd_follower_id fd in
  let g := fd_following_id fd in
  let d' := db (snd (insert_follow_with fd follow_twice)) in
  (hd false (faults follow_twice) = false
   /\ existsb (is_pair f g) (follows (db follow_twice)) = false
   /\ 1 <= next_follow_id (db follow_twice)
   /\ fst (insert_follow_with fd follow_twice) = Ok tt)
  /\ f <> g
  /\ follows d'
     = follows (db follow_twice)
       ++ [mkFollow (next_follow_id (db follow_twice)) f g]
  /\ tweets d' = tweets (db follow_twice)
  /\ map identity (users d') = map identity (users (db follow_twice))
  /\ (forall U, followers_of U d'
                = option_map (fun c => c + (if g =? U then 1 else 0))
                             (followers_of U (db follow_twice)))
  /\ (forall U, following_of U d'
                = option_map (fun c => c + (if f =? U then 1 else 0))
                             (following_of U (db follow_twice))).
Proof.
  intros fd f g d'.
  assert (H1 : hd false (faults follow_twice) = false) by reflexivity.
  assert (H2 : existsb (is_pair f g) (follows (db follow_twice)) = false)
    by reflexivity.
  assert (H3 : 1 <= next_follow_id (db follow_twice))
    by (vm_compute; discriminate).
  assert (H4 : fst (insert_follow_with fd follow_twice) = Ok tt)
    by (vm_compute; reflexivity).
  split; [exact (conj H1 (conj H2 (conj H3 H4))) |].
  exact (completed_follow_updates_both_counters fd follow_twice H1 H2 H3 H4).
Defined.

End Examples.
